(** * OpenPlayer: Captions, Media facade, Ads and Fullscreen components

    A shallow embedding of the algorithmic and state-handling parts of the
    player (captions cue search, WebVTT line parser, caption sanitizer, the
    captions menu entries, the Media facade, the Ads event handlers and
    sound setters, the Fullscreen listener bookkeeping and the entering and
    leaving of fullscreen), followed by the properties proved about them.

    Part I holds the models, one module per source class; Part II holds the
    theorems. *)

From Stdlib Require Import ZArith QArith List String Ascii Bool Lia Lqa Permutation.
Import ListNotations.

Local Open Scope Z_scope.

(* ================================================================== *)
(** * Part I: models *)
(* ================================================================== *)

(** ** JavaScript run-time conventions shared by all components *)

Module Js.

(** Exceptions the modelled code can raise. *)
Inductive exn : Type :=
| TypeError (msg : string).

(** How the evaluation of a function body ends: it returns, it throws, or
    the loop is still running when the fuel of the model is used up. *)
Inductive completion (A : Type) : Type :=
| Normal (a : A)
| Throw (e : exn)
| OutOfFuel.
Arguments Normal {A} a.
Arguments Throw {A} e.
Arguments OutOfFuel {A}.

(** Sequencing: a throw (or the end of the fuel) ends what follows. *)
Definition bind {A B : Type} (m : completion A) (k : A -> completion B)
  : completion B :=
  match m with
  | Normal a => k a
  | Throw e => Throw e
  | OutOfFuel => OutOfFuel
  end.

(** Code that changes a state [S]: the state it leaves and how it ends.
    A throw keeps the changes made before it. *)
Definition M (S A : Type) : Type := S -> S * completion A.

Definition ret {S A : Type} (a : A) : M S A := fun s => (s, Normal a).

Definition throw {S A : Type} (e : exn) : M S A := fun s => (s, Throw e).

Definition bindM {S A B : Type} (m : M S A) (k : A -> M S B) : M S B :=
  fun s =>
    match m s with
    | (s', Normal a) => k a s'
    | (s', Throw e) => (s', Throw e)
    | (s', OutOfFuel) => (s', OutOfFuel)
    end.

(** [try { m } catch (e) { h }] *)
Definition catch {S A : Type} (m : M S A) (h : exn -> M S A) : M S A :=
  fun s =>
    match m s with
    | (s', Throw e) => h e s'
    | r => r
    end.

Definition get {S : Type} : M S S := fun s => (s, Normal s).

Definition update {S : Type} (f : S -> S) : M S unit := fun s => (f s, Normal tt).

(** [if (c) { m }] *)
Definition when {S : Type} (c : bool) (m : M S unit) : M S unit :=
  if c then m else ret tt.

(** The computation keeps a property of the state, however it ends. *)
Definition preserves {S A : Type} (I : S -> Prop) (m : M S A) : Prop :=
  forall s, I s -> I (fst (m s)).


Declare Scope js_scope.
Delimit Scope js_scope with js.
Notation "x <- m ;; k" := (bindM m (fun x => k))
  (at level 61, m at next level, right associativity) : js_scope.
Notation "m ;; k" := (bindM m (fun _ => k))
  (at level 61, right associativity) : js_scope.

(** [ToInt32]: the operands of [>>] are reduced modulo 2^32 and read as
    signed 32-bit integers. *)
Definition to_int32 (z : Z) : Z :=
  let m := z mod 2 ^ 32 in
  if m <? 2 ^ 31 then m else m - 2 ^ 32.

(** [a >> b] on numbers that hold integers. *)
Definition sar (a b : Z) : Z := Z.shiftr (to_int32 a) (b mod 32).

(** [arr[i]] for an integer index: [undefined] (here [None]) outside of
    [0 .. length-1]. *)
Definition index {A : Type} (arr : list A) (i : Z) : option A :=
  if i <? 0 then None else nth_error arr (Z.to_nat i).

(** [arr.length]. *)
Definition len {A : Type} (arr : list A) : Z := Z.of_nat (List.length arr).

End Js.

Import Js.

(** ** Captions *)

Module Captions.

(** A cue as [_getCuesFromText] and [_getNativeCues] build it.  Times are
    seconds; [identifier] is [None] for the JavaScript value [undefined];
    [settings] is [None] for the empty object and [Some raw] for the object
    obtained from [JSON.parse raw]. *)
Record Cue : Type := mkCue {
  endTime : Q;
  identifier : option string;
  settings : option string;
  startTime : Q;
  text : string
}.

(** [x < y] on finite numbers, as a test. *)
Definition Qlt_bool (x y : Q) : bool := negb (Qle_bool y x).

(** *** [_search]

    [while (low <= high) { mid = (low + high) >> 1; ... }].  One unit of
    fuel is spent per iteration; the last [else if] of the source has no
    [else], so an iteration in which none of the three tests holds leaves
    [low] and [high] as they are. *)
Fixpoint search_loop (fuel : nat) (tracks : list Cue) (currentTime : Q)
         (low high : Z) : completion Z :=
  if low <=? high then
    match fuel with
    | O => OutOfFuel
    | S fuel' =>
        let mid := sar (low + high) 1 in
        match index tracks mid with
        | None => Throw (TypeError "Cannot read properties of undefined")
        | Some c =>
            let start := startTime c in
            let stop := endTime c in
            if Qle_bool start currentTime && Qlt_bool currentTime stop then
              Normal mid
            else if Qlt_bool start currentTime then
              search_loop fuel' tracks currentTime (mid + 1) high
            else if Qlt_bool currentTime start then
              search_loop fuel' tracks currentTime low (mid - 1)
            else
              search_loop fuel' tracks currentTime low high
        end
    end
  else Normal (-1).

Definition _search (fuel : nat) (tracks : list Cue) (currentTime : Q)
  : completion Z :=
  search_loop fuel tracks currentTime 0 (len tracks - 1).

(** *** Vocabulary for the properties of [_search] *)

(** The time [t] lies in the interval of the cue. *)
Definition contains (c : Cue) (t : Q) : Prop :=
  (startTime c <= t)%Q /\ (t < endTime c)%Q.

(** Cues in ascending order of [startTime]. *)
Definition sorted_by_start (tracks : list Cue) : Prop :=
  forall i j ci cj, i < j ->
    index tracks i = Some ci -> index tracks j = Some cj ->
    (startTime ci <= startTime cj)%Q.

(** No two cues overlap: an earlier cue has ended when a later one starts. *)
Definition non_overlapping (tracks : list Cue) : Prop :=
  forall i j ci cj, i < j ->
    index tracks i = Some ci -> index tracks j = Some cj ->
    (endTime ci <= startTime cj)%Q.

(** Every cue has a non-empty interval. *)
Definition proper (tracks : list Cue) : Prop :=
  forall i c, index tracks i = Some c -> (startTime c < endTime c)%Q.

(** What the binary search is expected to answer: the index of a cue whose
    interval contains [t], or [-1] when there is none. *)
Definition search_answer (tracks : list Cue) (t : Q) (r : Z) : Prop :=
  (exists c, index tracks r = Some c /\ contains c t) \/
  (r = -1 /\ forall k c, index tracks k = Some c -> ~ contains c t).

(** The loop invariant of the binary search: every cue that contains [t]
    has its index between [low] and [high]. *)
Definition candidates_within (tracks : list Cue) (t : Q) (low high : Z) : Prop :=
  forall k c, index tracks k = Some c -> contains c t -> low <= k <= high.

(** A cue with the given interval and no text. *)
Definition cue (start stop : Q) : Cue :=
  mkCue stop None None start EmptyString.

(** *** Strings

    A string is a sequence of code units below 256; the line and paragraph
    separators U+2028 and U+2029 are outside of this range. *)

Local Open Scope string_scope.
Local Open Scope Z_scope.

Definition LF : ascii := ascii_of_nat 10.
Definition CR : ascii := ascii_of_nat 13.

Definition code (c : ascii) : N := N_of_ascii c.

Definition in_range (lo hi : N) (c : ascii) : bool :=
  ((lo <=? code c) && (code c <=? hi))%N.

Definition is_digit (c : ascii) : bool := in_range 48 57 c.
Definition is_upper (c : ascii) : bool := in_range 65 90 c.
Definition is_lower (c : ascii) : bool := in_range 97 122 c.
Definition is_letter (c : ascii) : bool := is_upper c || is_lower c.

(** [\w] of a regular expression. *)
Definition is_word_char (c : ascii) : bool :=
  is_letter c || is_digit c || Ascii.eqb c "_".

(** White space and line terminators removed by [String.prototype.trim]. *)
Definition is_space (c : ascii) : bool :=
  in_range 9 13 c || (code c =? 32)%N || (code c =? 160)%N.

Definition to_lower (c : ascii) : ascii :=
  if is_upper c then ascii_of_N (code c + 32) else c.

Fixpoint trim_start (s : string) : string :=
  match s with
  | EmptyString => EmptyString
  | String c r => if is_space c then trim_start r else s
  end.

Fixpoint trim_end (s : string) : string :=
  match s with
  | EmptyString => EmptyString
  | String c r =>
      match trim_end r with
      | EmptyString => if is_space c then EmptyString else String c EmptyString
      | r' => String c r'
      end
  end.

(** [s.trim()]. *)
Definition trim (s : string) : string := trim_end (trim_start s).

(** [s] without the prefix [p], when it starts with it. *)
Fixpoint strip_prefix (p s : string) : option string :=
  match p, s with
  | EmptyString, _ => Some s
  | String a p', String b s' => if Ascii.eqb a b then strip_prefix p' s' else None
  | String _ _, EmptyString => None
  end.

(** The same, letters compared without regard to case (flag [i]). *)
Fixpoint strip_prefix_ci (p s : string) : option (string * string) :=
  match p, s with
  | EmptyString, _ => Some (EmptyString, s)
  | String a p', String b s' =>
      if Ascii.eqb (to_lower a) (to_lower b) then
        match strip_prefix_ci p' s' with
        | Some (m, r) => Some (String b m, r)
        | None => None
        end
      else None
  | String _ _, EmptyString => None
  end.

(** [webvttText.split(/\r?\n/)]: a line ends at a line feed, and a carriage
    return right before it belongs to the separator. *)
Fixpoint split_lines (s : string) : list string :=
  match s with
  | EmptyString => [EmptyString]
  | String c rest =>
      if Ascii.eqb c LF then EmptyString :: split_lines rest
      else
        match rest with
        | String c2 rest2 =>
            if Ascii.eqb c CR && Ascii.eqb c2 LF
            then EmptyString :: split_lines rest2
            else
              match split_lines rest with
              | l :: ls => String c l :: ls
              | [] => [String c EmptyString]
              end
        | EmptyString => [String c EmptyString]
        end
  end.

(** *** The time code pattern

    [^((?:[0-9]{1,2}:)?[0-9]{2}:[0-9]{2}([,.][0-9]{1,3})?) --> ]
    [((?:[0-9]{1,2}:)?[0-9]{2}:[0-9]{2}([,.][0-9]{3})?)(.*?)$]

    Each piece of the pattern yields its ways to match a prefix of the
    input, as pairs (matched text, rest), in the order in which the
    backtracking matcher tries them; the match is the first way that
    reaches the end of the line. *)

Definition ways : Type := list (string * string).

(** [[0-9]{n}] *)
Fixpoint digits (n : nat) (s : string) : ways :=
  match n with
  | O => [(EmptyString, s)]
  | S n' =>
      match s with
      | String c r =>
          if is_digit c
          then map (fun mr => (String c (fst mr), snd mr)) (digits n' r)
          else []
      | EmptyString => []
      end
  end.

(** One literal character. *)
Definition lit (a : ascii) (s : string) : ways :=
  match s with
  | String c r => if Ascii.eqb a c then [(String c EmptyString, r)] else []
  | EmptyString => []
  end.

(** One character of a class. *)
Definition one_of (p : ascii -> bool) (s : string) : ways :=
  match s with
  | String c r => if p c then [(String c EmptyString, r)] else []
  | EmptyString => []
  end.

(** Concatenation: every way of [f], continued by every way of [g]. *)
Definition seq (f g : string -> ways) (s : string) : ways :=
  flat_map (fun mr => map (fun mr' => (fst mr ++ fst mr', snd mr')) (g (snd mr)))
           (f s).

(** Alternatives, the left tried first. *)
Definition alt (f g : string -> ways) (s : string) : ways := (f s ++ g s)%list.

(** [r?] (greedy): with [r] first, then without. *)
Definition opt (f : string -> ways) (s : string) : ways :=
  (f s ++ [(EmptyString, s)])%list.

(** [(?:[0-9]{1,2}:)?] *)
Definition re_hours : string -> ways :=
  opt (seq (alt (digits 2) (digits 1)) (lit ":")).

(** [[0-9]{2}:[0-9]{2}] *)
Definition re_mmss : string -> ways :=
  seq (digits 2) (seq (lit ":") (digits 2)).

Definition is_frac_sep (c : ascii) : bool := Ascii.eqb c "," || Ascii.eqb c ".".

(** [([,.][0-9]{1,3})?] *)
Definition re_frac_1_3 : string -> ways :=
  opt (seq (one_of is_frac_sep) (alt (digits 3) (alt (digits 2) (digits 1)))).

(** [([,.][0-9]{3})?] *)
Definition re_frac_3 : string -> ways :=
  opt (seq (one_of is_frac_sep) (digits 3)).

(** [.] matches every character but a line terminator. *)
Definition is_line_terminator (c : ascii) : bool := Ascii.eqb c LF || Ascii.eqb c CR.

Fixpoint all_chars (p : ascii -> bool) (s : string) : bool :=
  match s with
  | EmptyString => true
  | String c r => p c && all_chars p r
  end.

(** [(.*?)$]: the rest of the line, when no line terminator is in it. *)
Definition re_rest (s : string) : ways :=
  if all_chars (fun c => negb (is_line_terminator c)) s
  then [(s, EmptyString)] else [].

(** The groups 1, 3 and 5 of a match. *)
Record timecode_match : Type := mkMatch {
  group1 : string;
  group3 : string;
  group5 : string
}.

Definition timecode_ways (s : string) : list timecode_match :=
  flat_map (fun g1 =>
    flat_map (fun arrow =>
      flat_map (fun g3 =>
        map (fun g5 => mkMatch (fst g1) (fst g3) (fst g5)) (re_rest (snd g3)))
        (seq re_hours (seq re_mmss re_frac_3) (snd arrow)))
      (seq (lit " ") (seq (lit "-") (seq (lit "-") (seq (lit ">") (lit " "))))
           (snd g1)))
    (seq re_hours (seq re_mmss re_frac_1_3) s).

(** [regexp.exec(line)] *)
Definition regexp_exec (line : string) : option timecode_match :=
  hd_error (timecode_ways line).

(** *** The URL pattern and its replacement

    [/(\b(https?|ftp|file):\/\/[-A-Z0-9+&@#\/%?=~_|!:,.;]*[-A-Z0-9+&@#\/%=~_|])/gi]
    replaced by [<a href='$1' target='_blank'>$1</a>]. *)

Definition is_any_of (set : string) (c : ascii) : bool :=
  existsb (Ascii.eqb c) (list_ascii_of_string set).

(** [[-A-Z0-9+&@#\/%=~_|]] under the flag [i]. *)
Definition is_url_end (c : ascii) : bool :=
  is_letter c || is_digit c || is_any_of "-+&@#/%=~_|" c.

(** [[-A-Z0-9+&@#\/%?=~_|!:,.;]] under the flag [i]. *)
Definition is_url_char (c : ascii) : bool :=
  is_url_end c || is_any_of "?!:,.;" c.

(** A literal word, letters matched without regard to case. *)
Definition lit_ci (p : string) (s : string) : ways :=
  match strip_prefix_ci p s with
  | Some mr => [mr]
  | None => []
  end.

(** [[...]*] (greedy): the longest run first, then shorter ones. *)
Fixpoint star (p : ascii -> bool) (s : string) : ways :=
  match s with
  | String c r =>
      if p c
      then (map (fun mr => (String c (fst mr), snd mr)) (star p r)
              ++ [(EmptyString, s)])%list
      else [(EmptyString, s)]
  | EmptyString => [(EmptyString, s)]
  end.

Definition re_scheme : string -> ways :=
  alt (seq (lit_ci "http") (opt (lit_ci "s"))) (alt (lit_ci "ftp") (lit_ci "file")).

Definition url_ways : string -> ways :=
  seq re_scheme
      (seq (lit ":") (seq (lit "/") (seq (lit "/")
         (seq (star is_url_char) (one_of is_url_end))))).

(** [\b] between the character before the position and the text at it. *)
Definition word_boundary (prev : option ascii) (s : string) : bool :=
  xorb (match prev with Some c => is_word_char c | None => false end)
       (match s with String c _ => is_word_char c | EmptyString => false end).

Definition url_at (prev : option ascii) (s : string) : option string :=
  if word_boundary prev s then option_map fst (hd_error (url_ways s)) else None.

Definition anchor (url : string) : string :=
  "<a href='" ++ url ++ "' target='_blank'>" ++ url ++ "</a>".

(** The global replacement: [skip] counts the characters of the last match
    that are still to be passed over. *)
Fixpoint replace_urls (skip : nat) (prev : option ascii) (s : string) : string :=
  match s with
  | EmptyString => EmptyString
  | String c r =>
      match skip with
      | S k => replace_urls k (Some c) r
      | O =>
          match url_at prev s with
          | Some m => anchor m ++ replace_urls (String.length m - 1) (Some c) r
          | None => String c (replace_urls 0 (Some c) r)
          end
      end
  end.

(** [cue.trim().replace(urlRegexp, ...)] *)
Definition finish_text (cue : string) : string :=
  replace_urls 0 None (trim cue).

(** *** [_getCuesFromText] *)

Section Parser.

(** [timeToSeconds] of [utils/time] and the local function [isJson] (built
    on [JSON.parse]) are taken as they come. *)
Variable timeToSeconds : string -> Q.
Variable isJson : string -> bool.

(** A value interpolated in a template literal. *)
Definition to_display (v : option string) : string :=
  match v with
  | Some s => s
  | None => "undefined"
  end.

(** [lines[i] !== ''] *)
Definition not_empty_line (v : option string) : bool :=
  match v with
  | Some s => negb (String.eqb s EmptyString)
  | None => true
  end.

(** [while (lines[i] !== '' && i < lines.length) { cue = `${cue}\n${lines[i]}`; i++; }] *)
Fixpoint text_loop (fuel : nat) (lines : list string) (cue : option string)
         (i : Z) : completion (option string * Z) :=
  if not_empty_line (index lines i) && (i <? len lines) then
    match fuel with
    | O => OutOfFuel
    | S fuel' =>
        text_loop fuel' lines
          (Some (to_display cue ++ String LF (to_display (index lines i))))
          (i + 1)
    end
  else Normal (cue, i).

(** The entry pushed for a match and the text gathered after it. *)
Definition make_entry (m : timecode_match) (ident : option string)
           (cue : string) : Cue :=
  let initTime := timeToSeconds (group1 m) in
  {| endTime := timeToSeconds (group3 m);
     identifier := ident;
     settings := if isJson (group5 m) then Some (group5 m) else None;
     startTime := if Qeq_bool initTime 0 then (1 # 5)%Q else initTime;
     text := cue |}.

(** The [for] loop over the lines; [identifier] and [entries] are the
    variables of the same names. *)
Fixpoint lines_loop (fuel : nat) (lines : list string) (i : Z)
         (ident : option string) (entries : list Cue)
  : completion (list Cue) :=
  if i <? len lines then
    match fuel with
    | O => OutOfFuel
    | S fuel' =>
        match option_map regexp_exec (index lines i) with
        | Some (Some timecode) =>
            let ident1 :=
              if (i - 1 >=? 0) && not_empty_line (index lines (i - 1))
              then index lines (i - 1) else ident in
            let i1 := i + 1 in
            let cue := index lines i1 in
            let i2 := i1 + 1 in
            match text_loop fuel' lines cue i2 with
            | Normal (Some cue', i3) =>
                lines_loop fuel' lines (i3 + 1) (Some EmptyString)
                  (entries ++ [make_entry timecode ident1 (finish_text cue')])%list
            | Normal (None, _) =>
                Throw (TypeError "Cannot read properties of undefined (reading 'trim')")
            | Throw e => Throw e
            | OutOfFuel => OutOfFuel
            end
        | _ => lines_loop fuel' lines (i + 1) (Some EmptyString) entries
        end
    end
  else Normal entries.

Definition _getCuesFromText (webvttText : string) : completion (list Cue) :=
  let lines := split_lines webvttText in
  lines_loop (S (List.length lines)) lines 0 None [].

(** *** The parser as a scanner of lines

    The description the parser is compared with: the lines are read one by
    one.  While scanning, a line that matches the time code pattern opens a
    cue whose identifier is the line before it ([undefined] when there is
    none); the next line, whatever it is, starts the text of the cue, and
    the lines after it are joined to the text, each after a line feed, up
    to the first empty line, which ends the cue and is not scanned.  A time
    code line with no line after it cannot be completed: the scan ends
    with a [TypeError] and no cues. *)
Inductive scan_state : Type :=
| Scanning (prev : option string)
| AfterTimecode (m : timecode_match) (ident : option string)
| InText (m : timecode_match) (ident : option string) (txt : string).

(** The cue of a time code line: it ends at the second time code in
    seconds and starts at the first one in seconds, or at 0.2 when that
    is 0; its text is what was gathered, trimmed and with URLs turned
    into links. *)
Definition scanned_cue (m : timecode_match) (ident : option string)
           (txt : string) : Cue :=
  let first := timeToSeconds (group1 m) in
  let second := timeToSeconds (group3 m) in
  mkCue second ident
        (if isJson (group5 m) then Some (group5 m) else None)
        (if Qeq_bool first 0 then (1 # 5)%Q else first)
        (replace_urls 0 None (trim txt)).

Definition scan_line (st : scan_state * list Cue) (l : string)
  : scan_state * list Cue :=
  match fst st with
  | Scanning prev =>
      match regexp_exec l with
      | Some m => (AfterTimecode m prev, snd st)
      | None => (Scanning (Some l), snd st)
      end
  | AfterTimecode m ident => (InText m ident l, snd st)
  | InText m ident txt =>
      if String.eqb l EmptyString
      then (Scanning (Some EmptyString),
            (snd st ++ [scanned_cue m ident txt])%list)
      else (InText m ident (txt ++ String LF l), snd st)
  end.

Definition scan_end (st : scan_state * list Cue) : completion (list Cue) :=
  match fst st with
  | Scanning _ => Normal (snd st)
  | AfterTimecode _ _ =>
      Throw (TypeError "Cannot read properties of undefined (reading 'trim')")
  | InText m ident txt =>
      Normal (snd st ++ [scanned_cue m ident txt])%list
  end.



(** The value of the variable [identifier] when a line is scanned: it is
    [undefined] before the first line and [''] after every iteration. *)
Definition ident_var (done : list string) : option string :=
  match done with
  | [] => None
  | _ :: _ => Some EmptyString
  end.

(** The last line read so far. *)
Definition last_line (done : list string) : option string :=
  match rev done with
  | [] => None
  | l :: _ => Some l
  end.

End Parser.

(** *** The DOM fragment handled by [_sanitize]

    The children of the [div] the HTML is parsed into, as the chain of
    siblings the DOM keeps: every node holds its next sibling, an element
    also its first child.  A [template] element keeps what is written
    between its tags in a document fragment of its own, its contents,
    which are not children of the element: [Contents] stands among the
    children of the element for that fragment. *)

Definition attribute : Type := (string * string)%type.

Inductive dom : Type :=
| NoNode
| TextNode (data : string) (next : dom)
| Contents (content next : dom)
| Elem (tag : string) (attrs : list attribute) (children next : dom).

(** The elements below a node list in tree order: what a collection
    returned by [getElementsByTagName] holds, looked up again at every
    use since the collection is live.  [sel] tells the tag names in it.
    The contents of a template are no descendants: no collection holds
    their elements. *)
Fixpoint count (sel : string -> bool) (d : dom) : nat :=
  match d with
  | NoNode => 0
  | TextNode _ next => count sel next
  | Contents _ next => count sel next
  | Elem tag _ children next =>
      (if sel tag then 1 else 0) + count sel children + count sel next
  end.

(** [collection[k]]: tag and attributes of the element, [None] for
    [undefined]. *)
Fixpoint item (sel : string -> bool) (k : nat) (d : dom)
  : option (string * list attribute) :=
  match d with
  | NoNode => None
  | TextNode _ next => item sel k next
  | Contents _ next => item sel k next
  | Elem tag attrs children next =>
      if sel tag && (k =? 0)%nat then Some (tag, attrs)
      else
        let k' := (k - (if sel tag then 1 else 0))%nat in
        if (k' <? count sel children)%nat then item sel k' children
        else item sel (k' - count sel children)%nat next
  end.

(** The node list after [collection[k]] was replaced by [f] of it; [f]
    gets tag, attributes, children and next sibling. *)
Fixpoint modify (sel : string -> bool)
         (f : string -> list attribute -> dom -> dom -> dom)
         (k : nat) (d : dom) : dom :=
  match d with
  | NoNode => NoNode
  | TextNode data next => TextNode data (modify sel f k next)
  | Contents content next => Contents content (modify sel f k next)
  | Elem tag attrs children next =>
      if sel tag && (k =? 0)%nat then f tag attrs children next
      else
        let k' := (k - (if sel tag then 1 else 0))%nat in
        if (k' <? count sel children)%nat
        then Elem tag attrs (modify sel f k' children) next
        else Elem tag attrs children (modify sel f (k' - count sel children)%nat next)
  end.

(** [getElementsByTagName('script')] and [getElementsByTagName('*')]. *)
Definition by_tag (name : string) : string -> bool := fun tag => String.eqb tag name.
Definition any_tag : string -> bool := fun _ => true.

(** Taking a node out of its parent: its next sibling takes its place. *)
Definition unlink (tag : string) (attrs : list attribute) (children next : dom)
  : dom := next.

(** [element.removeAttribute(name)]: the first attribute of that name goes. *)
Fixpoint remove_attr (name : string) (attrs : list attribute) : list attribute :=
  match attrs with
  | [] => []
  | a :: rest =>
      if String.eqb (fst a) name then rest else a :: remove_attr name rest
  end.

Definition without_attr (name : string)
           (tag : string) (attrs : list attribute) (children next : dom) : dom :=
  Elem tag (remove_attr name attrs) children next.

(** [/^(on|javascript:)/.test(name)] *)
Definition is_event_name (name : string) : bool :=
  String.prefix "on" name || String.prefix "javascript:" name.

Section Sanitizer.

(** [removeElement] of [utils/general] takes a node out of its parent; what
    it does when it is handed [undefined] is taken as it comes. *)
Variable removeElement_undefined : completion unit.

(** The browser's HTML parser and serialiser, taken as they come: the
    children an element has after [element.innerHTML = html], and the
    string that [element.innerHTML] reads from its children.  The [div]
    of [_sanitize] and the [span] of the captions are parsed into alike. *)
Variable parse_html : string -> dom.
Variable innerHTML : dom -> string.

(** [removeElement(collection[k])] *)
Definition removeElement (sel : string -> bool) (k : nat) (d : dom)
  : completion dom :=
  match item sel k d with
  | Some _ => Normal (modify sel unlink k d)
  | None => bind removeElement_undefined (fun _ => Normal d)
  end.

(** [let i = scripts.length; while (i--) { removeElement(scripts[i]); }] *)
Fixpoint remove_scripts (i : nat) (d : dom) : completion dom :=
  match i with
  | O => Normal d
  | S i' => bind (removeElement (by_tag "script") i' d) (remove_scripts i')
  end.

(** The loop over the copy [attributes] of the attributes of the element
    found at [index] when the outer iteration began; [allElements[index]]
    is looked up again at every use. *)
Fixpoint attr_loop (attributes : list attribute) (index : nat) (d : dom)
  : completion dom :=
  match attributes with
  | [] => Normal d
  | a :: rest =>
      if is_event_name (fst a) then
        bind (removeElement any_tag index d) (attr_loop rest index)
      else if String.eqb (fst a) "style" then
        match item any_tag index d with
        | Some _ =>
            attr_loop rest index (modify any_tag (without_attr (fst a)) index d)
        | None =>
            Throw (TypeError "Cannot read properties of undefined (reading 'removeAttribute')")
        end
      else attr_loop rest index d
  end.

(** [for (let index = 0, n = allElements.length; index < n; index++)]:
    [todo] is [n - index]. *)
Fixpoint element_loop (todo : nat) (index : nat) (d : dom) : completion dom :=
  match todo with
  | O => Normal d
  | S todo' =>
      match item any_tag index d with
      | None =>
          Throw (TypeError "Cannot read properties of undefined (reading 'attributes')")
      | Some (_, attributes) =>
          bind (attr_loop attributes index d) (element_loop todo' (S index))
      end
  end.

(** The two loops of [_sanitize] on the children of [div]. *)
Definition sanitize_loops (parsed : dom) : completion dom :=
  bind (remove_scripts (count (by_tag "script") parsed) parsed)
       (fun d => element_loop (count any_tag d) 0 d).

(** [div.innerHTML = html], the two loops, [return div.innerHTML]. *)
Definition _sanitize (html : string) : completion string :=
  bind (sanitize_loops (parse_html html))
       (fun d => Normal (innerHTML d)).

(** *** The [timeupdate] handler set up by [create]

    What the handler reads and writes: the class [op-captions--on] of the
    captions box, the class [op-controls__captions--on] and the attribute
    [data-active-captions] of the button, and the children of the [span]
    that shows the caption: what the parser made of the string last given
    to [container.innerHTML]. *)
Record view : Type := mkView {
  captions_on : bool;
  button_on : bool;
  active_captions : string;
  container : dom
}.

(** [_hide]; [has_current] tells whether [this.current] is set. *)
Definition _hide (has_current : bool) (v : view) : view :=
  if has_current
  then mkView false (button_on v) (active_captions v) (container v)
  else mkView false false "off" (container v).

(** [this.tracks[language]] *)
Fixpoint tracks_get (tracks : list (string * list Cue)) (language : string)
  : option (list Cue) :=
  match tracks with
  | [] => None
  | (l, cues) :: rest =>
      if String.eqb l language then Some cues else tracks_get rest language
  end.

(** The handler: the view it leaves, and how it ends.  [current] is the
    language of [this.current], if that is set. *)
Definition timeupdate (fuel : nat) (isMedia : bool) (current : option string)
           (tracks : list (string * list Cue)) (currentTime : Q) (v : view)
  : view * completion unit :=
  if isMedia then
    match current with
    | Some language =>
        match tracks_get tracks language with
        | Some currentCues =>
            match _search fuel currentCues currentTime with
            | Normal i =>
                let v1 := mkView (captions_on v) (button_on v)
                                 (active_captions v) NoNode in
                if (i >? -1) && button_on v then
                  let v2 := mkView true (button_on v) (active_captions v) NoNode in
                  match index currentCues i with
                  | Some c =>
                      match _sanitize (text c) with
                      | Normal s =>
                          (mkView true (button_on v) (active_captions v)
                                  (parse_html s),
                           Normal tt)
                      | Throw e => (v2, Throw e)
                      | OutOfFuel => (v2, OutOfFuel)
                      end
                  | None =>
                      (v2, Throw (TypeError "Cannot read properties of undefined (reading 'text')"))
                  end
                else (_hide true v1, Normal tt)
            | Throw e => (v, Throw e)
            | OutOfFuel => (v, OutOfFuel)
            end
        | None => (v, Normal tt)
        end
    | None => (_hide false v, Normal tt)
    end
  else (_hide (match current with Some _ => true | None => false end) v,
        Normal tt).

End Sanitizer.

(** *** Vocabulary for the properties of [_sanitize] *)

(** Tag and attributes of the elements that [getElementsByTagName('*')]
    holds, in tree order. *)
Fixpoint elems (d : dom) : list (string * list attribute) :=
  match d with
  | NoNode => []
  | TextNode _ next => elems next
  | Contents _ next => elems next
  | Elem tag attrs children next =>
      ((tag, attrs) :: elems children ++ elems next)%list
  end.

Definition ok_attr (a : attribute) : bool :=
  negb (is_event_name (fst a)) && negb (String.eqb (fst a) "style").

Definition not_script (e : string * list attribute) : bool :=
  negb (String.eqb (fst e) "script").

Definition ok_attrs (e : string * list attribute) : bool :=
  forallb ok_attr (snd e).

(** Among the elements outside the contents of templates: no [script]
    element, no attribute whose name starts with [on] or [javascript:],
    no [style] attribute. *)
Definition clean (d : dom) : Prop :=
  forallb (fun e => not_script e && ok_attrs e) (elems d) = true.

(** Tag and attributes of the elements that the markup of a node list
    shows: those of [elems] and those of the contents of templates. *)
Fixpoint shown (d : dom) : list (string * list attribute) :=
  match d with
  | NoNode => []
  | TextNode _ next => shown next
  | Contents content next => (shown content ++ shown next)%list
  | Elem tag attrs children next =>
      ((tag, attrs) :: shown children ++ shown next)%list
  end.

(** The markup of [d] shows a [script] element. *)
Definition shows_script (d : dom) : bool :=
  existsb (fun e => String.eqb (fst e) "script") (shown d).

(** Replacing the [k]-th entry of a list. *)
Fixpoint upd {A : Type} (k : nat) (f : A -> A) (l : list A) : list A :=
  match l, k with
  | [], _ => []
  | x :: r, O => f x :: r
  | x :: r, S k' => x :: upd k' f r
  end.

(** Number of attributes called [style]. *)
Definition n_style (l : list attribute) : nat :=
  List.length (filter (fun a => String.eqb (fst a) "style"%string) l).

Definition no_event (a : attribute) : bool := negb (is_event_name (fst a)).

(** *** Markup for the examples

    A serialiser and a parser to run the examples with: the serialisation
    of the HTML standard for elements, text and template contents, and
    the node lists that the parser of the standard builds for the markup
    that the examples use. *)

Definition quote : string := String "034"%char EmptyString.

(** Escaping of text and of attribute values. *)
Fixpoint escape (in_attribute : bool) (s : string) : string :=
  match s with
  | EmptyString => EmptyString
  | String c r =>
      ((if Ascii.eqb c "&"%char then "&amp;"
        else if in_attribute && Ascii.eqb c "034"%char then "&quot;"
        else if negb in_attribute && Ascii.eqb c "<"%char then "&lt;"
        else if negb in_attribute && Ascii.eqb c ">"%char then "&gt;"
        else String c EmptyString)
       ++ escape in_attribute r)%string
  end.

Definition serialize_attribute (a : attribute) : string :=
  (" " ++ fst a ++ "=" ++ quote ++ escape true (snd a) ++ quote)%string.

(** Elements without end tag, and elements whose text is written as it is. *)
Definition is_void (tag : string) : bool :=
  existsb (String.eqb tag)
          ["area"; "base"; "br"; "col"; "embed"; "hr"; "img"; "input";
           "link"; "meta"; "source"; "track"; "wbr"]%string.

Definition is_raw_text (tag : string) : bool :=
  existsb (String.eqb tag)
          ["style"; "script"; "xmp"; "iframe"; "noembed"; "noframes";
           "plaintext"]%string.

(** The markup of a node list; [raw] tells whether the parent writes its
    text as it is.  The contents of a template are written between its
    tags. *)
Fixpoint serialize (raw : bool) (d : dom) : string :=
  match d with
  | NoNode => EmptyString
  | TextNode data next =>
      ((if raw then data else escape false data) ++ serialize raw next)%string
  | Contents content next =>
      (serialize false content ++ serialize raw next)%string
  | Elem tag attrs children next =>
      ("<" ++ tag ++ String.concat EmptyString (map serialize_attribute attrs)
           ++ ">"
           ++ (if is_void tag then EmptyString
               else serialize (is_raw_text tag) children ++ "</" ++ tag ++ ">")
           ++ serialize raw next)%string
  end.

Definition sample_innerHTML : dom -> string := serialize false.

(** A paragraph with a [style] attribute and a [script] child, followed
    by an element with a click handler, and what [_sanitize] leaves of
    them. *)
Definition sample_paragraph : dom :=
  Elem "p" [("style", "color:red"); ("class", "c")]
       (TextNode "hi" (Elem "script" [] (TextNode "x" NoNode) NoNode))
       (Elem "b" [("onclick", "y")] NoNode NoNode).

Definition sample_paragraph_left : dom :=
  Elem "p" [("class", "c")] (TextNode "hi" NoNode) NoNode.

(** A template whose contents are a [script] element. *)
Definition sample_template : dom :=
  Elem "template" []
       (Contents (Elem "script" [] (TextNode "x" NoNode) NoNode) NoNode)
       NoNode.

(** Markup and the node list the parser builds for it. *)
Definition sample_markup : list (string * dom) :=
  [ ("<p style=color:red class=c>hi<script>x</script></p><b onclick=y></b>",
     sample_paragraph);
    (sample_innerHTML sample_paragraph_left, sample_paragraph_left);
    ("<template><script>x</script></template>", sample_template);
    ("<b>x", Elem "b" [] (TextNode "x" NoNode) NoNode);
    ("<b onclick=x></b><i></i>",
     Elem "b" [("onclick", "x")] NoNode (Elem "i" [] NoNode NoNode)) ].

(** No markup: neither a tag nor a character reference can begin. *)
Fixpoint plain_text (s : string) : bool :=
  match s with
  | EmptyString => true
  | String c r =>
      negb (Ascii.eqb c "<"%char) && negb (Ascii.eqb c "&"%char) && plain_text r
  end.

(** The parser on the markup of the examples and on plain text; other
    markup is not used. *)
Definition sample_parse (html : string) : dom :=
  match find (fun e => String.eqb (fst e) html) sample_markup with
  | Some e => snd e
  | None =>
      if plain_text html && negb (String.eqb html EmptyString)
      then TextNode html NoNode
      else NoNode
  end.

End Captions.

(** ** Media: the facade over the playback backends *)

Module Media.

Local Open Scope string_scope.

(** JavaScript numbers that are finite. *)
Definition number : Type := Q.

(** A media file: [{ src, type }]. *)
Record Source : Type := mkSource {
  src : string;
  type : string
}.

(** [label: string | number] *)
Inductive label_value : Type :=
| LabelString (s : string)
| LabelNumber (n : number).

(** The interface [Level]. *)
Record Level : Type := mkLevel {
  height : number;
  id : number;
  label : label_value
}.

(** [duration] may be [Infinity]. *)
Inductive duration_value : Type :=
| Seconds (q : number)
| Infinity.

(** The classes a backend is an instance of. *)
Inductive BackendKind : Type :=
| Html5
| Hls
| Dash
| Flv
| Custom (type : string).

(** Methods of a backend that the facade calls for their effect. *)
Inductive BackendCall : Type :=
| CallDestroy
| CallLoad
| CallPlay
| CallPause.

(** The object held in [#media].  The classes themselves are not part of
    the sources at hand: a backend is taken as an object with the
    properties the facade reads and writes; [play] and [pause] switch
    [paused], every call is recorded in [b_calls] (latest first). *)
Record Backend : Type := mkBackend {
  kind : BackendKind;
  b_media : Source;
  b_src : option Source;
  b_volume : number;
  b_muted : bool;
  b_playbackRate : number;
  b_defaultPlaybackRate : number;
  b_currentTime : number;
  b_duration : duration_value;
  b_paused : bool;
  b_ended : bool;
  b_level : number;
  b_levels : list Level;
  b_calls : list BackendCall
}.

(** The [<video>] or [<audio>] element, as far as the facade and the Ads
    component use it.  [e_sources] are the [<source>] children ([src] and
    [type] attribute), [e_seekable] the ends of the seekable ranges. *)
Record Element : Type := mkElement {
  e_src : string;
  e_type : option string;
  e_sources : list (string * option string);
  e_data_op_file : option string;
  e_volume : number;
  e_muted : bool;
  e_playbackRate : number;
  e_defaultPlaybackRate : number;
  e_currentTime : number;
  e_duration : duration_value;
  e_seekable : list number;
  e_paused : bool;
  e_ended : bool
}.

(** The parts of the player options that [_invoke] reads. *)
Record Options : Type := mkOptions {
  forceNative : bool;
  layers : list (string * list string)
}.

(** [customMedia]: the types that have a factory in [media], and the
    rules, each giving a type for a source or nothing. *)
Record CustomMedia : Type := mkCustomMedia {
  custom_types : list string;
  rules : list (string -> option string)
}.

(** The private fields of a [Media] object. *)
Record State : Type := mkState {
  element : Element;
  media : option Backend;
  files : list Source;
  promisePlay : bool;
  options : Options;
  autoplay : bool;
  mediaLoaded : bool;
  customMedia : CustomMedia;
  currentSrc : option Source
}.

Definition set_element (f : Element -> Element) (st : State) : State :=
  mkState (f (element st)) (media st) (files st) (promisePlay st) (options st)
          (autoplay st) (mediaLoaded st) (customMedia st) (currentSrc st).

Definition set_media (b : option Backend) (st : State) : State :=
  mkState (element st) b (files st) (promisePlay st) (options st)
          (autoplay st) (mediaLoaded st) (customMedia st) (currentSrc st).

Definition set_files (fs : list Source) (st : State) : State :=
  mkState (element st) (media st) fs (promisePlay st) (options st)
          (autoplay st) (mediaLoaded st) (customMedia st) (currentSrc st).

Definition set_promisePlay (p : bool) (st : State) : State :=
  mkState (element st) (media st) (files st) p (options st)
          (autoplay st) (mediaLoaded st) (customMedia st) (currentSrc st).

Definition set_mediaLoaded (l : bool) (st : State) : State :=
  mkState (element st) (media st) (files st) (promisePlay st) (options st)
          (autoplay st) l (customMedia st) (currentSrc st).

Definition set_currentSrc (c : option Source) (st : State) : State :=
  mkState (element st) (media st) (files st) (promisePlay st) (options st)
          (autoplay st) (mediaLoaded st) (customMedia st) c.

(** A change of the backend, when there is one: [if (#media) { ... }]. *)
Definition on_backend (f : Backend -> Backend) (st : State) : State :=
  match media st with
  | Some b => set_media (Some (f b)) st
  | None => st
  end.

Definition b_call (c : BackendCall) (b : Backend) : Backend :=
  mkBackend (kind b) (b_media b) (b_src b) (b_volume b) (b_muted b)
            (b_playbackRate b) (b_defaultPlaybackRate b) (b_currentTime b)
            (b_duration b)
            (match c with
             | CallPlay => false
             | CallPause => true
             | _ => b_paused b
             end)
            (b_ended b) (b_level b) (b_levels b) (c :: b_calls b).

Definition b_set_currentTime (v : number) (b : Backend) : Backend :=
  mkBackend (kind b) (b_media b) (b_src b) (b_volume b) (b_muted b)
            (b_playbackRate b) (b_defaultPlaybackRate b) v
            (b_duration b) (b_paused b) (b_ended b) (b_level b) (b_levels b)
            (b_calls b).

Definition b_set_volume (v : number) (b : Backend) : Backend :=
  mkBackend (kind b) (b_media b) (b_src b) v (b_muted b)
            (b_playbackRate b) (b_defaultPlaybackRate b) (b_currentTime b)
            (b_duration b) (b_paused b) (b_ended b) (b_level b) (b_levels b)
            (b_calls b).

Definition b_set_muted (v : bool) (b : Backend) : Backend :=
  mkBackend (kind b) (b_media b) (b_src b) (b_volume b) v
            (b_playbackRate b) (b_defaultPlaybackRate b) (b_currentTime b)
            (b_duration b) (b_paused b) (b_ended b) (b_level b) (b_levels b)
            (b_calls b).

Definition b_set_playbackRate (v : number) (b : Backend) : Backend :=
  mkBackend (kind b) (b_media b) (b_src b) (b_volume b) (b_muted b)
            v (b_defaultPlaybackRate b) (b_currentTime b)
            (b_duration b) (b_paused b) (b_ended b) (b_level b) (b_levels b)
            (b_calls b).

Definition b_set_defaultPlaybackRate (v : number) (b : Backend) : Backend :=
  mkBackend (kind b) (b_media b) (b_src b) (b_volume b) (b_muted b)
            (b_playbackRate b) v (b_currentTime b)
            (b_duration b) (b_paused b) (b_ended b) (b_level b) (b_levels b)
            (b_calls b).

Definition b_set_level (v : number) (b : Backend) : Backend :=
  mkBackend (kind b) (b_media b) (b_src b) (b_volume b) (b_muted b)
            (b_playbackRate b) (b_defaultPlaybackRate b) (b_currentTime b)
            (b_duration b) (b_paused b) (b_ended b) v (b_levels b)
            (b_calls b).

Definition b_set_src (v : Source) (b : Backend) : Backend :=
  mkBackend (kind b) (b_media b) (Some v) (b_volume b) (b_muted b)
            (b_playbackRate b) (b_defaultPlaybackRate b) (b_currentTime b)
            (b_duration b) (b_paused b) (b_ended b) (b_level b) (b_levels b)
            (b_calls b).

Definition e_set_src (v : string) (e : Element) : Element :=
  mkElement v (e_type e) (e_sources e) (e_data_op_file e) (e_volume e)
            (e_muted e) (e_playbackRate e) (e_defaultPlaybackRate e)
            (e_currentTime e) (e_duration e) (e_seekable e) (e_paused e)
            (e_ended e).

Definition e_set_data_op_file (v : string) (e : Element) : Element :=
  mkElement (e_src e) (e_type e) (e_sources e) (Some v) (e_volume e)
            (e_muted e) (e_playbackRate e) (e_defaultPlaybackRate e)
            (e_currentTime e) (e_duration e) (e_seekable e) (e_paused e)
            (e_ended e).

(** A string in a condition: the empty string counts as false. *)
Definition truthy (s : string) : bool := negb (String.eqb s EmptyString).

Definition undefined_error (what : string) : exn :=
  TypeError ("Cannot read properties of undefined (" ++ what ++ ")").

Section Facade.

(** Taken as they come: [predictType], [isHlsSource], [isDashSource] and
    [isFlvSource] of [utils/media], the constructors of the backend classes
    (and the factories of custom media), [canPlayType] of a backend, and
    whether the element says it plays HLS by itself. *)
Variable predictType : string -> string.
Variable isHlsSource : Source -> bool.
Variable isDashSource : Source -> bool.
Variable isFlvSource : Source -> bool.
Variable new_backend : BackendKind -> Element -> Source -> Backend.
Variable backend_canPlayType : Backend -> string -> bool.
Variable playHLSNatively : Element -> bool.

(** [attr || predictType(src)] *)
Definition type_of (attr : option string) (source : string) : string :=
  match attr with
  | Some t => if truthy t then t else predictType source
  | None => predictType source
  end.

(** [_getMediaFiles]: the list it returns, and the value it leaves in
    [#currentSrc]. *)
Definition _getMediaFiles (el : Element) (current : option Source)
  : list Source * option Source :=
  let nodeSource := e_src el in
  let first :=
    if truthy nodeSource
    then [mkSource nodeSource (type_of (e_type el) nodeSource)]
    else [] in
  let mediaFiles :=
    (first ++ map (fun item => mkSource (fst item) (type_of (snd item) (fst item)))
                  (e_sources el))%list in
  let current' :=
    match e_sources el with
    | [] => current
    | _ :: _ => hd_error mediaFiles
    end in
  match mediaFiles with
  | [] => ([mkSource "" (predictType "")], current')
  | _ :: _ => (mediaFiles, current')
  end.

(** [new Media(element, options, autoplay, customMedia)] *)
Definition constructor (el : Element) (opts : Options) (auto : bool)
           (custom : CustomMedia) : State :=
  let r := _getMediaFiles el None in
  mkState el None (fst r) false opts auto false custom (snd r).

(** [activeLevels]: some layer of the controls lists ['levels']. *)
Definition activeLevels (opts : Options) : bool :=
  existsb (fun layer => existsb (String.eqb "levels") (snd layer)) (layers opts).

(** The [forEach] over the rules of custom media: the last rule that gives
    a type decides; a type without a factory makes the call throw. *)
Fixpoint custom_ref (types : list string) (rs : list (string -> option string))
         (source : string) (found : option string) : completion (option string) :=
  match rs with
  | [] => Normal found
  | rule :: rest =>
      match rule source with
      | Some t =>
          if truthy t then
            if existsb (String.eqb t) types
            then custom_ref types rest source (Some t)
            else Throw (TypeError "customMedia is not a function")
          else custom_ref types rest source found
      | None => custom_ref types rest source found
      end
  end.

(** [_invoke]: the class of the backend to create for a file. *)
Definition _invoke (f : Source) : M State BackendKind :=
  bindM (update (set_currentSrc (Some f))) (fun _ =>
  bindM get (fun st =>
    match custom_types (customMedia st) with
    | _ :: _ =>
        match custom_ref (custom_types (customMedia st)) (rules (customMedia st))
                         (src f) None with
        | Normal (Some t) => ret (Custom t)
        | Normal None => ret Html5
        | Throw e => throw e
        | OutOfFuel => fun s => (s, OutOfFuel)
        end
    | [] =>
        if isHlsSource f then
          if playHLSNatively (element st) && forceNative (options st)
             && negb (activeLevels (options st))
          then ret Html5 else ret Hls
        else if isDashSource f then ret Dash
        else if isFlvSource f then ret Flv
        else ret Html5
    end)).

(** The body of [#files.some(media => ...)] in [load]. *)
Definition try_file (f : Source) : M State bool :=
  bindM (catch (bindM (_invoke f) (fun k =>
                  update (fun st => set_media (Some (new_backend k (element st) f)) st)))
               (fun _ =>
                  update (fun st => set_media (Some (new_backend Html5 (element st) f)) st)))
        (fun _ =>
  bindM get (fun st =>
    match media st with
    | Some b => ret (backend_canPlayType b (type f))
    | None => throw (undefined_error "reading 'canPlayType'")
    end)).

Fixpoint some_file (fs : list Source) : M State bool :=
  match fs with
  | [] => ret false
  | f :: rest =>
      bindM (try_file f) (fun ok => if ok then ret true else some_file rest)
  end.

(** [load]; the promise it returns is not represented, the call of
    [load] on the backend that it schedules is recorded at once. *)
Definition load : M State unit :=
  bindM get (fun st =>
    match files st with
    | [] => throw (TypeError "Media not set")
    | first :: others =>
        bindM (match media st with
               | Some b =>
                   let sameMedia :=
                     match others with
                     | [] => String.eqb (src first) (src (b_media b))
                     | _ :: _ => false
                     end in
                   when (negb sameMedia) (update (on_backend (b_call CallDestroy)))
               | None => ret tt
               end) (fun _ =>
        bindM (some_file (files st)) (fun _ =>
        bindM get (fun st' =>
          match media st' with
          | Some _ => update (on_backend (b_call CallLoad))
          | None => throw (undefined_error "reading 'promise'")
          end)))
    end).

(** [play] *)
Definition play : M State unit :=
  bindM get (fun st =>
    if negb (mediaLoaded st) then
      bindM (update (set_mediaLoaded true)) (fun _ =>
      bindM load (fun _ =>
      bindM (update (set_mediaLoaded true)) (fun _ =>
      update (on_backend (b_call CallPlay)))))
    else
      match media st with
      | Some _ =>
          bindM (update (on_backend (b_call CallPlay))) (fun _ =>
          update (set_promisePlay true))
      | None => throw (undefined_error "reading 'promise'")
      end).

(** [pause] *)
Definition pause : M State unit :=
  bindM get (fun st =>
    match media st with
    | Some _ => update (on_backend (b_call CallPause))
    | None =>
        if promisePlay st then ret tt
        else throw (undefined_error "reading 'pause'")
    end).

(** [destroy] *)
Definition destroy : M State unit :=
  bindM get (fun st =>
    match media st with
    | Some _ => update (on_backend (b_call CallDestroy))
    | None => throw (undefined_error "reading 'destroy'")
    end).

(** The value given to the setter [src]. *)
Inductive src_value : Type :=
| SrcString (s : string)
| SrcArray (fs : list Source)
| SrcObject (f : Source).

(** [canPlayType] of the facade *)
Definition canPlayType (mimeType : string) : M State bool :=
  bindM get (fun st =>
    match media st with
    | Some b => ret (backend_canPlayType b mimeType)
    | None => throw (undefined_error "reading 'canPlayType'")
    end).

Fixpoint some_canPlay (fs : list Source) : M State bool :=
  match fs with
  | [] => ret false
  | f :: rest =>
      bindM (canPlayType (type f)) (fun ok =>
        if ok then ret true else some_canPlay rest)
  end.

(** [set src(media)] *)
Definition set_src (value : src_value) : M State unit :=
  bindM (update (fun st =>
           match value with
           | SrcString s => set_files (files st ++ [mkSource s (predictType s)])%list st
           | SrcArray fs => set_files fs st
           | SrcObject f => set_files (files st ++ [f])%list st
           end)) (fun _ =>
  bindM get (fun st =>
  bindM (some_canPlay (files st)) (fun _ =>
    match files st with
    | [] => throw (undefined_error "reading 'src'")
    | first :: _ =>
        bindM (when (truthy (e_src (element st)))
                    (update (set_element (e_set_data_op_file (src first))))) (fun _ =>
        bindM (update (set_element (e_set_src (src first)))) (fun _ =>
        bindM get (fun st' =>
          match media st' with
          | Some _ =>
              bindM (update (on_backend (b_set_src first))) (fun _ =>
              update (set_currentSrc (Some first)))
          | None => throw (TypeError "Cannot set properties of undefined (setting 'src')")
          end)))
    end))).

(** [get src()] and [get mediaFiles()] *)
Definition get_src (st : State) : list Source := files st.
Definition get_mediaFiles (st : State) : list Source := files st.

(** [set mediaFiles(sources)] *)
Definition set_mediaFiles (sources : list Source) (st : State) : State :=
  set_files sources st.

(** [get current()] *)
Definition get_current (st : State) : option Source := currentSrc st.

(** The guarded setters and the getters that fall back on the element. *)
Definition set_volume (v : number) : State -> State := on_backend (b_set_volume v).
Definition get_volume (st : State) : number :=
  match media st with Some b => b_volume b | None => e_volume (element st) end.

Definition set_muted (v : bool) : State -> State := on_backend (b_set_muted v).
Definition get_muted (st : State) : bool :=
  match media st with Some b => b_muted b | None => e_muted (element st) end.

Definition set_playbackRate (v : number) : State -> State :=
  on_backend (b_set_playbackRate v).
Definition get_playbackRate (st : State) : number :=
  match media st with
  | Some b => b_playbackRate b
  | None => e_playbackRate (element st)
  end.

Definition set_defaultPlaybackRate (v : number) : State -> State :=
  on_backend (b_set_defaultPlaybackRate v).
Definition get_defaultPlaybackRate (st : State) : number :=
  match media st with
  | Some b => b_defaultPlaybackRate b
  | None => e_defaultPlaybackRate (element st)
  end.

Definition set_currentTime (v : number) : State -> State :=
  on_backend (b_set_currentTime v).
Definition get_currentTime (st : State) : number :=
  match media st with
  | Some b => b_currentTime b
  | None => e_currentTime (element st)
  end.

Definition get_duration (st : State) : duration_value :=
  let duration :=
    match media st with
    | Some b => b_duration b
    | None => e_duration (element st)
    end in
  match duration, e_seekable (element st) with
  | Infinity, end0 :: _ => Seconds end0
  | _, _ => duration
  end.

Definition get_paused (st : State) : bool :=
  match media st with Some b => b_paused b | None => e_paused (element st) end.

Definition get_ended (st : State) : bool :=
  match media st with Some b => b_ended b | None => e_ended (element st) end.

Definition set_loaded (l : bool) : State -> State := set_mediaLoaded l.
Definition get_loaded (st : State) : bool := mediaLoaded st.

(** [set level(value)], [get level()], [get levels()] *)
Definition set_level (v : number) : State -> State := on_backend (b_set_level v).

Definition get_level (st : State) : number :=
  match media st with
  | Some b => b_level b
  | None => (-1 # 1)%Q
  end.

Definition get_levels (st : State) : list Level :=
  match media st with
  | Some b => b_levels b
  | None => []
  end.

(** [get instance()]: whether there is one to hand out. *)
Definition get_instance (st : State) : option BackendKind :=
  option_map kind (media st).

(** Everything a holder of a [Media] object can do with it.  The getters
    [src] and [mediaFiles] hand out the list [#files] itself, not a copy:
    [OpChangeFiles f] stands for a holder of it changing it in place. *)
Inductive operation : Type :=
| OpCanPlayType (mimeType : string)
| OpLoad
| OpPlay
| OpPause
| OpDestroy
| OpSetSrc (value : src_value)
| OpSetMediaFiles (sources : list Source)
| OpChangeFiles (f : list Source -> list Source)
| OpSetVolume (v : number)
| OpSetMuted (v : bool)
| OpSetPlaybackRate (v : number)
| OpSetDefaultPlaybackRate (v : number)
| OpSetCurrentTime (v : number)
| OpSetLoaded (l : bool)
| OpSetLevel (v : number).

Definition lift (f : State -> State) : M State unit := update f.

Definition ignore {A : Type} (m : M State A) : M State unit :=
  bindM m (fun _ => ret tt).

Definition run (op : operation) : M State unit :=
  match op with
  | OpCanPlayType t => ignore (canPlayType t)
  | OpLoad => load
  | OpPlay => play
  | OpPause => pause
  | OpDestroy => destroy
  | OpSetSrc v => set_src v
  | OpSetMediaFiles fs => lift (set_mediaFiles fs)
  | OpChangeFiles f => lift (fun st => set_files (f (files st)) st)
  | OpSetVolume v => lift (set_volume v)
  | OpSetMuted v => lift (set_muted v)
  | OpSetPlaybackRate v => lift (set_playbackRate v)
  | OpSetDefaultPlaybackRate v => lift (set_defaultPlaybackRate v)
  | OpSetCurrentTime v => lift (set_currentTime v)
  | OpSetLoaded l => lift (set_loaded l)
  | OpSetLevel v => lift (set_level v)
  end.

(** The state after a sequence of operations, a throw of one of them
    caught by the caller. *)
Fixpoint run_all (ops : list operation) (st : State) : State :=
  match ops with
  | [] => st
  | op :: rest => run_all rest (fst (run op st))
  end.

Definition is_nil {A : Type} (l : list A) : bool :=
  match l with
  | [] => true
  | _ :: _ => false
  end.

(** The operation, run in this state, leaves the facade with an empty
    list of files handed to it: an empty array given to the setter
    [mediaFiles] or to the setter [src], or the list emptied in place. *)
Definition hands_empty_files (op : operation) (st : State) : bool :=
  match op with
  | OpSetMediaFiles fs => is_nil fs
  | OpSetSrc (SrcArray fs) => is_nil fs
  | OpChangeFiles f => is_nil (f (files st))
  | _ => false
  end.

(** Some operation of the sequence, run from this state, does so. *)
Fixpoint files_emptied (ops : list operation) (st : State) : bool :=
  match ops with
  | [] => false
  | op :: rest =>
      hands_empty_files op st || files_emptied rest (fst (run op st))
  end.


(** The setter [mediaFiles] is given an empty array. *)
Definition sets_mediaFiles_empty (op : operation) : bool :=
  match op with
  | OpSetMediaFiles fs => is_nil fs
  | _ => false
  end.

(** The list of files the setter [src] leaves. *)
Definition files_after_set_src (value : src_value) (st : State) : list Source :=
  match value with
  | SrcString s => (files st ++ [mkSource s (predictType s)])%list
  | SrcArray fs => fs
  | SrcObject f => (files st ++ [f])%list
  end.

End Facade.

(** A computation that leaves [#files] as it finds it. *)
Definition keeps_files {A : Type} (m : M State A) : Prop :=
  forall st, files (fst (m st)) = files st.

(** *** A player to run the facade on *)

(** An element with one [<source>] child, ten seconds of it seekable. *)
Definition sample_element : Element :=
  mkElement "" None [("movie.mp4", Some "video/mp4")] None 1%Q false 1%Q 1%Q
            0%Q (Seconds 10%Q) [10%Q] true false.

Definition sample_backend (k : BackendKind) (el : Element) (f : Source) : Backend :=
  mkBackend k f None 1%Q false 1%Q 1%Q 0%Q (Seconds 10%Q) true false 0%Q [] [].

Definition sample_media : State :=
  Media.constructor (fun _ => "video/mp4") sample_element
                    (mkOptions false []) false (mkCustomMedia [] []).


(** The same once [play] has been called: the content plays. *)
Definition playing_media : State :=
  fst (Media.play (fun _ => false) (fun _ => false) (fun _ => false)
         sample_backend (fun _ _ => true) (fun _ => false) sample_media).

End Media.

(** ** Ads: the handlers between the ad SDK, the element and the facade *)

Module Ads.
Import Media.

Local Open Scope string_scope.
Local Open Scope Z_scope.
Local Open Scope js_scope.

(** [string | string[]]: one ad tag or an array of ad tags. *)
Inductive AdsSource : Type :=
| SingleAd (tag : string)
| AdList (tags : list string).

(** [google.ima.AdEvent.Type] *)
Inductive AdEventType : Type :=
| ALL_ADS_COMPLETED | CLICK | VIDEO_CLICKED | VIDEO_ICON_CLICKED
| AD_PROGRESS | AD_BUFFERING | IMPRESSION | DURATION_CHANGE | USER_CLOSE
| LINEAR_CHANGED | SKIPPABLE_STATE_CHANGED | AD_METADATA | INTERACTION
| COMPLETE | FIRST_QUARTILE | LOADED | MIDPOINT | PAUSED | RESUMED
| STARTED | THIRD_QUARTILE | SKIPPED | VOLUME_CHANGED | VOLUME_MUTED
| LOG | AD_BREAK_READY.

(** The ad of an event: [isLinear()] and [getDuration()]. *)
Record Ad : Type := mkAd {
  isLinear : bool;
  getDuration : number
}.

(** An event handed to [_assign]: its type, [getAd()] ([None] for
    [null]) and, for [LOG], the message of [getAdData().adError]. *)
Record AdEvent : Type := mkAdEvent {
  ev_type : AdEventType;
  getAd : option Ad;
  adError : option string
}.

(** The error of an event handed to [_error]. *)
Record AdError : Type := mkAdError {
  getErrorCode : Z;
  errorText : string
}.

(** The ads manager of the SDK, as far as the handlers read it. *)
Record Manager : Type := mkManager {
  getVolume : number;
  getRemainingTime : number;
  isCustomClickTrackingUsed : bool
}.

(** The request handed to [adsLoader.requestAds]: the ad tag (given as
    [adsResponse] when it is XML, as [adTagUrl] otherwise) and what is
    said of autoplay; the sizes of the slots are not kept. *)
Record Request : Type := mkRequest {
  r_ads : option string;
  r_isXml : bool;
  r_willAutoPlay : bool;
  r_willPlayMuted : bool
}.

(** The ads options that the handlers read. *)
Record Options : Type := mkOptions {
  autoPlayAdBreaks : bool;
  customClick_enabled : bool;
  enablePreloading : bool;
  loop : bool
}.

(** [element.parentElement]: the class [op-ads--active] and the attribute
    [data-fullscreen]. *)
Record Parent : Type := mkParent {
  ads_active_class : bool;
  data_fullscreen : bool
}.

(** The listeners the component adds to the element, in the order they
    were added.  None of them is ever taken off again: every
    [removeEventListener] of the component is handed a function made anew
    by [bind] or by an arrow function. *)
Inductive Listener : Type :=
| OnMetadataResize
| OnMetadataContentLoaded
| OnMetadataHandler
| OnEnded.

(** What was set to run later: the timer of 50 ms of [_resumeMedia] that
    plays the content, the rejected promise of [_resumeMedia] (the content
    has ended), and the timer of 100 ms of [_loadedMetadataHandler]. *)
Inductive Task : Type :=
| TimerResume
| MicrotaskEnded
| TimerRetryMetadata.

(** What the component does to the outside: events dispatched on the
    element, calls of the SDK, messages on the console. *)
Inductive Effect : Type :=
| Dispatch (name : string)
| DispatchAds (type : AdEventType)
| PlayerError (message : string)
| Sdk (call : string)
| Warn (message : string)
| ConsoleError (message : string).

(** The private fields of an [Ads] object, then what it works on: the
    parent of the element, [element.controls], the listeners on the
    element, the tasks set to run later, and the effects so far. *)
Record State : Type := mkState {
  adsEnded : bool;
  adsDone : bool;
  adsActive : bool;
  adsStarted : bool;
  intervalTimer : Z;
  adsVolume : number;
  adsMuted : bool;
  adsDuration : number;
  adsCurrentTime : number;
  adsManager : option Manager;
  media : Media.State;
  events : list AdEventType;
  ads : AdsSource;
  adsLoader : bool;
  adsContainer : bool;
  adsCustomClickContainer : bool;
  adDisplayContainer : bool;
  adsRequest : option Request;
  autoStart : bool;
  autoStartMuted : bool;
  playTriggered : bool;
  adsOptions : Options;
  currentAdsIndex : Z;
  originalVolume : number;
  preloadContent : bool;
  lastTimePaused : number;
  mediaSources : list Source;
  mediaStarted : bool;
  parent : option Parent;
  controls : bool;
  listeners : list Listener;
  pending : list Task;
  nextTimer : Z;
  trace : list Effect
}.

Definition set_adsEnded (v : bool) (st : State) : State :=
  mkState v (adsDone st) (adsActive st) (adsStarted st) (intervalTimer st)
         (adsVolume st) (adsMuted st) (adsDuration st) (adsCurrentTime st)
         (adsManager st) (media st) (events st) (ads st) (adsLoader st)
         (adsContainer st) (adsCustomClickContainer st)
         (adDisplayContainer st) (adsRequest st) (autoStart st)
         (autoStartMuted st) (playTriggered st) (adsOptions st)
         (currentAdsIndex st) (originalVolume st) (preloadContent st)
         (lastTimePaused st) (mediaSources st) (mediaStarted st) (parent st)
         (controls st) (listeners st) (pending st) (nextTimer st) (trace st).

Definition set_adsDone (v : bool) (st : State) : State :=
  mkState (adsEnded st) v (adsActive st) (adsStarted st) (intervalTimer st)
         (adsVolume st) (adsMuted st) (adsDuration st) (adsCurrentTime st)
         (adsManager st) (media st) (events st) (ads st) (adsLoader st)
         (adsContainer st) (adsCustomClickContainer st)
         (adDisplayContainer st) (adsRequest st) (autoStart st)
         (autoStartMuted st) (playTriggered st) (adsOptions st)
         (currentAdsIndex st) (originalVolume st) (preloadContent st)
         (lastTimePaused st) (mediaSources st) (mediaStarted st) (parent st)
         (controls st) (listeners st) (pending st) (nextTimer st) (trace st).

Definition set_adsActive (v : bool) (st : State) : State :=
  mkState (adsEnded st) (adsDone st) v (adsStarted st) (intervalTimer st)
         (adsVolume st) (adsMuted st) (adsDuration st) (adsCurrentTime st)
         (adsManager st) (media st) (events st) (ads st) (adsLoader st)
         (adsContainer st) (adsCustomClickContainer st)
         (adDisplayContainer st) (adsRequest st) (autoStart st)
         (autoStartMuted st) (playTriggered st) (adsOptions st)
         (currentAdsIndex st) (originalVolume st) (preloadContent st)
         (lastTimePaused st) (mediaSources st) (mediaStarted st) (parent st)
         (controls st) (listeners st) (pending st) (nextTimer st) (trace st).

Definition set_adsStarted (v : bool) (st : State) : State :=
  mkState (adsEnded st) (adsDone st) (adsActive st) v (intervalTimer st)
         (adsVolume st) (adsMuted st) (adsDuration st) (adsCurrentTime st)
         (adsManager st) (media st) (events st) (ads st) (adsLoader st)
         (adsContainer st) (adsCustomClickContainer st)
         (adDisplayContainer st) (adsRequest st) (autoStart st)
         (autoStartMuted st) (playTriggered st) (adsOptions st)
         (currentAdsIndex st) (originalVolume st) (preloadContent st)
         (lastTimePaused st) (mediaSources st) (mediaStarted st) (parent st)
         (controls st) (listeners st) (pending st) (nextTimer st) (trace st).

Definition set_intervalTimer (v : Z) (st : State) : State :=
  mkState (adsEnded st) (adsDone st) (adsActive st) (adsStarted st) v
         (adsVolume st) (adsMuted st) (adsDuration st) (adsCurrentTime st)
         (adsManager st) (media st) (events st) (ads st) (adsLoader st)
         (adsContainer st) (adsCustomClickContainer st)
         (adDisplayContainer st) (adsRequest st) (autoStart st)
         (autoStartMuted st) (playTriggered st) (adsOptions st)
         (currentAdsIndex st) (originalVolume st) (preloadContent st)
         (lastTimePaused st) (mediaSources st) (mediaStarted st) (parent st)
         (controls st) (listeners st) (pending st) (nextTimer st) (trace st).

Definition set_adsVolume (v : number) (st : State) : State :=
  mkState (adsEnded st) (adsDone st) (adsActive st) (adsStarted st)
         (intervalTimer st) v (adsMuted st) (adsDuration st)
         (adsCurrentTime st) (adsManager st) (media st) (events st) (ads st)
         (adsLoader st) (adsContainer st) (adsCustomClickContainer st)
         (adDisplayContainer st) (adsRequest st) (autoStart st)
         (autoStartMuted st) (playTriggered st) (adsOptions st)
         (currentAdsIndex st) (originalVolume st) (preloadContent st)
         (lastTimePaused st) (mediaSources st) (mediaStarted st) (parent st)
         (controls st) (listeners st) (pending st) (nextTimer st) (trace st).

Definition set_adsMuted (v : bool) (st : State) : State :=
  mkState (adsEnded st) (adsDone st) (adsActive st) (adsStarted st)
         (intervalTimer st) (adsVolume st) v (adsDuration st)
         (adsCurrentTime st) (adsManager st) (media st) (events st) (ads st)
         (adsLoader st) (adsContainer st) (adsCustomClickContainer st)
         (adDisplayContainer st) (adsRequest st) (autoStart st)
         (autoStartMuted st) (playTriggered st) (adsOptions st)
         (currentAdsIndex st) (originalVolume st) (preloadContent st)
         (lastTimePaused st) (mediaSources st) (mediaStarted st) (parent st)
         (controls st) (listeners st) (pending st) (nextTimer st) (trace st).

Definition set_adsDuration (v : number) (st : State) : State :=
  mkState (adsEnded st) (adsDone st) (adsActive st) (adsStarted st)
         (intervalTimer st) (adsVolume st) (adsMuted st) v
         (adsCurrentTime st) (adsManager st) (media st) (events st) (ads st)
         (adsLoader st) (adsContainer st) (adsCustomClickContainer st)
         (adDisplayContainer st) (adsRequest st) (autoStart st)
         (autoStartMuted st) (playTriggered st) (adsOptions st)
         (currentAdsIndex st) (originalVolume st) (preloadContent st)
         (lastTimePaused st) (mediaSources st) (mediaStarted st) (parent st)
         (controls st) (listeners st) (pending st) (nextTimer st) (trace st).

Definition set_adsCurrentTime (v : number) (st : State) : State :=
  mkState (adsEnded st) (adsDone st) (adsActive st) (adsStarted st)
         (intervalTimer st) (adsVolume st) (adsMuted st) (adsDuration st) v
         (adsManager st) (media st) (events st) (ads st) (adsLoader st)
         (adsContainer st) (adsCustomClickContainer st)
         (adDisplayContainer st) (adsRequest st) (autoStart st)
         (autoStartMuted st) (playTriggered st) (adsOptions st)
         (currentAdsIndex st) (originalVolume st) (preloadContent st)
         (lastTimePaused st) (mediaSources st) (mediaStarted st) (parent st)
         (controls st) (listeners st) (pending st) (nextTimer st) (trace st).

Definition set_adsManager (v : option Manager) (st : State) : State :=
  mkState (adsEnded st) (adsDone st) (adsActive st) (adsStarted st)
         (intervalTimer st) (adsVolume st) (adsMuted st) (adsDuration st)
         (adsCurrentTime st) v (media st) (events st) (ads st)
         (adsLoader st) (adsContainer st) (adsCustomClickContainer st)
         (adDisplayContainer st) (adsRequest st) (autoStart st)
         (autoStartMuted st) (playTriggered st) (adsOptions st)
         (currentAdsIndex st) (originalVolume st) (preloadContent st)
         (lastTimePaused st) (mediaSources st) (mediaStarted st) (parent st)
         (controls st) (listeners st) (pending st) (nextTimer st) (trace st).

Definition set_media (v : Media.State) (st : State) : State :=
  mkState (adsEnded st) (adsDone st) (adsActive st) (adsStarted st)
         (intervalTimer st) (adsVolume st) (adsMuted st) (adsDuration st)
         (adsCurrentTime st) (adsManager st) v (events st) (ads st)
         (adsLoader st) (adsContainer st) (adsCustomClickContainer st)
         (adDisplayContainer st) (adsRequest st) (autoStart st)
         (autoStartMuted st) (playTriggered st) (adsOptions st)
         (currentAdsIndex st) (originalVolume st) (preloadContent st)
         (lastTimePaused st) (mediaSources st) (mediaStarted st) (parent st)
         (controls st) (listeners st) (pending st) (nextTimer st) (trace st).

Definition set_events (v : list AdEventType) (st : State) : State :=
  mkState (adsEnded st) (adsDone st) (adsActive st) (adsStarted st)
         (intervalTimer st) (adsVolume st) (adsMuted st) (adsDuration st)
         (adsCurrentTime st) (adsManager st) (media st) v (ads st)
         (adsLoader st) (adsContainer st) (adsCustomClickContainer st)
         (adDisplayContainer st) (adsRequest st) (autoStart st)
         (autoStartMuted st) (playTriggered st) (adsOptions st)
         (currentAdsIndex st) (originalVolume st) (preloadContent st)
         (lastTimePaused st) (mediaSources st) (mediaStarted st) (parent st)
         (controls st) (listeners st) (pending st) (nextTimer st) (trace st).

Definition set_ads (v : AdsSource) (st : State) : State :=
  mkState (adsEnded st) (adsDone st) (adsActive st) (adsStarted st)
         (intervalTimer st) (adsVolume st) (adsMuted st) (adsDuration st)
         (adsCurrentTime st) (adsManager st) (media st) (events st) v
         (adsLoader st) (adsContainer st) (adsCustomClickContainer st)
         (adDisplayContainer st) (adsRequest st) (autoStart st)
         (autoStartMuted st) (playTriggered st) (adsOptions st)
         (currentAdsIndex st) (originalVolume st) (preloadContent st)
         (lastTimePaused st) (mediaSources st) (mediaStarted st) (parent st)
         (controls st) (listeners st) (pending st) (nextTimer st) (trace st).

Definition set_adsLoader (v : bool) (st : State) : State :=
  mkState (adsEnded st) (adsDone st) (adsActive st) (adsStarted st)
         (intervalTimer st) (adsVolume st) (adsMuted st) (adsDuration st)
         (adsCurrentTime st) (adsManager st) (media st) (events st) (ads st)
         v (adsContainer st) (adsCustomClickContainer st)
         (adDisplayContainer st) (adsRequest st) (autoStart st)
         (autoStartMuted st) (playTriggered st) (adsOptions st)
         (currentAdsIndex st) (originalVolume st) (preloadContent st)
         (lastTimePaused st) (mediaSources st) (mediaStarted st) (parent st)
         (controls st) (listeners st) (pending st) (nextTimer st) (trace st).

Definition set_adsContainer (v : bool) (st : State) : State :=
  mkState (adsEnded st) (adsDone st) (adsActive st) (adsStarted st)
         (intervalTimer st) (adsVolume st) (adsMuted st) (adsDuration st)
         (adsCurrentTime st) (adsManager st) (media st) (events st) (ads st)
         (adsLoader st) v (adsCustomClickContainer st)
         (adDisplayContainer st) (adsRequest st) (autoStart st)
         (autoStartMuted st) (playTriggered st) (adsOptions st)
         (currentAdsIndex st) (originalVolume st) (preloadContent st)
         (lastTimePaused st) (mediaSources st) (mediaStarted st) (parent st)
         (controls st) (listeners st) (pending st) (nextTimer st) (trace st).

Definition set_adsCustomClickContainer (v : bool) (st : State) : State :=
  mkState (adsEnded st) (adsDone st) (adsActive st) (adsStarted st)
         (intervalTimer st) (adsVolume st) (adsMuted st) (adsDuration st)
         (adsCurrentTime st) (adsManager st) (media st) (events st) (ads st)
         (adsLoader st) (adsContainer st) v (adDisplayContainer st)
         (adsRequest st) (autoStart st) (autoStartMuted st)
         (playTriggered st) (adsOptions st) (currentAdsIndex st)
         (originalVolume st) (preloadContent st) (lastTimePaused st)
         (mediaSources st) (mediaStarted st) (parent st) (controls st)
         (listeners st) (pending st) (nextTimer st) (trace st).

Definition set_adDisplayContainer (v : bool) (st : State) : State :=
  mkState (adsEnded st) (adsDone st) (adsActive st) (adsStarted st)
         (intervalTimer st) (adsVolume st) (adsMuted st) (adsDuration st)
         (adsCurrentTime st) (adsManager st) (media st) (events st) (ads st)
         (adsLoader st) (adsContainer st) (adsCustomClickContainer st) v
         (adsRequest st) (autoStart st) (autoStartMuted st)
         (playTriggered st) (adsOptions st) (currentAdsIndex st)
         (originalVolume st) (preloadContent st) (lastTimePaused st)
         (mediaSources st) (mediaStarted st) (parent st) (controls st)
         (listeners st) (pending st) (nextTimer st) (trace st).

Definition set_adsRequest (v : option Request) (st : State) : State :=
  mkState (adsEnded st) (adsDone st) (adsActive st) (adsStarted st)
         (intervalTimer st) (adsVolume st) (adsMuted st) (adsDuration st)
         (adsCurrentTime st) (adsManager st) (media st) (events st) (ads st)
         (adsLoader st) (adsContainer st) (adsCustomClickContainer st)
         (adDisplayContainer st) v (autoStart st) (autoStartMuted st)
         (playTriggered st) (adsOptions st) (currentAdsIndex st)
         (originalVolume st) (preloadContent st) (lastTimePaused st)
         (mediaSources st) (mediaStarted st) (parent st) (controls st)
         (listeners st) (pending st) (nextTimer st) (trace st).

Definition set_autoStart (v : bool) (st : State) : State :=
  mkState (adsEnded st) (adsDone st) (adsActive st) (adsStarted st)
         (intervalTimer st) (adsVolume st) (adsMuted st) (adsDuration st)
         (adsCurrentTime st) (adsManager st) (media st) (events st) (ads st)
         (adsLoader st) (adsContainer st) (adsCustomClickContainer st)
         (adDisplayContainer st) (adsRequest st) v (autoStartMuted st)
         (playTriggered st) (adsOptions st) (currentAdsIndex st)
         (originalVolume st) (preloadContent st) (lastTimePaused st)
         (mediaSources st) (mediaStarted st) (parent st) (controls st)
         (listeners st) (pending st) (nextTimer st) (trace st).

Definition set_autoStartMuted (v : bool) (st : State) : State :=
  mkState (adsEnded st) (adsDone st) (adsActive st) (adsStarted st)
         (intervalTimer st) (adsVolume st) (adsMuted st) (adsDuration st)
         (adsCurrentTime st) (adsManager st) (media st) (events st) (ads st)
         (adsLoader st) (adsContainer st) (adsCustomClickContainer st)
         (adDisplayContainer st) (adsRequest st) (autoStart st) v
         (playTriggered st) (adsOptions st) (currentAdsIndex st)
         (originalVolume st) (preloadContent st) (lastTimePaused st)
         (mediaSources st) (mediaStarted st) (parent st) (controls st)
         (listeners st) (pending st) (nextTimer st) (trace st).

Definition set_playTriggered (v : bool) (st : State) : State :=
  mkState (adsEnded st) (adsDone st) (adsActive st) (adsStarted st)
         (intervalTimer st) (adsVolume st) (adsMuted st) (adsDuration st)
         (adsCurrentTime st) (adsManager st) (media st) (events st) (ads st)
         (adsLoader st) (adsContainer st) (adsCustomClickContainer st)
         (adDisplayContainer st) (adsRequest st) (autoStart st)
         (autoStartMuted st) v (adsOptions st) (currentAdsIndex st)
         (originalVolume st) (preloadContent st) (lastTimePaused st)
         (mediaSources st) (mediaStarted st) (parent st) (controls st)
         (listeners st) (pending st) (nextTimer st) (trace st).

Definition set_adsOptions (v : Options) (st : State) : State :=
  mkState (adsEnded st) (adsDone st) (adsActive st) (adsStarted st)
         (intervalTimer st) (adsVolume st) (adsMuted st) (adsDuration st)
         (adsCurrentTime st) (adsManager st) (media st) (events st) (ads st)
         (adsLoader st) (adsContainer st) (adsCustomClickContainer st)
         (adDisplayContainer st) (adsRequest st) (autoStart st)
         (autoStartMuted st) (playTriggered st) v (currentAdsIndex st)
         (originalVolume st) (preloadContent st) (lastTimePaused st)
         (mediaSources st) (mediaStarted st) (parent st) (controls st)
         (listeners st) (pending st) (nextTimer st) (trace st).

Definition set_currentAdsIndex (v : Z) (st : State) : State :=
  mkState (adsEnded st) (adsDone st) (adsActive st) (adsStarted st)
         (intervalTimer st) (adsVolume st) (adsMuted st) (adsDuration st)
         (adsCurrentTime st) (adsManager st) (media st) (events st) (ads st)
         (adsLoader st) (adsContainer st) (adsCustomClickContainer st)
         (adDisplayContainer st) (adsRequest st) (autoStart st)
         (autoStartMuted st) (playTriggered st) (adsOptions st) v
         (originalVolume st) (preloadContent st) (lastTimePaused st)
         (mediaSources st) (mediaStarted st) (parent st) (controls st)
         (listeners st) (pending st) (nextTimer st) (trace st).

Definition set_originalVolume (v : number) (st : State) : State :=
  mkState (adsEnded st) (adsDone st) (adsActive st) (adsStarted st)
         (intervalTimer st) (adsVolume st) (adsMuted st) (adsDuration st)
         (adsCurrentTime st) (adsManager st) (media st) (events st) (ads st)
         (adsLoader st) (adsContainer st) (adsCustomClickContainer st)
         (adDisplayContainer st) (adsRequest st) (autoStart st)
         (autoStartMuted st) (playTriggered st) (adsOptions st)
         (currentAdsIndex st) v (preloadContent st) (lastTimePaused st)
         (mediaSources st) (mediaStarted st) (parent st) (controls st)
         (listeners st) (pending st) (nextTimer st) (trace st).

Definition set_preloadContent (v : bool) (st : State) : State :=
  mkState (adsEnded st) (adsDone st) (adsActive st) (adsStarted st)
         (intervalTimer st) (adsVolume st) (adsMuted st) (adsDuration st)
         (adsCurrentTime st) (adsManager st) (media st) (events st) (ads st)
         (adsLoader st) (adsContainer st) (adsCustomClickContainer st)
         (adDisplayContainer st) (adsRequest st) (autoStart st)
         (autoStartMuted st) (playTriggered st) (adsOptions st)
         (currentAdsIndex st) (originalVolume st) v (lastTimePaused st)
         (mediaSources st) (mediaStarted st) (parent st) (controls st)
         (listeners st) (pending st) (nextTimer st) (trace st).

Definition set_lastTimePaused (v : number) (st : State) : State :=
  mkState (adsEnded st) (adsDone st) (adsActive st) (adsStarted st)
         (intervalTimer st) (adsVolume st) (adsMuted st) (adsDuration st)
         (adsCurrentTime st) (adsManager st) (media st) (events st) (ads st)
         (adsLoader st) (adsContainer st) (adsCustomClickContainer st)
         (adDisplayContainer st) (adsRequest st) (autoStart st)
         (autoStartMuted st) (playTriggered st) (adsOptions st)
         (currentAdsIndex st) (originalVolume st) (preloadContent st) v
         (mediaSources st) (mediaStarted st) (parent st) (controls st)
         (listeners st) (pending st) (nextTimer st) (trace st).

Definition set_mediaSources (v : list Source) (st : State) : State :=
  mkState (adsEnded st) (adsDone st) (adsActive st) (adsStarted st)
         (intervalTimer st) (adsVolume st) (adsMuted st) (adsDuration st)
         (adsCurrentTime st) (adsManager st) (media st) (events st) (ads st)
         (adsLoader st) (adsContainer st) (adsCustomClickContainer st)
         (adDisplayContainer st) (adsRequest st) (autoStart st)
         (autoStartMuted st) (playTriggered st) (adsOptions st)
         (currentAdsIndex st) (originalVolume st) (preloadContent st)
         (lastTimePaused st) v (mediaStarted st) (parent st) (controls st)
         (listeners st) (pending st) (nextTimer st) (trace st).

Definition set_mediaStarted (v : bool) (st : State) : State :=
  mkState (adsEnded st) (adsDone st) (adsActive st) (adsStarted st)
         (intervalTimer st) (adsVolume st) (adsMuted st) (adsDuration st)
         (adsCurrentTime st) (adsManager st) (media st) (events st) (ads st)
         (adsLoader st) (adsContainer st) (adsCustomClickContainer st)
         (adDisplayContainer st) (adsRequest st) (autoStart st)
         (autoStartMuted st) (playTriggered st) (adsOptions st)
         (currentAdsIndex st) (originalVolume st) (preloadContent st)
         (lastTimePaused st) (mediaSources st) v (parent st) (controls st)
         (listeners st) (pending st) (nextTimer st) (trace st).

Definition set_parent (v : option Parent) (st : State) : State :=
  mkState (adsEnded st) (adsDone st) (adsActive st) (adsStarted st)
         (intervalTimer st) (adsVolume st) (adsMuted st) (adsDuration st)
         (adsCurrentTime st) (adsManager st) (media st) (events st) (ads st)
         (adsLoader st) (adsContainer st) (adsCustomClickContainer st)
         (adDisplayContainer st) (adsRequest st) (autoStart st)
         (autoStartMuted st) (playTriggered st) (adsOptions st)
         (currentAdsIndex st) (originalVolume st) (preloadContent st)
         (lastTimePaused st) (mediaSources st) (mediaStarted st) v
         (controls st) (listeners st) (pending st) (nextTimer st) (trace st).

Definition set_controls (v : bool) (st : State) : State :=
  mkState (adsEnded st) (adsDone st) (adsActive st) (adsStarted st)
         (intervalTimer st) (adsVolume st) (adsMuted st) (adsDuration st)
         (adsCurrentTime st) (adsManager st) (media st) (events st) (ads st)
         (adsLoader st) (adsContainer st) (adsCustomClickContainer st)
         (adDisplayContainer st) (adsRequest st) (autoStart st)
         (autoStartMuted st) (playTriggered st) (adsOptions st)
         (currentAdsIndex st) (originalVolume st) (preloadContent st)
         (lastTimePaused st) (mediaSources st) (mediaStarted st) (parent st)
         v (listeners st) (pending st) (nextTimer st) (trace st).

Definition set_listeners (v : list Listener) (st : State) : State :=
  mkState (adsEnded st) (adsDone st) (adsActive st) (adsStarted st)
         (intervalTimer st) (adsVolume st) (adsMuted st) (adsDuration st)
         (adsCurrentTime st) (adsManager st) (media st) (events st) (ads st)
         (adsLoader st) (adsContainer st) (adsCustomClickContainer st)
         (adDisplayContainer st) (adsRequest st) (autoStart st)
         (autoStartMuted st) (playTriggered st) (adsOptions st)
         (currentAdsIndex st) (originalVolume st) (preloadContent st)
         (lastTimePaused st) (mediaSources st) (mediaStarted st) (parent st)
         (controls st) v (pending st) (nextTimer st) (trace st).

Definition set_pending (v : list Task) (st : State) : State :=
  mkState (adsEnded st) (adsDone st) (adsActive st) (adsStarted st)
         (intervalTimer st) (adsVolume st) (adsMuted st) (adsDuration st)
         (adsCurrentTime st) (adsManager st) (media st) (events st) (ads st)
         (adsLoader st) (adsContainer st) (adsCustomClickContainer st)
         (adDisplayContainer st) (adsRequest st) (autoStart st)
         (autoStartMuted st) (playTriggered st) (adsOptions st)
         (currentAdsIndex st) (originalVolume st) (preloadContent st)
         (lastTimePaused st) (mediaSources st) (mediaStarted st) (parent st)
         (controls st) (listeners st) v (nextTimer st) (trace st).

Definition set_nextTimer (v : Z) (st : State) : State :=
  mkState (adsEnded st) (adsDone st) (adsActive st) (adsStarted st)
         (intervalTimer st) (adsVolume st) (adsMuted st) (adsDuration st)
         (adsCurrentTime st) (adsManager st) (media st) (events st) (ads st)
         (adsLoader st) (adsContainer st) (adsCustomClickContainer st)
         (adDisplayContainer st) (adsRequest st) (autoStart st)
         (autoStartMuted st) (playTriggered st) (adsOptions st)
         (currentAdsIndex st) (originalVolume st) (preloadContent st)
         (lastTimePaused st) (mediaSources st) (mediaStarted st) (parent st)
         (controls st) (listeners st) (pending st) v (trace st).

Definition set_trace (v : list Effect) (st : State) : State :=
  mkState (adsEnded st) (adsDone st) (adsActive st) (adsStarted st)
         (intervalTimer st) (adsVolume st) (adsMuted st) (adsDuration st)
         (adsCurrentTime st) (adsManager st) (media st) (events st) (ads st)
         (adsLoader st) (adsContainer st) (adsCustomClickContainer st)
         (adDisplayContainer st) (adsRequest st) (autoStart st)
         (autoStartMuted st) (playTriggered st) (adsOptions st)
         (currentAdsIndex st) (originalVolume st) (preloadContent st)
         (lastTimePaused st) (mediaSources st) (mediaStarted st) (parent st)
         (controls st) (listeners st) (pending st) (nextTimer st) v.

Definition task_eqb (a b : Task) : bool :=
  match a, b with
  | TimerResume, TimerResume => true
  | MicrotaskEnded, MicrotaskEnded => true
  | TimerRetryMetadata, TimerRetryMetadata => true
  | _, _ => false
  end.

Definition is_array (a : AdsSource) : bool :=
  match a with
  | AdList _ => true
  | SingleAd _ => false
  end.

(** [ads.length] of an array of ad tags. *)
Definition ads_length (a : AdsSource) : Z :=
  match a with
  | AdList tags => len tags
  | SingleAd _ => 0
  end.

Definition emit (e : Effect) : M State unit :=
  update (fun st => set_trace (trace st ++ [e])%list st).

(** [element.dispatchEvent(addEvent(name))] for an event none of the
    listeners of the component listens to. *)
Definition dispatchEvent (name : string) : M State unit := emit (Dispatch name).

(** A call on the facade held in [#media]. *)
Definition on_media {A : Type} (m : M Media.State A) : M State A :=
  fun st => (set_media (fst (m (media st))) st, snd (m (media st))).

(** A listener that throws does not stop the dispatch. *)
Definition swallow (m : M State unit) : M State unit :=
  catch m (fun _ => ret tt).

Fixpoint for_each {A : Type} (l : list A) (f : A -> M State unit) : M State unit :=
  match l with
  | [] => ret tt
  | x :: rest => f x ;; for_each rest f
  end.

Definition set_active_class (v : bool) : M State unit :=
  update (fun st =>
    match parent st with
    | Some p => set_parent (Some (mkParent v (data_fullscreen p))) st
    | None => st
    end).

(** [adsManager.xxx()] where the manager is known to be set. *)
Definition manager_call (name : string) : M State unit :=
  st <- get ;;
  match adsManager st with
  | Some _ => emit (Sdk ("adsManager." ++ name))
  | None => throw (TypeError "Cannot read properties of null")
  end.

(** [adsLoader.xxx()] *)
Definition loader_call (name : string) : M State unit :=
  st <- get ;;
  if adsLoader st then emit (Sdk ("adsLoader." ++ name))
  else throw (TypeError "Cannot read properties of undefined")%string.

Section Handlers.

(** Taken as they come: the constants [IS_IOS], [IS_ANDROID] and
    [IS_IPHONE], [isVideo(element)] and [isXml] of [utils], and what the
    facade itself rests on. *)
Variable IS_IOS : bool.
Variable IS_ANDROID : bool.
Variable IS_IPHONE : bool.
Variable isVideo : bool.
Variable isXml : string -> bool.
Variable predictType : string -> string.
Variable isHlsSource : Source -> bool.
Variable isDashSource : Source -> bool.
Variable isFlvSource : Source -> bool.
Variable new_backend : BackendKind -> Element -> Source -> Backend.
Variable backend_canPlayType : Backend -> string -> bool.
Variable playHLSNatively : Element -> bool.

Definition media_load : M State unit :=
  on_media (Media.load isHlsSource isDashSource isFlvSource new_backend
                       backend_canPlayType playHLSNatively).

Definition media_play : M State unit :=
  on_media (Media.play isHlsSource isDashSource isFlvSource new_backend
                       backend_canPlayType playHLSNatively).

Definition media_pause : M State unit := on_media Media.pause.

Definition media_set_src (fs : list Source) : M State unit :=
  on_media (Media.set_src predictType backend_canPlayType (SrcArray fs)).

(** [_setMediaVolume] *)
Definition _setMediaVolume (volume : number) : M State unit :=
  update (fun st =>
    set_media (Media.set_muted (Qeq_bool volume 0)
                 (Media.set_volume volume (media st))) st).

(** [_resumeMedia]: the fields are reset, and the content is set to play
    50 ms later, unless it has ended. *)
Definition _resumeMedia : M State unit :=
  update (set_intervalTimer 0) ;;
  update (set_adsMuted false) ;;
  update (set_adsStarted false) ;;
  update (set_adsDuration 0%Q) ;;
  update (set_adsCurrentTime 0%Q) ;;
  set_active_class false ;;
  update (fun st =>
    set_pending
      (pending st ++ [if Media.get_ended (media st)
                      then MicrotaskEnded else TimerResume])%list st).

(** [_prepareMedia] *)
Definition _prepareMedia : M State unit :=
  update (fun st =>
    set_media (Media.set_currentTime (lastTimePaused st) (media st)) st) ;;
  _resumeMedia.

(** [_requestAds] *)
Definition _requestAds : M State unit :=
  st <- get ;;
  let tag :=
    match ads st with
    | AdList tags => index tags (currentAdsIndex st)
    | SingleAd t => Some t
    end in
  update (set_adsRequest
            (Some (mkRequest tag
                     (match tag with Some t => isXml t | None => false end)
                     (autoStart st) (autoStartMuted st)))) ;;
  loader_call "requestAds".

(** [_contentLoadedAction] *)
Definition _contentLoadedAction : M State unit :=
  update (set_preloadContent false) ;;
  _requestAds.

(** [_resetAdsAfterManualBreak] *)
Definition _resetAdsAfterManualBreak : M State unit :=
  st <- get ;;
  when (match adsManager st with Some _ => true | None => false end)
       (manager_call "destroy") ;;
  loader_call "contentComplete" ;;
  update (set_adsDone false) ;;
  update (set_playTriggered true).

(** [_loadedMetadataHandler] *)
Definition _loadedMetadataHandler : M State unit :=
  st <- get ;;
  if is_array (ads st) then
    update (set_currentAdsIndex (currentAdsIndex st + 1)) ;;
    if currentAdsIndex st + 1 <=? ads_length (ads st) - 1 then
      when (match adsManager st with Some _ => true | None => false end)
           (manager_call "destroy") ;;
      loader_call "contentComplete" ;;
      update (set_playTriggered true) ;;
      update (set_adsStarted true) ;;
      update (set_adsDone false) ;;
      _requestAds
    else
      when (negb (autoPlayAdBreaks (adsOptions st))) _resetAdsAfterManualBreak ;;
      _prepareMedia
  else
    match e_seekable (element (media st)) with
    | end0 :: _ =>
        if Captions.Qlt_bool (lastTimePaused st) end0 then
          when (negb (autoPlayAdBreaks (adsOptions st))) _resetAdsAfterManualBreak ;;
          _prepareMedia
        else ret tt
    | [] =>
        update (fun st' => set_pending (pending st' ++ [TimerRetryMetadata])%list st')
    end.

(** [_contentEndedListener] *)
Definition _contentEndedListener : M State unit :=
  update (set_adsEnded true) ;;
  update (set_adsActive false) ;;
  update (set_adsStarted false) ;;
  loader_call "contentComplete".

(** [resizeAds]: the manager is asked to resize at the next frame. *)
Definition resizeAds : M State unit :=
  st <- get ;;
  when (match adsManager st with Some _ => true | None => false end)
       (emit (Sdk "adsManager.resize")).

(** The listeners of the component for an event the element gets. *)
Definition run_listener (l : Listener) : M State unit :=
  match l with
  | OnMetadataResize => resizeAds
  | OnMetadataContentLoaded => _contentLoadedAction
  | OnMetadataHandler => _loadedMetadataHandler
  | OnEnded => _contentEndedListener
  end.

Definition is_ended_listener (l : Listener) : bool :=
  match l with
  | OnEnded => true
  | _ => false
  end.

(** The element gets [loadedmetadata]. *)
Definition dispatch_loadedmetadata : M State unit :=
  emit (Dispatch "loadedmetadata") ;;
  st <- get ;;
  for_each (filter (fun l => negb (is_ended_listener l)) (listeners st))
           (fun l => swallow (run_listener l)).

(** The element gets [ended]. *)
Definition dispatch_ended : M State unit :=
  emit (Dispatch "ended") ;;
  st <- get ;;
  for_each (filter is_ended_listener (listeners st))
           (fun l => swallow (run_listener l)).

(** [destroy] *)
Definition destroy : M State unit :=
  st <- get ;;
  for_each (events st) (fun _ => manager_call "removeEventListener") ;;
  update (set_events []) ;;
  (let destroy_manager :=
     negb (is_array (ads st)) || (ads_length (ads st) <? currentAdsIndex st) in
   when (match adsManager st with Some _ => destroy_manager | None => false end)
        (manager_call "destroy")) ;;
  emit (Sdk "removeElement(adsContainer)").

(** [load(force)] *)
Definition load (force : bool) : M State unit :=
  st <- get ;;
  if negb (autoPlayAdBreaks (adsOptions st)) && negb force then ret tt
  else
    update (set_adsStarted true) ;;
    update (set_adsContainer true) ;;
    when (customClick_enabled (adsOptions st))
         (update (set_adsCustomClickContainer true)) ;;
    update (fun st' => set_mediaSources (Media.get_src (media st')) st') ;;
    emit (Sdk "ima.settings") ;;
    update (set_adDisplayContainer true) ;;
    update (set_adsLoader true) ;;
    update (fun st' => set_listeners (listeners st' ++ [OnMetadataResize])%list st') ;;
    when (autoStart st || autoStartMuted st || force
          || enablePreloading (adsOptions st))
         (st' <- get ;;
          when (negb (adsDone st'))
               (update (set_adsDone true) ;;
                emit (Sdk "adDisplayContainer.initialize")) ;;
          _requestAds).

(** [_initNotDoneAds] *)
Definition _initNotDoneAds : M State unit :=
  update (set_adsDone true) ;;
  emit (Sdk "adDisplayContainer.initialize") ;;
  if IS_IOS || IS_ANDROID then
    update (set_preloadContent true) ;;
    update (fun st => set_listeners (listeners st ++ [OnMetadataContentLoaded])%list st) ;;
    emit (Sdk "element.load")
  else _contentLoadedAction.

(** [_start(manager)] *)
Definition _start (manager : Manager) : M State unit :=
  st <- get ;;
  update (set_events
            ([ALL_ADS_COMPLETED; CLICK; VIDEO_CLICKED; VIDEO_ICON_CLICKED;
              AD_PROGRESS; AD_BUFFERING; IMPRESSION; DURATION_CHANGE;
              USER_CLOSE; LINEAR_CHANGED; SKIPPABLE_STATE_CHANGED; AD_METADATA;
              INTERACTION; COMPLETE; FIRST_QUARTILE; LOADED; MIDPOINT; PAUSED;
              RESUMED; USER_CLOSE; STARTED; THIRD_QUARTILE; SKIPPED;
              VOLUME_CHANGED; VOLUME_MUTED; LOG]
             ++ (if autoPlayAdBreaks (adsOptions st) then [] else [AD_BREAK_READY]))%list) ;;
  if autoStart st || playTriggered st then
    update (set_playTriggered false) ;;
    if negb (adsDone st) then _initNotDoneAds
    else
      emit (Sdk "adsManager.init") ;;
      emit (Sdk "adsManager.start") ;;
      dispatchEvent "play" ;;
      dispatchEvent "playing"
  else
    when (enablePreloading (adsOptions st)) (emit (Sdk "adsManager.init")).

(** [_loaded(adsManagerLoadedEvent)] *)
Definition _loaded (manager : Manager) : M State unit :=
  update (set_adsManager (Some manager)) ;;
  _start manager.

Definition fatalErrorCodes : list Z :=
  [100; 101; 102; 300; 301; 302; 303; 400; 401; 402; 403; 405;
   406; 407; 408; 409; 410; 500; 501; 502; 503; 900; 901; 1005].

Definition is_fatal (code : Z) : bool := existsb (Z.eqb code) fatalErrorCodes.

(** The test of [_error] for the ad tag to follow. *)
Definition has_next_ad (st : State) : bool :=
  is_array (ads st) && (1 <? ads_length (ads st))
  && (currentAdsIndex st <? ads_length (ads st) - 1).

(** What [_error] writes when there is no ad tag to go on to. *)
Definition error_effects (error : AdError) (st : State) : list Effect :=
  (if is_fatal (getErrorCode error) then
     match adsManager st with
     | Some _ => [Sdk "adsManager.destroy"]
     | None => []
     end ++ [ConsoleError (errorText error)]
   else [Warn (errorText error)])%list.

(** The test of [_error] for resuming the content. *)
Definition resume_wanted (st : State) : bool :=
  autoStart st || autoStartMuted st || adsStarted st.

(** [_error(event)] *)
Definition _error (error : AdError) : M State unit :=
  emit (PlayerError (errorText error)) ;;
  st <- get ;;
  if has_next_ad st then
    update (set_currentAdsIndex (currentAdsIndex st + 1)) ;;
    update (set_playTriggered true) ;;
    update (set_adsStarted true) ;;
    update (set_adsDone false) ;;
    destroy ;;
    load true ;;
    emit (Warn (errorText error))
  else
    (if is_fatal (getErrorCode error) then
       when (match adsManager st with Some _ => true | None => false end)
            (manager_call "destroy") ;;
       emit (ConsoleError (errorText error))
     else emit (Warn (errorText error))) ;;
    when (resume_wanted st)
         (update (set_adsActive false) ;; _resumeMedia).

(** [_onContentPauseRequested] *)
Definition _onContentPauseRequested : M State unit :=
  update (fun st => set_lastTimePaused (Media.get_currentTime (media st)) st) ;;
  st <- get ;;
  (if adsStarted st then media_pause else update (set_adsStarted true)) ;;
  dispatchEvent "play".

(** [_onContentResumeRequested] *)
Definition _onContentResumeRequested : M State unit :=
  st <- get ;;
  if loop (adsOptions st) then
    when (is_array (ads st))
         (if currentAdsIndex st =? ads_length (ads st) - 1
          then update (set_currentAdsIndex 0)
          else update (set_currentAdsIndex (currentAdsIndex st + 1))) ;;
    destroy ;;
    loader_call "contentComplete" ;;
    update (set_playTriggered true) ;;
    update (set_adsStarted true) ;;
    update (set_adsDone false) ;;
    load true
  else
    update (fun st' =>
      set_listeners (listeners st' ++ [OnEnded; OnMetadataHandler])%list st') ;;
    if IS_IOS || IS_ANDROID then
      media_set_src (mediaSources st) ;;
      media_load ;;
      _prepareMedia ;;
      set_active_class true
    else dispatch_loadedmetadata.

(** [this.volume] *)
Definition get_volume (st : State) : number :=
  match adsManager st with
  | Some m => getVolume m
  | None => originalVolume st
  end.

(** [ad.isLinear()], [ad] being [event.getAd()]. *)
Definition ad_isLinear (event : AdEvent) : M State bool :=
  match getAd event with
  | Some ad => ret (isLinear ad)
  | None => throw (TypeError "Cannot read properties of null (reading 'isLinear')")
  end.

(** The [switch] of [_assign]. *)
Definition assign_switch (event : AdEvent) : M State unit :=
  match ev_type event with
  | LOADED =>
      linear <- ad_isLinear event ;;
      if negb linear then _onContentResumeRequested
      else
        when (IS_IPHONE && isVideo) (update (set_controls false)) ;;
        (match getAd event with
         | Some ad =>
             update (set_adsDuration (getDuration ad)) ;;
             update (set_adsCurrentTime (getDuration ad))
         | None => ret tt
         end) ;;
        st <- get ;;
        when (negb (mediaStarted st) && negb IS_IOS && negb IS_ANDROID)
             (dispatchEvent "waiting" ;;
              dispatch_loadedmetadata ;;
              resizeAds)
  | STARTED =>
      linear <- ad_isLinear event ;;
      when linear
        (set_active_class true ;;
         st <- get ;;
         when (negb (Media.get_paused (media st))) media_pause ;;
         update (set_adsActive true) ;;
         dispatchEvent "play" ;;
         resizeAds ;;
         st' <- get ;;
         when (Media.get_ended (media st'))
              (update (set_adsEnded false) ;; dispatchEvent "adsmediaended") ;;
         update (fun s => set_nextTimer (nextTimer s + 1)
                            (set_intervalTimer (nextTimer s) s)))
  | COMPLETE | SKIPPED =>
      linear <- ad_isLinear event ;;
      when linear
        (when (match ev_type event with SKIPPED => true | _ => false end)
              (dispatchEvent "adsskipped") ;;
         set_active_class false ;;
         update (set_adsActive false) ;;
         emit (Sdk "clearInterval"))
  | VOLUME_CHANGED =>
      st <- get ;;
      _setMediaVolume (get_volume st) ;;
      linear <- ad_isLinear event ;;
      when linear (dispatchEvent "volumechange")
  | VOLUME_MUTED =>
      linear <- ad_isLinear event ;;
      when linear (dispatchEvent "volumechange")
  | ALL_ADS_COMPLETED =>
      linear <- ad_isLinear event ;;
      when linear
        (update (set_adsActive false) ;;
         update (set_adsEnded true) ;;
         update (set_intervalTimer 0) ;;
         update (set_adsMuted false) ;;
         update (set_adsStarted false) ;;
         update (set_adsDuration 0%Q) ;;
         update (set_adsCurrentTime 0%Q) ;;
         set_active_class false ;;
         destroy ;;
         st <- get ;;
         when (match e_duration (element (media st)) with
               | Seconds d => Qle_bool d (e_currentTime (element (media st)))
               | Infinity => false
               end)
              dispatch_ended)
  | CLICK => dispatchEvent "pause"
  | _ => ret tt
  end.

(** [_assign(event)] *)
Definition _assign (event : AdEvent) : M State unit :=
  assign_switch event ;;
  match ev_type event with
  | LOG =>
      match adError event with
      | Some message =>
          emit (Warn message) ;;
          emit (PlayerError message)
      | None => ret tt
      end
  | t => emit (DispatchAds t)
  end.

(** [play]: the body of the function run by the promise. *)
Definition play : M State unit :=
  st <- get ;;
  if negb (adsDone st) then _initNotDoneAds
  else
    match adsManager st with
    | Some _ =>
        (if (intervalTimer st =? 0) && negb (adsActive st)
         then emit (Sdk "adsManager.start")
         else emit (Sdk "adsManager.resume")) ;;
        update (set_adsActive true) ;;
        dispatchEvent "play"
    | None => ret tt
    end.

(** [pause] *)
Definition pause : M State unit :=
  st <- get ;;
  match adsManager st with
  | Some _ =>
      update (set_adsActive false) ;;
      emit (Sdk "adsManager.pause") ;;
      dispatchEvent "pause"
  | None => ret tt
  end.

(** [_handleClickInContainer] *)
Definition _handleClickInContainer : M State unit :=
  st <- get ;;
  when (Media.get_paused (media st))
       (dispatchEvent "paused" ;; pause).

(** The function given to [setInterval] when a linear ad starts. *)
Definition interval_tick : M State unit :=
  st <- get ;;
  when (adsActive st)
    (match adsManager st with
     | Some m =>
         update (set_adsCurrentTime (getRemainingTime m)) ;;
         dispatchEvent "timeupdate"
     | None => throw (TypeError "Cannot read properties of null")
     end).

(** A task set to run later, when its time has come. *)
Definition run_task (t : Task) : M State unit :=
  match t with
  | TimerResume =>
      catch (media_play ;; dispatchEvent "play") (fun _ => dispatch_ended)
  | MicrotaskEnded => dispatch_ended
  | TimerRetryMetadata => _loadedMetadataHandler
  end.

(** Taking the first task of a kind off the list. *)
Fixpoint take_task (t : Task) (l : list Task) : option (list Task) :=
  match l with
  | [] => None
  | x :: rest =>
      if task_eqb t x then Some rest
      else option_map (cons x) (take_task t rest)
  end.

(** [new Ads(player, ads, autoStart, autoStartMuted, options)], before the
    script of the SDK is there: [media] is [player.getMedia()], [parent] the
    parent of [player.getElement()]. *)
Definition constructor (m : Media.State) (p : option Parent) (source : AdsSource)
           (auto autoMuted : bool) (opts : Options) : State :=
  mkState false false false false 0 (e_volume (element m)) false 0%Q 0%Q None m
          [] source false false false false None auto autoMuted false opts 0
          (e_volume (element m)) false 0%Q [] false p true [] [] 1 [].

(** The events the component handles: the script of the SDK is there,
    the events of the ads manager and of the ads loader, those of the
    element, a click in the ads container, the interval of a running ad,
    and the tasks set to run later. *)
Inductive Event : Type :=
| EvSdkReady
| EvAd (event : AdEvent)
| EvAdError (error : AdError)
| EvAdsManagerLoaded (manager : Manager)
| EvContentPauseRequested
| EvContentResumeRequested
| EvLoadedMetadata
| EvEnded
| EvContainerClick
| EvInterval
| EvTask (t : Task).

Definition handle (ev : Event) : M State unit :=
  match ev with
  | EvSdkReady => load false
  | EvAd event => _assign event
  | EvAdError error => _error error
  | EvAdsManagerLoaded manager => _loaded manager
  | EvContentPauseRequested => _onContentPauseRequested
  | EvContentResumeRequested => _onContentResumeRequested
  | EvLoadedMetadata => dispatch_loadedmetadata
  | EvEnded => dispatch_ended
  | EvContainerClick => _handleClickInContainer
  | EvInterval => interval_tick
  | EvTask t => run_task t
  end.

(** The event can come in this state: an event of the manager needs the
    manager, one of the loader the loader, and a task must have been set. *)
Definition enabled (ev : Event) (st : State) : bool :=
  match ev with
  | EvSdkReady => negb (adsLoader st)
  | EvAd event =>
      match adsManager st with
      | Some _ => true
      | None => false
      end
  | EvAdError _ | EvAdsManagerLoaded _ => adsLoader st
  | EvContentPauseRequested | EvContentResumeRequested =>
      match adsManager st with
      | Some _ => true
      | None => false
      end
  | EvLoadedMetadata | EvEnded => true
  | EvContainerClick => adsContainer st
  | EvInterval => negb (intervalTimer st =? 0)
  | EvTask t => existsb (task_eqb t) (pending st)
  end.

(** One step: an event that can come is handled; a task that runs is
    taken off the list first.  What a handler has done stays when it
    throws. *)
Definition step (ev : Event) (st : State) : State :=
  let st1 :=
    match ev with
    | EvTask t =>
        match take_task t (pending st) with
        | Some rest => set_pending rest st
        | None => st
        end
    | _ => st
    end in
  fst (handle ev st1).

End Handlers.

(** *** Vocabulary for the properties of the handlers *)

(** No ad is active. *)
Definition ads_off (st : State) : Prop := adsActive st = false.





(** What going on to the next ad tag leaves: the index, play marked as
    triggered, the ads marked as started, and the tasks, the facade and
    [adsActive] as given. *)
Definition fallback_frame (i : Z) (p : list Task) (m : Media.State) (a : bool)
           (st : State) : Prop :=
  currentAdsIndex st = i /\ playTriggered st = true /\ adsStarted st = true /\
  pending st = p /\ media st = m /\ adsActive st = a.

(** The component has an ads manager. *)
Definition has_manager (st : State) : Prop := adsManager st <> None.

(** The ads manager is there if it has listeners to take off. *)
Definition manager_known (st : State) : Prop :=
  events st = [] \/ has_manager st.




Section Runs.

Variable IS_IOS : bool.
Variable IS_ANDROID : bool.
Variable IS_IPHONE : bool.
Variable isVideo : bool.
Variable isXml : string -> bool.
Variable predictType : string -> string.
Variable isHlsSource : Source -> bool.
Variable isDashSource : Source -> bool.
Variable isFlvSource : Source -> bool.
Variable new_backend : BackendKind -> Element -> Source -> Backend.
Variable backend_canPlayType : Backend -> string -> bool.
Variable playHLSNatively : Element -> bool.

(** The state the events lead to one after the other, if each of them
    passes the guard in the state it comes in. *)
Fixpoint run (guard : Event -> State -> bool) (evs : list Event) (st : State)
  : option State :=
  match evs with
  | [] => Some st
  | ev :: rest =>
      if guard ev st then
        run guard rest
            (step IS_IOS IS_ANDROID IS_IPHONE isVideo isXml predictType
               isHlsSource isDashSource isFlvSource new_backend
               backend_canPlayType playHLSNatively ev st)
      else None
  end.

(** How the handlers of the events end, one after the other. *)
Fixpoint outcomes (evs : list Event) (st : State) : list (completion unit) :=
  match evs with
  | [] => []
  | ev :: rest =>
      snd (handle IS_IOS IS_ANDROID IS_IPHONE isVideo isXml predictType
             isHlsSource isDashSource isFlvSource new_backend
             backend_canPlayType playHLSNatively ev
             match ev with
             | EvTask t =>
                 match take_task t (pending st) with
                 | Some rest => set_pending rest st
                 | None => st
                 end
             | _ => st
             end)
      :: outcomes rest
           (step IS_IOS IS_ANDROID IS_IPHONE isVideo isXml predictType
              isHlsSource isDashSource isFlvSource new_backend
              backend_canPlayType playHLSNatively ev st)
  end.

End Runs.

(** *** An ad break to run the handlers on *)

(** A desktop browser, a video, one ad tag, nothing started by itself. *)
Definition sample_run : (Event -> State -> bool) -> list Event -> State -> option State :=
  run false false false true (fun _ => false) (fun _ => "video/mp4")
      (fun _ => false) (fun _ => false) (fun _ => false)
      sample_backend (fun _ _ => true) (fun _ => false).

Definition sample_ads : State :=
  constructor playing_media None (SingleAd "https://ads.example/tag") false false
              (mkOptions true false false false).

Definition sample_manager : Manager := mkManager 1%Q 10%Q false.

Definition linear_started : AdEvent :=
  mkAdEvent STARTED (Some (mkAd true 10%Q)) None.

(** The SDK is there, the manager is given, and a linear ad starts. *)
Definition ad_break_begins : list Event :=
  [EvSdkReady; EvAdsManagerLoaded sample_manager; EvAd linear_started].

(** The state the ad break is in then. *)
Definition sample_ad_running : State :=
  match sample_run enabled ad_break_begins sample_ads with
  | Some st => st
  | None => sample_ads
  end.



(** The same player with two ad tags, once the SDK is there and the
    manager is given. *)
Definition sample_two_tags : State :=
  match sample_run enabled [EvSdkReady; EvAdsManagerLoaded sample_manager]
          (constructor playing_media None
             (AdList ["https://ads.example/first"; "https://ads.example/second"])
             false false (mkOptions true false false false)) with
  | Some st => st
  | None => sample_ads
  end.

Definition sample_error : AdError := mkAdError 303 "No Ads VAST response".

(** After that the SDK asks for the content to resume without the ad having
    ended, and the resumption set by [_resumeMedia] runs. *)
Definition resumed_during_ad : list Event :=
  (ad_break_begins ++ [EvContentResumeRequested; EvTask TimerResume])%list.

(** The handlers on the same browser. *)
Definition sample_outcomes : list Event -> State -> list (completion unit) :=
  outcomes false false false true (fun _ => false) (fun _ => "video/mp4")
           (fun _ => false) (fun _ => false) (fun _ => false)
           sample_backend (fun _ _ => true) (fun _ => false).

(** An event of the manager for a linear ad of ten seconds. *)
Definition linear_ad (t : AdEventType) : AdEvent :=
  mkAdEvent t (Some (mkAd true 10%Q)) None.

(** A first ad break from its beginning to its end: the SDK is there,
    the manager is given, the SDK asks for the content to pause, a linear
    ad is loaded, starts and completes, the SDK asks for the content to
    resume, and the resumption set by [_resumeMedia] runs. *)
Definition first_ad_break : list Event :=
  [EvSdkReady; EvAdsManagerLoaded sample_manager;
   EvContentPauseRequested; EvAd (linear_ad LOADED); EvAd (linear_ad STARTED);
   EvAd (linear_ad COMPLETE); EvContentResumeRequested; EvTask TimerResume].

(** A second ad break begins: the SDK asks for the content to pause and
    the next linear ad is loaded. *)
Definition second_ad_loaded : list Event :=
  (first_ad_break ++ [EvContentPauseRequested; EvAd (linear_ad LOADED)])%list.

(** The ad starts within the 50 ms that a resumption waits. *)
Definition second_ad_started : list Event :=
  (second_ad_loaded ++ [EvAd (linear_ad STARTED)])%list.

(** The resumption runs. *)
Definition second_ad_resumed : list Event :=
  (second_ad_started ++ [EvTask TimerResume])%list.

End Ads.

(** ** Fullscreen: the listeners of the control *)

Module Fullscreen.

Local Open Scope string_scope.
Local Open Scope js_scope.

(** What a listener is registered on: the container of the player, the
    document, the button of the control, the media element. *)
Inductive Target : Type :=
| Container
| Document
| Button
| Element.

Definition target_eqb (a b : Target) : bool :=
  match a, b with
  | Container, Container | Document, Document
  | Button, Button | Element, Element => true
  | _, _ => false
  end.

(** The code of a function: the methods [_keydownEvent] and
    [_fullscreenChange], the function kept in [clickEvent], and the arrow
    functions for the iPhone, which set [isFullscreen] to [entering] and call
    [_setFullscreenData(data)]. *)
Inductive Code : Type :=
| KeydownEvent
| FullscreenChange
| ClickEvent
| WebkitFullscreen (entering data : bool).

(** A function object.  [f.bind(this)] and the evaluation of an arrow
    function each make a new object; [removeEventListener] compares
    objects, not code. *)
Record Fn : Type := mkFn {
  fn_id : nat;
  fn_code : Code
}.

(** A registered listener (none of them is registered for capture). *)
Record Registration : Type := mkRegistration {
  reg_target : Target;
  reg_type : string;
  reg_listener : Fn
}.

Record State : Type := mkState {
  button : bool;                         (* [this.button] is set *)
  button_out_class : bool;               (* op-controls__fullscreen--out *)
  button_in_controls : bool;             (* child of the controls container *)
  clickEvent : option Fn;
  fullscreenEvents : option (list string);
  data_fullscreen : option bool;         (* attribute of the container *)
  listeners : list Registration;
  next_fn : nat                          (* function objects made so far *)
}.

Definition set_button (v : bool) (st : State) : State :=
  mkState v (button_out_class st) (button_in_controls st) (clickEvent st)
          (fullscreenEvents st) (data_fullscreen st) (listeners st) (next_fn st).
Definition set_button_out_class (v : bool) (st : State) : State :=
  mkState (button st) v (button_in_controls st) (clickEvent st)
          (fullscreenEvents st) (data_fullscreen st) (listeners st) (next_fn st).
Definition set_button_in_controls (v : bool) (st : State) : State :=
  mkState (button st) (button_out_class st) v (clickEvent st)
          (fullscreenEvents st) (data_fullscreen st) (listeners st) (next_fn st).
Definition set_clickEvent (v : option Fn) (st : State) : State :=
  mkState (button st) (button_out_class st) (button_in_controls st) v
          (fullscreenEvents st) (data_fullscreen st) (listeners st) (next_fn st).
Definition set_fullscreenEvents (v : option (list string)) (st : State) : State :=
  mkState (button st) (button_out_class st) (button_in_controls st) (clickEvent st)
          v (data_fullscreen st) (listeners st) (next_fn st).
Definition set_data_fullscreen (v : option bool) (st : State) : State :=
  mkState (button st) (button_out_class st) (button_in_controls st) (clickEvent st)
          (fullscreenEvents st) v (listeners st) (next_fn st).
Definition set_listeners (v : list Registration) (st : State) : State :=
  mkState (button st) (button_out_class st) (button_in_controls st) (clickEvent st)
          (fullscreenEvents st) (data_fullscreen st) v (next_fn st).
Definition set_next_fn (v : nat) (st : State) : State :=
  mkState (button st) (button_out_class st) (button_in_controls st) (clickEvent st)
          (fullscreenEvents st) (data_fullscreen st) (listeners st) v.

(** A new function object for the code. *)
Definition new_function (c : Code) : M State Fn :=
  st <- get ;;
  update (set_next_fn (S (next_fn st))) ;;
  ret (mkFn (next_fn st) c).

(** The same target, the same type and the same function object. *)
Definition same_registration (t : Target) (type : string) (f : Fn)
           (r : Registration) : bool :=
  target_eqb t (reg_target r) && String.eqb type (reg_type r)
  && Nat.eqb (fn_id f) (fn_id (reg_listener r)).

(** [target.addEventListener(type, f)]: nothing is added if the same
    listener is there already. *)
Definition addEventListener (t : Target) (type : string) (f : Fn) : M State unit :=
  update (fun st =>
    if existsb (same_registration t type f) (listeners st) then st
    else set_listeners (listeners st ++ [mkRegistration t type f])%list st).

(** [target.removeEventListener(type, f)] *)
Definition removeEventListener (t : Target) (type : string) (f : Fn) : M State unit :=
  update (fun st =>
    set_listeners
      (filter (fun r => negb (same_registration t type f r)) (listeners st)) st).

Fixpoint forEach (l : list string) (f : string -> M State unit) : M State unit :=
  match l with
  | [] => ret tt
  | x :: rest => f x ;; forEach rest f
  end.

Section Component.

(** [IS_IPHONE] of [utils/constants], and [removeElement] of
    [utils/general], which acts on the tree: it is given whether the button
    is in the controls and says whether it still is. *)
Variable IS_IPHONE : bool.
Variable removeElement : bool -> bool.

(** [_setFullscreenData(state)] *)
Definition _setFullscreenData (state : bool) : M State unit :=
  update (set_data_fullscreen (Some state)) ;;
  st <- get ;;
  if button st then update (set_button_out_class state)
  else throw (TypeError "Cannot read properties of undefined (reading 'classList')").

(** [create] *)
Definition create : M State unit :=
  update (set_button true) ;;
  update (set_button_out_class false) ;;
  click <- new_function ClickEvent ;;
  update (set_clickEvent (Some click)) ;;
  update (set_fullscreenEvents
            (Some ["fullscreenchange"; "mozfullscreenchange";
                   "webkitfullscreenchange"; "msfullscreenchange"])) ;;
  _setFullscreenData false ;;
  keydown <- new_function KeydownEvent ;;
  addEventListener Container "keydown" keydown ;;
  forEach ["fullscreenchange"; "mozfullscreenchange";
           "webkitfullscreenchange"; "msfullscreenchange"]
          (fun event =>
             change <- new_function FullscreenChange ;;
             addEventListener Document event change) ;;
  bound <- new_function ClickEvent ;;
  addEventListener Button "click" bound ;;
  update (set_button_in_controls true) ;;
  when IS_IPHONE
    (began <- new_function (WebkitFullscreen true true) ;;
     addEventListener Element "webkitbeginfullscreen" began ;;
     ended <- new_function (WebkitFullscreen false false) ;;
     addEventListener Element "webkitendfullscreen" ended).

(** [destroy] *)
Definition destroy : M State unit :=
  keydown <- new_function KeydownEvent ;;
  removeEventListener Container "keydown" keydown ;;
  st <- get ;;
  match fullscreenEvents st with
  | None => throw (TypeError "Cannot read properties of undefined (reading 'forEach')")
  | Some events =>
      forEach events
              (fun event =>
                 change <- new_function FullscreenChange ;;
                 removeEventListener Document event change) ;;
      when IS_IPHONE
        (began <- new_function (WebkitFullscreen true false) ;;
         removeEventListener Element "webkitbeginfullscreen" began ;;
         ended <- new_function (WebkitFullscreen false true) ;;
         removeEventListener Element "webkitendfullscreen" ended) ;;
      if button st then
        match clickEvent st with
        | Some _ =>
            bound <- new_function ClickEvent ;;
            removeEventListener Button "click" bound ;;
            update (fun st' =>
              set_button_in_controls (removeElement (button_in_controls st')) st')
        | None =>
            throw (TypeError "Cannot read properties of undefined (reading 'bind')")
        end
      else
        throw (TypeError
                 "Cannot read properties of undefined (reading 'removeEventListener')")
  end.

End Component.

(** [new Fullscreen(player, position)]: nothing is created yet. *)
Definition constructor : State :=
  mkState false false false None None None [] 0.

(** *** Vocabulary for the properties of the listeners *)

(** The function objects of the registered listeners were all made
    before: none of them is one still to be made. *)
Definition listeners_made (st : State) : Prop :=
  Forall (fun r => (fn_id (reg_listener r) < next_fn st)%nat) (listeners st).

(** The registered listeners are these, all made before. *)
Definition listeners_are (l : list Registration) (st : State) : Prop :=
  listeners st = l /\ listeners_made st.

End Fullscreen.

(* ================================================================== *)

(** ** Captions: vocabulary for the time code pattern and the lines *)

Module CaptionsVocab.
Import Captions.
Local Open Scope string_scope.

(** The characters of a time stamp: digits, the colon, and the comma or
    the full stop before the fraction. *)
Definition timestamp_char (c : ascii) : bool :=
  is_digit c || Ascii.eqb c ":" || is_frac_sep c.

Definition no_terminator (c : ascii) : bool := negb (is_line_terminator c).

(** Every way the piece matches takes a prefix of the input made of
    characters of the class. *)
Definition takes_prefix (P : ascii -> bool) (f : string -> ways) : Prop :=
  forall s m r, In (m, r) (f s) -> s = m ++ r /\ all_chars P m = true.

(** Any character but the line feed, and any but [>]. *)
Definition not_lf (c : ascii) : bool := negb (Ascii.eqb c LF).

Definition not_gt (c : ascii) : bool := negb (Ascii.eqb c ">").

End CaptionsVocab.

(** ** Media: the file that [load] settles on *)

Module MediaVocab.
Import Media.
Local Open Scope string_scope.

Section Choice.

Variable isHlsSource : Source -> bool.
Variable isDashSource : Source -> bool.
Variable isFlvSource : Source -> bool.
Variable new_backend : BackendKind -> Element -> Source -> Backend.
Variable backend_canPlayType : Backend -> string -> bool.
Variable playHLSNatively : Element -> bool.

(** The class [load] makes a backend of for a file: the one [_invoke]
    names, [HTML5Media] when [_invoke] throws. *)
Definition kind_for (st : State) (f : Source) : BackendKind :=
  match snd (_invoke isHlsSource isDashSource isFlvSource playHLSNatively f st) with
  | Normal k => k
  | _ => Html5
  end.

Definition backend_for (st : State) (f : Source) : Backend :=
  new_backend (kind_for st f) (element st) f.

(** The backend made for the file says it can play the type of the file. *)
Definition can_play (st : State) (f : Source) : bool :=
  backend_canPlayType (backend_for st f) (type f).

End Choice.

(** The first file that passes the test, and the last file when none
    does. *)
Fixpoint first_or_last (test : Source -> bool) (fs : list Source) : option Source :=
  match fs with
  | [] => None
  | f :: rest =>
      if test f then Some f
      else match rest with
           | [] => Some f
           | _ :: _ => first_or_last test rest
           end
  end.

(** Two states of a facade with the same element, options and custom
    media. *)
Definition same_setup (s s' : State) : Prop :=
  element s = element s' /\ options s = options s' /\ customMedia s = customMedia s'.

End MediaVocab.

(** ** Captions: the entries offered in the Settings menu *)

Module CaptionsMenu.

Local Open Scope string_scope.

(** A text track, as far as the menu reads it. *)
Record Track : Type := mkTrack {
  language : string;
  label : string
}.

(** [{ key, label }] *)
Record SettingsSubItem : Type := mkSubItem {
  sub_key : string;
  sub_label : string
}.

(** What [addSettings] returns when it is not the empty object. *)
Record SettingsItem : Type := mkSettingsItem {
  className : string;
  default : string;
  key : string;
  name : string;
  subitems : list SettingsSubItem
}.

(** A string in a condition: the empty string counts as false. *)
Definition truthy (s : string) : bool := negb (String.eqb s EmptyString).

Section Labels.

(** [labels.off], [labels.captions] and the object [labels.lang] of the
    player options; a language without an entry reads [undefined]. *)
Variable labels_off : string.
Variable labels_captions : string.
Variable labels_lang : string -> option string.

(** [this.labels.lang[track.language] || this.trackList[i].label] *)
Definition label_of (track : Track) : string :=
  match labels_lang (language track) with
  | Some l => if truthy l then l else label track
  | None => label track
  end.

(** The body of the loop of [_formatMenuItems]: the entries with the key
    of the track are dropped, then the entry of the track is pushed. *)
Definition push_track (items : list SettingsSubItem) (track : Track)
  : list SettingsSubItem :=
  (filter (fun el => negb (String.eqb (sub_key el) (language track))) items
     ++ [mkSubItem (language track) (label_of track)])%list.

Fixpoint items_loop (tracks : list Track) (items : list SettingsSubItem)
  : list SettingsSubItem :=
  match tracks with
  | [] => items
  | track :: rest => items_loop rest (push_track items track)
  end.

(** [_formatMenuItems] *)
Definition _formatMenuItems (trackList : list Track) : list SettingsSubItem :=
  items_loop trackList [mkSubItem "off" labels_off].

(** [addSettings]: [None] stands for the empty object; [default_language]
    is [this.default]. *)
Definition addSettings (detachMenu : bool) (default_language : option string)
           (trackList : list Track) : option SettingsItem :=
  if detachMenu || (List.length trackList <=? 1)%nat then None
  else
    let subitems := _formatMenuItems trackList in
    if (2 <? List.length subitems)%nat then
      Some (mkSettingsItem "op-subtitles__option"
              (match default_language with
               | Some d => if truthy d then d else "off"
               | None => "off"
               end)
              "captions" labels_captions subitems)
    else None.

End Labels.

(** The keys offered: [off] and the languages of the tracks, each once. *)
Definition menu_keys (trackList : list Track) : list string :=
  nodup string_dec ("off" :: map language trackList).

End CaptionsMenu.

(** ** Fullscreen: entering and leaving *)

Module Screen.
Import Js Fullscreen.

Local Open Scope string_scope.
Local Open Scope Z_scope.
Local Open Scope js_scope.

(** The functions of the document that leave fullscreen, and those of the
    element (the first four are called on its parent) that enter it. *)
Inductive ExitApi : Type :=
| ExitFullscreen | MozCancelFullScreen | WebkitCancelFullScreen | MsExitFullscreen.

Inductive RequestApi : Type :=
| RequestFullscreen | MozRequestFullScreen | WebkitRequestFullScreen
| MsRequestFullscreen | WebkitEnterFullscreen.

(** What the control asks of the browser and of the Ads component. *)
Inductive Call : Type :=
| Exit (api : ExitApi)
| Request (api : RequestApi)
| ResizeAds (width height : option Z)
| PreventDefault.

(** The fields [isFullscreen], [fullScreenEnabled], [fullscreenWidth] and
    [fullscreenHeight] ([None] while undefined) beside those of the
    listeners; then what the control works on: whether an ad is shown
    ([player.isAd()]), the class [op-fullscreen__on] of the body, the
    attribute [aria-pressed] of the button, the styles [width] and
    [height] of the container and of the element, and the calls so far. *)
Record Display : Type := mkDisplay {
  component : Fullscreen.State;
  isFullscreen : bool;
  fullScreenEnabled : bool;
  fullscreenWidth : option Z;
  fullscreenHeight : option Z;
  isAd : bool;
  body_fullscreen_on : bool;
  aria_pressed : bool;
  wrapper_width : option string;
  wrapper_height : option string;
  video_width : option string;
  video_height : option string;
  calls : list Call
}.

Definition set_component (v : Fullscreen.State) (st : Display) : Display :=
  mkDisplay v (isFullscreen st) (fullScreenEnabled st) (fullscreenWidth st)
            (fullscreenHeight st) (isAd st) (body_fullscreen_on st)
            (aria_pressed st) (wrapper_width st) (wrapper_height st)
            (video_width st) (video_height st) (calls st).
Definition set_isFullscreen (v : bool) (st : Display) : Display :=
  mkDisplay (component st) v (fullScreenEnabled st) (fullscreenWidth st)
            (fullscreenHeight st) (isAd st) (body_fullscreen_on st)
            (aria_pressed st) (wrapper_width st) (wrapper_height st)
            (video_width st) (video_height st) (calls st).
Definition set_fullscreenWidth (v : option Z) (st : Display) : Display :=
  mkDisplay (component st) (isFullscreen st) (fullScreenEnabled st) v
            (fullscreenHeight st) (isAd st) (body_fullscreen_on st)
            (aria_pressed st) (wrapper_width st) (wrapper_height st)
            (video_width st) (video_height st) (calls st).
Definition set_fullscreenHeight (v : option Z) (st : Display) : Display :=
  mkDisplay (component st) (isFullscreen st) (fullScreenEnabled st)
            (fullscreenWidth st) v (isAd st) (body_fullscreen_on st)
            (aria_pressed st) (wrapper_width st) (wrapper_height st)
            (video_width st) (video_height st) (calls st).
Definition set_body_fullscreen_on (v : bool) (st : Display) : Display :=
  mkDisplay (component st) (isFullscreen st) (fullScreenEnabled st)
            (fullscreenWidth st) (fullscreenHeight st) (isAd st) v
            (aria_pressed st) (wrapper_width st) (wrapper_height st)
            (video_width st) (video_height st) (calls st).
Definition set_aria_pressed (v : bool) (st : Display) : Display :=
  mkDisplay (component st) (isFullscreen st) (fullScreenEnabled st)
            (fullscreenWidth st) (fullscreenHeight st) (isAd st)
            (body_fullscreen_on st) v (wrapper_width st) (wrapper_height st)
            (video_width st) (video_height st) (calls st).
Definition set_styles (w h : option string) (st : Display) : Display :=
  mkDisplay (component st) (isFullscreen st) (fullScreenEnabled st)
            (fullscreenWidth st) (fullscreenHeight st) (isAd st)
            (body_fullscreen_on st) (aria_pressed st) w h w h (calls st).
Definition set_calls (v : list Call) (st : Display) : Display :=
  mkDisplay (component st) (isFullscreen st) (fullScreenEnabled st)
            (fullscreenWidth st) (fullscreenHeight st) (isAd st)
            (body_fullscreen_on st) (aria_pressed st) (wrapper_width st)
            (wrapper_height st) (video_width st) (video_height st) v.

Definition emit (c : Call) : M Display unit :=
  update (fun st => set_calls (calls st ++ [c])%list st).

(** Code of the control that works on the button and the listeners. *)
Definition on_component {A : Type} (m : M Fullscreen.State A) : M Display A :=
  fun st => (set_component (fst (m (component st))) st, snd (m (component st))).

(** A number in a condition: [undefined] and [0] count as false. *)
Definition truthy (n : option Z) : bool :=
  match n with
  | Some z => negb (z =? 0)
  | None => false
  end.

(** [width ? '100%' : null] *)
Definition full_or_null (n : option Z) : option string :=
  if truthy n then Some "100%" else None.

(** [_resize(width, height)] *)
Definition _resize (width height : option Z) : M Display unit :=
  update (set_styles (full_or_null width) (full_or_null height)).

(** [_fullscreenChange] *)
Definition _fullscreenChange : M Display unit :=
  st <- get ;;
  let width := if isFullscreen st then Some 0 else fullscreenWidth st in
  let height := if isFullscreen st then Some 0 else fullscreenHeight st in
  on_component (_setFullscreenData (negb (isFullscreen st))) ;;
  when (isAd st) (emit (ResizeAds width height)) ;;
  update (set_isFullscreen (negb (isFullscreen st))) ;;
  st' <- get ;;
  update (set_body_fullscreen_on (isFullscreen st')) ;;
  _resize width height.

(** What [_fullscreenChange] leaves. *)
Definition changed (st : Display) : Display :=
  let width := if isFullscreen st then Some 0 else fullscreenWidth st in
  let height := if isFullscreen st then Some 0 else fullscreenHeight st in
  set_styles (full_or_null width) (full_or_null height)
    (set_body_fullscreen_on (negb (isFullscreen st))
       (set_isFullscreen (negb (isFullscreen st))
          ((if isAd st
            then fun s => set_calls (calls s ++ [ResizeAds width height])%list s
            else fun s => s)
             (set_component
                (set_button_out_class (negb (isFullscreen st))
                   (set_data_fullscreen (Some (negb (isFullscreen st)))
                      (component st))) st)))).

Section Browser.

(** Which of the functions the document and the element have, and
    [window.screen.width] and [window.screen.height]. *)
Variable document_has : ExitApi -> bool.
Variable video_has : RequestApi -> bool.
Variable screen_width : Z.
Variable screen_height : Z.

(** [toggleFullscreen] *)
Definition toggleFullscreen : M Display unit :=
  st <- get ;;
  if isFullscreen st then
    (if document_has ExitFullscreen then emit (Exit ExitFullscreen)
     else if document_has MozCancelFullScreen then emit (Exit MozCancelFullScreen)
     else if document_has WebkitCancelFullScreen then emit (Exit WebkitCancelFullScreen)
     else if document_has MsExitFullscreen then emit (Exit MsExitFullscreen)
     else _fullscreenChange) ;;
    update (set_body_fullscreen_on false)
  else
    update (set_fullscreenWidth (Some screen_width)) ;;
    update (set_fullscreenHeight (Some screen_height)) ;;
    (if video_has RequestFullscreen then emit (Request RequestFullscreen)
     else if video_has MozRequestFullScreen then emit (Request MozRequestFullScreen)
     else if video_has WebkitRequestFullScreen then emit (Request WebkitRequestFullScreen)
     else if video_has MsRequestFullscreen then emit (Request MsRequestFullscreen)
     else if video_has WebkitEnterFullscreen then emit (Request WebkitEnterFullscreen)
     else _fullscreenChange) ;;
    update (set_body_fullscreen_on true).

(** A keyboard event: [which] and [keyCode] ([None] for [undefined]) and
    [ctrlKey]. *)
Record KeyboardEvent : Type := mkKeyboardEvent {
  which : option Z;
  keyCode : option Z;
  ctrlKey : bool
}.

(** [e.which || e.keyCode || 0] *)
Definition key_of (e : KeyboardEvent) : Z :=
  if truthy (which e) then match which e with Some k => k | None => 0 end
  else if truthy (keyCode e) then match keyCode e with Some k => k | None => 0 end
  else 0.

(** [_keydownEvent(e)]; [fullScreenEnabled] holds a boolean, so that its
    [typeof] is never ['undefined']. *)
Definition _keydownEvent (e : KeyboardEvent) : M Display unit :=
  when ((key_of e =? 70) && negb (ctrlKey e) && true)
       (toggleFullscreen ;; emit PreventDefault).

(** The function kept in [clickEvent] *)
Definition clickEvent_code : M Display unit :=
  update (set_aria_pressed true) ;;
  toggleFullscreen.

(** The arrow functions for the iPhone. *)
Definition webkit_fullscreen (entering data : bool) : M Display unit :=
  update (set_isFullscreen entering) ;;
  on_component (_setFullscreenData data) ;;
  update (set_body_fullscreen_on entering).

(** Running the code of a function object. *)
Definition run_code (c : Code) (e : KeyboardEvent) : M Display unit :=
  match c with
  | KeydownEvent => _keydownEvent e
  | FullscreenChange => _fullscreenChange
  | ClickEvent => clickEvent_code
  | WebkitFullscreen entering data => webkit_fullscreen entering data
  end.

(** An event of the type on the target: the listeners registered there
    for it run in the order they were added; one that throws does not
    keep the others from running. *)
Fixpoint run_listeners (rs : list Registration) (t : Target) (type : string)
         (e : KeyboardEvent) : M Display unit :=
  match rs with
  | [] => ret tt
  | r :: rest =>
      when (target_eqb t (reg_target r) && String.eqb type (reg_type r))
           (catch (run_code (fn_code (reg_listener r)) e) (fun _ => ret tt)) ;;
      run_listeners rest t type e
  end.

Definition dispatchEvent (t : Target) (type : string) (e : KeyboardEvent)
  : M Display unit :=
  st <- get ;;
  run_listeners (listeners (component st)) t type e.

(** *** What the functions leave *)

(** What [toggleFullscreen] leaves in a browser without the functions. *)
Definition toggled (st : Display) : Display :=
  if isFullscreen st then changed st
  else changed (set_fullscreenHeight (Some screen_height)
                  (set_fullscreenWidth (Some screen_width) st)).

(** What [toggleFullscreen] leaves when it calls a function of the
    browser. *)
Definition asked (c : Call) (st : Display) : Display :=
  set_body_fullscreen_on (negb (isFullscreen st))
    (set_calls (calls st ++ [c])%list
       (if isFullscreen st then st
        else set_fullscreenHeight (Some screen_height)
               (set_fullscreenWidth (Some screen_width) st))).

End Browser.

(** [new Fullscreen(player, position)]: [isFullscreen] is read off the
    class of the body. *)
Definition constructor (body_on enabled ad : bool) : Display :=
  mkDisplay Fullscreen.constructor body_on enabled None None ad body_on false
            None None None None [].

(** *** Vocabulary for the properties *)

(** The field, the class of the body, the attribute of the container and
    the class of the button all say the same. *)
Definition in_step (st : Display) : Prop :=
  body_fullscreen_on st = isFullscreen st /\
  data_fullscreen (component st) = Some (isFullscreen st) /\
  button_out_class (component st) = isFullscreen st.

(** The browser has none of the functions. *)
Definition no_native_api (document_has : ExitApi -> bool)
           (video_has : RequestApi -> bool) : Prop :=
  (forall api, document_has api = false) /\ (forall api, video_has api = false).

(** The key F, no modifier. *)
Definition key_F : KeyboardEvent := mkKeyboardEvent (Some 70) (Some 70) false.

End Screen.

(** ** Ads: the setters [volume] and [muted] *)

Module AdsSound.
Import Js Ads.

Local Open Scope string_scope.
Local Open Scope js_scope.

(** [set volume(value)] *)
Definition set_volume (value : Media.number) : M State unit :=
  st <- get ;;
  match adsManager st with
  | Some _ =>
      update (set_adsVolume value) ;;
      manager_call "setVolume" ;;
      _setMediaVolume value ;;
      update (set_adsMuted (Qeq_bool value 0%Q))
  | None => ret tt
  end.

(** [set muted(value)] *)
Definition set_muted (value : bool) : M State unit :=
  st <- get ;;
  match adsManager st with
  | Some _ =>
      if value then
        manager_call "setVolume" ;;
        update (set_adsMuted true) ;;
        _setMediaVolume 0%Q
      else
        manager_call "setVolume" ;;
        update (set_adsMuted false) ;;
        st' <- get ;;
        _setMediaVolume (adsVolume st')
  | None => ret tt
  end.

(** [get muted()] *)
Definition get_muted (st : State) : bool := adsMuted st.

End AdsSound.

(** ** Ads: events without an ad *)

Module AdsEvents.
Import Ads.

(** The types of events for which [_assign] calls [ad.isLinear()]. *)
Definition reads_ad (t : AdEventType) : bool :=
  match t with
  | LOADED | STARTED | COMPLETE | SKIPPED
  | VOLUME_CHANGED | VOLUME_MUTED | ALL_ADS_COMPLETED => true
  | _ => false
  end.

End AdsEvents.

(** * Part II: properties *)
(* ================================================================== *)

Module JsFacts.

Lemma to_int32_small z : 0 <= z < 2 ^ 31 -> to_int32 z = z.
Proof.
  intros Hz. unfold to_int32.
  rewrite Z.mod_small by lia.
  destruct (z <? 2 ^ 31) eqn:E; [reflexivity|].
  apply Z.ltb_ge in E. lia.
Qed.

Lemma sar_1_small z : 0 <= z < 2 ^ 31 -> sar z 1 = z / 2.
Proof.
  intros Hz. unfold sar. rewrite to_int32_small by assumption.
  change (1 mod 32) with 1. rewrite Z.shiftr_div_pow2 by lia.
  reflexivity.
Qed.

Lemma index_Some {A} (arr : list A) i x :
  index arr i = Some x -> 0 <= i < len arr.
Proof.
  unfold index, len. destruct (i <? 0) eqn:E; [discriminate|].
  apply Z.ltb_ge in E. intros H.
  assert (Z.to_nat i < List.length arr)%nat
    by (apply nth_error_Some; congruence).
  lia.
Qed.

Lemma index_in_range {A} (arr : list A) i :
  0 <= i < len arr -> exists x, index arr i = Some x.
Proof.
  intros Hi. unfold index, len in *.
  destruct (i <? 0) eqn:E; [apply Z.ltb_lt in E; lia|].
  destruct (nth_error arr (Z.to_nat i)) eqn:N; [eauto|].
  apply nth_error_None in N. lia.
Qed.

Lemma preserves_ret {S A} (I : S -> Prop) (a : A) : preserves I (ret a).
Proof. intros s H. exact H. Qed.

Lemma preserves_throw {S A} (I : S -> Prop) e : preserves I (@throw S A e).
Proof. intros s H. exact H. Qed.

Lemma preserves_get {S} (I : S -> Prop) : preserves I (@get S).
Proof. intros s H. exact H. Qed.

Lemma preserves_update {S} (I : S -> Prop) (f : S -> S) :
  (forall s, I s -> I (f s)) -> preserves I (update f).
Proof. intros H s Hs. apply H. exact Hs. Qed.

Lemma preserves_bind {S A B} (I : S -> Prop) (m : M S A) (k : A -> M S B) :
  preserves I m -> (forall a, preserves I (k a)) -> preserves I (bindM m k).
Proof.
  intros Hm Hk s Hs. unfold bindM. specialize (Hm s Hs).
  destruct (m s) as [s' [a|e|]]; simpl in *; try exact Hm.
  apply Hk. exact Hm.
Qed.

Lemma preserves_catch {S A} (I : S -> Prop) (m : M S A) h :
  preserves I m -> (forall e, preserves I (h e)) -> preserves I (catch m h).
Proof.
  intros Hm Hh s Hs. unfold catch. specialize (Hm s Hs).
  destruct (m s) as [s' [a|e|]]; simpl in *; try exact Hm.
  apply Hh. exact Hm.
Qed.

Lemma preserves_when {S} (I : S -> Prop) c (m : M S unit) :
  preserves I m -> preserves I (when c m).
Proof. intros H. destruct c; simpl; [exact H|apply preserves_ret]. Qed.







Lemma bindM_update {S B} (f : S -> S) (k : unit -> M S B) s :
  bindM (update f) k s = k tt (f s).
Proof. reflexivity. Qed.

Lemma bindM_get {S B} (k : S -> M S B) s : bindM get k s = k s s.
Proof. reflexivity. Qed.

Lemma bindM_returns {S A B} (m : M S A) (k : A -> M S B) s s' a :
  m s = (s', Normal a) -> bindM m k s = k a s'.
Proof. intros H. unfold bindM. rewrite H. reflexivity. Qed.

End JsFacts.

Module SearchFacts.
Import Captions JsFacts.

Lemma Qlt_bool_iff x y : Qlt_bool x y = true <-> (x < y)%Q.
Proof.
  unfold Qlt_bool. rewrite negb_true_iff.
  split; intros H.
  - apply Qnot_le_lt. intros L. apply Qle_bool_iff in L. congruence.
  - destruct (Qle_bool y x) eqn:E; [|reflexivity].
    apply Qle_bool_iff in E. exfalso. revert E. apply Qlt_not_le. exact H.
Qed.

Lemma Qlt_bool_false x y : Qlt_bool x y = false <-> (y <= x)%Q.
Proof.
  unfold Qlt_bool. rewrite negb_false_iff. apply Qle_bool_iff.
Qed.

Lemma Qle_bool_false x y : Qle_bool x y = false <-> (y < x)%Q.
Proof.
  split; intros H.
  - apply Qnot_le_lt. intros L. apply Qle_bool_iff in L. congruence.
  - destruct (Qle_bool x y) eqn:E; [|reflexivity].
    apply Qle_bool_iff in E. exfalso. revert E. apply Qlt_not_le. exact H.
Qed.

(** The test of the first branch of the loop decides [contains]. *)
Lemma contains_test c t :
  Qle_bool (startTime c) t && Qlt_bool t (endTime c) = true <-> contains c t.
Proof.
  unfold contains. rewrite andb_true_iff, Qle_bool_iff, Qlt_bool_iff.
  tauto.
Qed.

(** An iteration that finds a cue starting exactly at [currentTime] whose
    end is not later takes none of the three branches: the loop state is
    the same at the next iteration, whatever fuel is left. *)
Lemma search_loop_stuck fuel tracks t low high c :
  low <= high ->
  index tracks (sar (low + high) 1) = Some c ->
  (startTime c == t)%Q -> (endTime c <= t)%Q ->
  search_loop fuel tracks t low high = OutOfFuel.
Proof.
  intros Hlh Hc Hs He.
  induction fuel as [|fuel IH]; simpl.
  - destruct (low <=? high) eqn:E; [reflexivity|].
    apply Z.leb_gt in E. lia.
  - destruct (low <=? high) eqn:E; [|apply Z.leb_gt in E; lia].
    rewrite Hc.
    assert (T1 : Qlt_bool t (endTime c) = false)
      by (apply Qlt_bool_false; exact He).
    assert (T2 : Qlt_bool (startTime c) t = false)
      by (apply Qlt_bool_false; rewrite Hs; apply Qle_refl).
    assert (T3 : Qlt_bool t (startTime c) = false)
      by (apply Qlt_bool_false; rewrite Hs; apply Qle_refl).
    rewrite T1, T2, T3, andb_false_r. exact IH.
Qed.

Lemma search_loop_correct tracks t :
  len tracks < 2 ^ 30 ->
  sorted_by_start tracks -> non_overlapping tracks -> proper tracks ->
  forall fuel low high,
    0 <= low -> high < len tracks ->
    high - low < Z.of_nat fuel ->
    candidates_within tracks t low high ->
    exists r, search_loop fuel tracks t low high = Normal r /\
              search_answer tracks t r.
Proof.
  intros Hlen Hsorted Hdisj Hproper.
  induction fuel as [|fuel IH]; intros low high Hlow Hhigh Hfuel Hinv.
  - simpl. destruct (low <=? high) eqn:E; [apply Z.leb_le in E; lia|].
    exists (-1). split; [reflexivity|]. right. split; [reflexivity|].
    intros k c Hk Hc. apply Z.leb_gt in E.
    specialize (Hinv k c Hk Hc). lia.
  - simpl. destruct (low <=? high) eqn:E.
    2:{ exists (-1). split; [reflexivity|]. right. split; [reflexivity|].
        intros k c Hk Hc. apply Z.leb_gt in E.
        specialize (Hinv k c Hk Hc). lia. }
    apply Z.leb_le in E.
    rewrite sar_1_small by lia.
    set (mid := (low + high) / 2).
    assert (Hmid : low <= mid <= high).
    { subst mid. split.
      - apply Z.div_le_lower_bound; lia.
      - apply Z.div_le_upper_bound; lia. }
    destruct (index_in_range tracks mid) as [c Hc]; [lia|].
    rewrite Hc.
    destruct (Qle_bool (startTime c) t && Qlt_bool t (endTime c)) eqn:T0.
    { exists mid. split; [reflexivity|]. left. exists c. split; [exact Hc|].
      apply contains_test. exact T0. }
    assert (Hnot : ~ contains c t).
    { intros Hin. apply contains_test in Hin. congruence. }
    destruct (Qlt_bool (startTime c) t) eqn:T1.
    { apply Qlt_bool_iff in T1.
      apply IH; try lia.
      intros k ck Hk Hin.
      destruct (Hinv k ck Hk Hin) as [Hk1 Hk2]. split; [|exact Hk2].
      destruct (Z_lt_le_dec mid k) as [|Hle]; [lia|]. exfalso.
      assert (Hneq : k <> mid).
      { intros ->. rewrite Hc in Hk. injection Hk as <-. exact (Hnot Hin). }
      assert (Hend : (endTime ck <= startTime c)%Q)
        by (apply (Hdisj k mid ck c); [lia|assumption|assumption]).
      destruct Hin as [_ Hin]. lra. }
    destruct (Qlt_bool t (startTime c)) eqn:T2.
    { apply Qlt_bool_iff in T2.
      apply IH; try lia.
      intros k ck Hk Hin.
      destruct (Hinv k ck Hk Hin) as [Hk1 Hk2]. split; [exact Hk1|].
      destruct (Z_lt_le_dec k mid) as [|Hle]; [lia|]. exfalso.
      assert (Hneq : k <> mid).
      { intros ->. rewrite Hc in Hk. injection Hk as <-. exact (Hnot Hin). }
      assert (Hst : (startTime c <= startTime ck)%Q)
        by (apply (Hsorted mid k c ck); [lia|assumption|assumption]).
      destruct Hin as [Hin _]. lra. }
    exfalso. apply Hnot.
    apply Qlt_bool_false in T1. apply Qlt_bool_false in T2.
    specialize (Hproper mid c Hc).
    split; lra.
Qed.

(** More fuel does not change the answer of a loop that returned. *)
Lemma search_loop_more_fuel tracks t r :
  forall fuel fuel' low high, (fuel <= fuel')%nat ->
    search_loop fuel tracks t low high = Normal r ->
    search_loop fuel' tracks t low high = Normal r.
Proof.
  induction fuel as [|fuel IH]; intros fuel' low high Hle H.
  - simpl in H. destruct (low <=? high) eqn:E; [discriminate|].
    destruct fuel'; simpl; rewrite E; exact H.
  - destruct fuel' as [|fuel']; [lia|].
    simpl in *. destruct (low <=? high); [|exact H].
    destruct (index tracks (sar (low + high) 1)) as [c|]; [|exact H].
    destruct (Qle_bool (startTime c) t && Qlt_bool t (endTime c)); [exact H|].
    destruct (Qlt_bool (startTime c) t); [apply IH; [lia|exact H]|].
    destruct (Qlt_bool t (startTime c)); apply IH; solve [lia|exact H].
Qed.

(** C1, for cues of positive length: on fewer than 2^30 cues that are sorted by start time,
    do not overlap and each have [startTime < endTime], [_search] returns
    (with fuel for one iteration per cue, and with any larger fuel) one
    result [r]; [r] is the index of a cue whose interval contains the time
    whenever there is one, and [-1] when no cue contains it. *)
Theorem search_finds_cue tracks t :
  len tracks < 2 ^ 30 ->
  sorted_by_start tracks -> non_overlapping tracks -> proper tracks ->
  exists r,
    (forall fuel, (List.length tracks <= fuel)%nat ->
                  _search fuel tracks t = Normal r) /\
    search_answer tracks t r.
Proof.
  intros Hlen Hs Hd Hp.
  destruct (search_loop_correct tracks t Hlen Hs Hd Hp
              (List.length tracks) 0 (len tracks - 1)) as [r [Hr Ha]].
  - lia.
  - lia.
  - unfold len. lia.
  - intros k c Hk _. apply index_Some in Hk. lia.
  - exists r. split; [|exact Ha].
    intros fuel Hfuel. unfold _search.
    eapply search_loop_more_fuel; eassumption.
Qed.

Lemma sorted_singleton c : sorted_by_start [c].
Proof.
  intros i j ci cj Hij Hi Hj.
  apply index_Some in Hi. apply index_Some in Hj. unfold len in *. simpl in *.
  lia.
Qed.

Lemma non_overlapping_singleton c : non_overlapping [c].
Proof.
  intros i j ci cj Hij Hi Hj.
  apply index_Some in Hi. apply index_Some in Hj. unfold len in *. simpl in *.
  lia.
Qed.

Lemma index_singleton (c : Cue) k x : index [c] k = Some x -> k = 0 /\ x = c.
Proof.
  intros H. pose proof (index_Some _ _ _ H) as R. unfold len in R. simpl in R.
  assert (k = 0) by lia. subst k. split; [reflexivity|].
  unfold index in H. simpl in H. congruence.
Qed.

(** Witness of [search_finds_cue]: two cues, the time inside the second. *)
Lemma search_finds_cue_witness :
  exists r,
    (forall fuel, (2 <= fuel)%nat ->
       _search fuel [cue 0 1; cue 1 (5 # 2)] (3 # 2) = Normal r) /\
    search_answer [cue 0 1; cue 1 (5 # 2)] (3 # 2) r.
Proof.
  apply (search_finds_cue [cue 0 1; cue 1 (5 # 2)] (3 # 2)).
  - vm_compute. reflexivity.
  - intros i j ci cj Hij Hi Hj.
    pose proof (index_Some _ _ _ Hi) as Ri. pose proof (index_Some _ _ _ Hj) as Rj.
    unfold len in *. simpl in *.
    assert (i = 0) by lia. assert (j = 1) by lia. subst i j.
    unfold index in Hi, Hj. simpl in Hi, Hj.
    injection Hi as <-. injection Hj as <-. simpl. lra.
  - intros i j ci cj Hij Hi Hj.
    pose proof (index_Some _ _ _ Hi) as Ri. pose proof (index_Some _ _ _ Hj) as Rj.
    unfold len in *. simpl in *.
    assert (i = 0) by lia. assert (j = 1) by lia. subst i j.
    unfold index in Hi, Hj. simpl in Hi, Hj.
    injection Hi as <-. injection Hj as <-. simpl. lra.
  - intros i c Hi.
    pose proof (index_Some _ _ _ Hi) as Ri. unfold len in Ri. simpl in Ri.
    assert (i = 0 \/ i = 1) as [-> | ->] by lia;
      unfold index in Hi; simpl in Hi; injection Hi as <-; simpl; lra.
Defined.

(** C1 as stated fails: a single cue of zero length, [1 --> 1], is a list
    sorted by start time with no overlap, no cue contains the time [1], and
    [_search] does not answer [-1]: the loop never ends. *)
Lemma search_zero_length_cue_counterexample :
  sorted_by_start [cue 1 1] /\ non_overlapping [cue 1 1] /\
  (forall k c, index [cue 1 1] k = Some c -> ~ contains c 1) /\
  (forall fuel, _search fuel [cue 1 1] 1 = OutOfFuel) /\
  ~ (exists fuel, _search fuel [cue 1 1] 1 = Normal (-1)).
Proof.
  assert (Hstuck : forall fuel, _search fuel [cue 1 1] 1 = OutOfFuel).
  { intros fuel. unfold _search.
    apply (search_loop_stuck fuel [cue 1 1] 1 0 (len [cue 1 1] - 1) (cue 1 1)).
    - vm_compute. discriminate.
    - reflexivity.
    - reflexivity.
    - apply Qle_refl. }
  split; [apply sorted_singleton|].
  split; [apply non_overlapping_singleton|].
  split.
  - intros k c Hk [H1 H2]. apply index_singleton in Hk as [_ ->].
    simpl in *. lra.
  - split; [exact Hstuck|].
    intros [fuel H]. rewrite Hstuck in H. discriminate.
Qed.

(** C8 fails: the search over a single cue whose
    end is not later than its start never returns when asked for the start
    time of that cue; every amount of fuel is used up. *)
Theorem search_runs_forever_on_empty_cue start stop :
  (stop <= start)%Q ->
  forall fuel, _search fuel [cue start stop] start = OutOfFuel.
Proof.
  intros Hle fuel. unfold _search.
  apply (search_loop_stuck fuel _ _ _ _ (cue start stop)).
  - vm_compute. discriminate.
  - reflexivity.
  - reflexivity.
  - exact Hle.
Qed.

(** Witness of [search_runs_forever_on_empty_cue]: the inverted cue
    [2 --> 1], asked at time [2], with fuel for a thousand iterations. *)
Lemma search_runs_forever_witness :
  _search 1000 [cue 2 1] 2 = OutOfFuel.
Proof.
  apply (search_runs_forever_on_empty_cue 2 1); vm_compute; discriminate.
Defined.

End SearchFacts.

Module ParserFacts.
Import Captions JsFacts.

Local Open Scope string_scope.
Local Open Scope Z_scope.

Lemma len_app {A} (xs ys : list A) : len (xs ++ ys) = len xs + len ys.
Proof. unfold len. rewrite length_app. lia. Qed.

Lemma len_cons {A} (x : A) xs : len (x :: xs) = 1 + len xs.
Proof. unfold len. simpl List.length. lia. Qed.

Lemma len_nonneg {A} (xs : list A) : 0 <= len xs.
Proof. unfold len. lia. Qed.

Lemma index_app_head {A} (done : list A) x rest :
  index (done ++ x :: rest) (len done) = Some x.
Proof.
  unfold index, len.
  destruct (Z.of_nat (List.length done) <? 0) eqn:E;
    [apply Z.ltb_lt in E; lia|].
  rewrite Nat2Z.id, nth_error_app2 by lia.
  rewrite Nat.sub_diag. reflexivity.
Qed.

Lemma index_at_len {A} (xs : list A) k : len xs <= k -> index xs k = None.
Proof.
  intros Hk. unfold index, len in *.
  destruct (k <? 0) eqn:E; [reflexivity|].
  apply nth_error_None. lia.
Qed.

Section Scanner.

Variable timeToSeconds : string -> Q.
Variable isJson : string -> bool.

Local Abbreviation make_entry := (make_entry timeToSeconds isJson).
Local Abbreviation scan_line := (scan_line timeToSeconds isJson).
Local Abbreviation scan_end := (scan_end timeToSeconds isJson).
Local Abbreviation lines_loop := (lines_loop timeToSeconds isJson).

Lemma text_loop_eq fuel lines cue i :
  text_loop fuel lines cue i =
  if not_empty_line (index lines i) && (i <? len lines) then
    match fuel with
    | O => OutOfFuel
    | S fuel' =>
        text_loop fuel' lines
          (Some (to_display cue ++ String LF (to_display (index lines i))))
          (i + 1)
    end
  else Normal (cue, i).
Proof. destruct fuel; reflexivity. Qed.

(** The inner loop gathers the lines up to the first empty one, as the
    scanner does from the state [InText]. *)
Lemma text_loop_scan m ident entries :
  forall rest done txt fuel,
    (List.length rest <= fuel)%nat ->
    exists txt' i3,
      text_loop fuel (done ++ rest) (Some txt) (len done)
        = Normal (Some txt', i3) /\
      ((exists body rest',
           rest = (body ++ EmptyString :: rest')%list /\
           i3 = len done + len body /\
           fold_left scan_line rest (InText m ident txt, entries)
             = fold_left scan_line rest'
                 (Scanning (Some EmptyString),
                  (entries ++ [make_entry m ident (finish_text txt')])%list))
       \/ (i3 = len (done ++ rest) /\
           fold_left scan_line rest (InText m ident txt, entries)
             = (InText m ident txt', entries))).
Proof.
  induction rest as [|l rest1 IH]; intros done txt fuel Hfuel.
  - exists txt, (len done). rewrite text_loop_eq.
    rewrite app_nil_r, index_at_len by lia.
    rewrite Z.ltb_irrefl, andb_false_r.
    split; [reflexivity|]. right. split; reflexivity.
  - rewrite text_loop_eq, index_app_head.
    assert (Hlt : (len done <? len (done ++ l :: rest1)) = true).
    { apply Z.ltb_lt. rewrite len_app, len_cons. pose proof (len_nonneg rest1). lia. }
    rewrite Hlt, andb_true_r. simpl not_empty_line.
    destruct (String.eqb l EmptyString) eqn:El.
    + apply String.eqb_eq in El. subst l. simpl negb. cbv iota.
      exists txt, (len done). split; [reflexivity|]. left.
      exists [], rest1. split; [reflexivity|]. split; [unfold len; simpl; lia|].
      reflexivity.
    + simpl negb. cbv iota.
      destruct fuel as [|fuel']; [simpl in Hfuel; lia|].
      simpl to_display.
      assert (Hl : (done ++ l :: rest1 = (done ++ [l]) ++ rest1)%list)
        by (rewrite <- app_assoc; reflexivity).
      assert (Hi : len done + 1 = len (done ++ [l]))
        by (rewrite len_app; unfold len; simpl; lia).
      rewrite Hl, Hi.
      destruct (IH (done ++ [l])%list (txt ++ String LF l) fuel')
        as [txt' [i3 [Hrun Hcases]]]; [simpl in Hfuel; lia|].
      exists txt', i3. split; [exact Hrun|].
      destruct Hcases as [[body [rest' [Hrest [Hi3 Hfold]]]] | [Hi3 Hfold]].
      * left. exists (l :: body), rest'. split; [rewrite Hrest; reflexivity|].
        split; [rewrite Hi3, <- Hi, len_cons; lia|].
        simpl fold_left. unfold Captions.scan_line at 2. simpl fst. simpl snd.
        rewrite El. exact Hfold.
      * right. split; [exact Hi3|].
        simpl fold_left. unfold Captions.scan_line at 2. simpl fst. simpl snd.
        rewrite El. exact Hfold.
Qed.

Lemma lines_loop_eq fuel lines i ident entries :
  lines_loop fuel lines i ident entries =
  if i <? len lines then
    match fuel with
    | O => OutOfFuel
    | S fuel' =>
        match option_map regexp_exec (index lines i) with
        | Some (Some timecode) =>
            let ident1 :=
              if (i - 1 >=? 0) && not_empty_line (index lines (i - 1))
              then index lines (i - 1) else ident in
            match text_loop fuel' lines (index lines (i + 1)) (i + 1 + 1) with
            | Normal (Some cue', i3) =>
                lines_loop fuel' lines (i3 + 1) (Some EmptyString)
                  (entries ++ [make_entry timecode ident1 (finish_text cue')])%list
            | Normal (None, _) =>
                Throw (TypeError "Cannot read properties of undefined (reading 'trim')")
            | Throw e => Throw e
            | OutOfFuel => OutOfFuel
            end
        | _ => lines_loop fuel' lines (i + 1) (Some EmptyString) entries
        end
    end
  else Normal entries.
Proof. destruct fuel; reflexivity. Qed.

Lemma last_line_snoc done l : last_line (done ++ [l]) = Some l.
Proof. unfold last_line. rewrite rev_app_distr. reflexivity. Qed.

Lemma ident_var_snoc done (l : string) : ident_var (done ++ [l]) = Some EmptyString.
Proof. destruct done; reflexivity. Qed.

(** The identifier chosen at a matching line is the line before it. *)
Lemma ident_choice done l rest :
  (if (len done - 1 >=? 0) && not_empty_line (index (done ++ l :: rest) (len done - 1))
   then index (done ++ l :: rest) (len done - 1) else ident_var done)
  = last_line done.
Proof.
  induction done as [|x d _] using rev_ind; [reflexivity|].
  rewrite last_line_snoc, ident_var_snoc.
  assert (Hi : len (d ++ [x]) - 1 = len d)
    by (rewrite len_app; unfold len; simpl; lia).
  rewrite Hi, <- app_assoc. simpl app. rewrite index_app_head.
  assert (Hge : (len d >=? 0) = true).
  { pose proof (len_nonneg d). apply Z.geb_le. lia. }
  rewrite Hge. simpl andb. simpl not_empty_line.
  destruct (String.eqb x EmptyString) eqn:Ex; simpl negb; cbv iota.
  - apply String.eqb_eq in Ex. subst x. reflexivity.
  - reflexivity.
Qed.

(** The [for] loop, started after the lines [done], does what the scanner
    does on the remaining lines. *)
Lemma lines_loop_scan :
  forall fuel rest done entries,
    (List.length rest < fuel)%nat ->
    lines_loop fuel (done ++ rest) (len done) (ident_var done) entries
    = scan_end (fold_left scan_line rest (Scanning (last_line done), entries)).
Proof.
  induction fuel as [|fuel IH]; intros rest done entries Hfuel; [lia|].
  rewrite lines_loop_eq.
  destruct rest as [|l rest1].
  - rewrite app_nil_r, Z.ltb_irrefl. reflexivity.
  - assert (Hlt : (len done <? len (done ++ l :: rest1)) = true).
    { apply Z.ltb_lt. rewrite len_app, len_cons. pose proof (len_nonneg rest1). lia. }
    rewrite Hlt, index_app_head. simpl option_map.
    assert (Hnext : (done ++ l :: rest1 = (done ++ [l]) ++ rest1)%list)
      by (rewrite <- app_assoc; reflexivity).
    assert (Hi : len done + 1 = len (done ++ [l]))
      by (rewrite len_app; unfold len; simpl; lia).
    simpl fold_left. unfold Captions.scan_line at 2. simpl fst. simpl snd.
    destruct (regexp_exec l) as [m|] eqn:Em.
    + cbv zeta. rewrite ident_choice.
      destruct rest1 as [|first rest2].
      * rewrite (index_at_len (done ++ [l])) by (rewrite len_app; unfold len; simpl; lia).
        rewrite text_loop_eq.
        rewrite (index_at_len (done ++ [l])) by (rewrite len_app; unfold len; simpl; lia).
        assert (Hge : (len done + 1 + 1 <? len (done ++ [l])) = false)
          by (apply Z.ltb_ge; rewrite len_app; unfold len; simpl; lia).
        rewrite Hge, andb_false_r. reflexivity.
      * rewrite Hnext, Hi, index_app_head.
        assert (Hnext2 : ((done ++ [l]) ++ first :: rest2
                          = ((done ++ [l]) ++ [first]) ++ rest2)%list)
          by (rewrite <- (app_assoc (done ++ [l])); reflexivity).
        assert (Hi2 : len (done ++ [l]) + 1 = len ((done ++ [l]) ++ [first]))
          by (rewrite (len_app (done ++ [l])); unfold len; simpl; lia).
        rewrite Hnext2, Hi2.
        destruct (text_loop_scan m (last_line done) entries rest2
                    ((done ++ [l]) ++ [first])%list first fuel)
          as [txt' [i3 [Hrun Hcases]]]; [simpl in Hfuel; lia|].
        rewrite Hrun.
        simpl fold_left. unfold Captions.scan_line at 2. simpl fst. simpl snd.
        destruct Hcases as [[body [rest' [Hrest [Hi3 Hfold]]]] | [Hi3 Hfold]].
        -- rewrite Hfold.
           set (done' := ((((done ++ [l]) ++ [first]) ++ body) ++ [EmptyString])%list).
           assert (Hlines : ((((done ++ [l]) ++ [first]) ++ rest2) = done' ++ rest')%list).
           { subst done'. rewrite Hrest. rewrite <- !app_assoc. reflexivity. }
           assert (Hi3' : i3 + 1 = len done').
           { subst done'. rewrite Hi3, !len_app. unfold len; simpl; lia. }
           rewrite Hlines, Hi3'.
           replace (Some EmptyString) with (ident_var done') at 1
             by (subst done'; apply ident_var_snoc).
           replace (Scanning (Some EmptyString)) with (Scanning (last_line done'))
             by (subst done'; rewrite last_line_snoc; reflexivity).
           apply IH.
           rewrite Hrest in Hfuel. simpl in Hfuel. rewrite length_app in Hfuel.
           simpl in Hfuel. lia.
        -- rewrite Hfold. rewrite lines_loop_eq.
           assert (Hge : (i3 + 1 <? len (((done ++ [l]) ++ [first]) ++ rest2)) = false)
             by (apply Z.ltb_ge; lia).
           rewrite Hge. reflexivity.
    + rewrite Hnext, Hi.
      replace (Some EmptyString) with (ident_var (done ++ [l])) at 1
        by apply ident_var_snoc.
      replace (Scanning (Some l)) with (Scanning (last_line (done ++ [l])))
        by (rewrite last_line_snoc; reflexivity).
      apply IH. simpl in Hfuel. lia.
Qed.



End Scanner.


End ParserFacts.

Module SanitizeFacts.
Import Captions.

Local Open Scope nat_scope.

Lemma upd_length {A} (f : A -> A) l : forall k, List.length (upd k f l) = List.length l.
Proof.
  induction l as [|x r IH]; intros [|k]; simpl; auto.
Qed.

Lemma upd_app1 {A} (f : A -> A) l1 l2 :
  forall k, k < List.length l1 -> upd k f (l1 ++ l2) = upd k f l1 ++ l2.
Proof.
  induction l1 as [|x r IH]; intros [|k] Hk; simpl in *; try lia; auto.
  rewrite IH by lia. reflexivity.
Qed.

Lemma upd_app2 {A} (f : A -> A) l1 l2 :
  forall k, List.length l1 <= k ->
            upd k f (l1 ++ l2) = l1 ++ upd (k - List.length l1) f l2.
Proof.
  induction l1 as [|x r IH]; intros k Hk; simpl in *.
  - rewrite Nat.sub_0_r. reflexivity.
  - destruct k as [|k]; [lia|]. simpl. rewrite IH by lia. reflexivity.
Qed.

Lemma upd_firstn {A} (f : A -> A) l : forall k, firstn k (upd k f l) = firstn k l.
Proof.
  induction l as [|x r IH]; intros [|k]; simpl; auto.
  rewrite IH. reflexivity.
Qed.

Lemma upd_nth_error {A} (f : A -> A) l :
  forall k x, nth_error l k = Some x -> nth_error (upd k f l) k = Some (f x).
Proof.
  induction l as [|y r IH]; intros [|k] x H; simpl in *; try discriminate.
  - congruence.
  - apply IH. exact H.
Qed.

Lemma upd_forallb {A} (P : A -> bool) (f : A -> A) l :
  (forall x, P x = true -> P (f x) = true) ->
  forall k, forallb P l = true -> forallb P (upd k f l) = true.
Proof.
  intros Hf. induction l as [|x r IH]; intros [|k] H; simpl in *; auto;
    apply andb_true_iff in H as [H1 H2]; apply andb_true_iff; auto.
Qed.

(** **** The live collections *)

Lemma count_any d : count any_tag d = List.length (elems d).
Proof.
  induction d as [|s n IH|x _ n IH|t a c IHc n IHn]; simpl; auto.
  rewrite length_app. lia.
Qed.

Lemma item_Some_lt sel d :
  forall k e, item sel k d = Some e -> k < count sel d.
Proof.
  induction d as [|s n IH|x _ n IH|t a c IHc n IHn]; intros k e H; simpl in *.
  - discriminate.
  - eauto.
  - eauto.
  - destruct (sel t); simpl in *.
    + destruct k as [|k]; simpl in *; [lia|].
      rewrite Nat.sub_0_r in H.
      destruct (k <? count sel c) eqn:E.
      * apply Nat.ltb_lt in E. lia.
      * apply IHn in H. apply Nat.ltb_ge in E. lia.
    + rewrite Nat.sub_0_r in H.
      destruct (k <? count sel c) eqn:E.
      * apply Nat.ltb_lt in E. lia.
      * apply IHn in H. apply Nat.ltb_ge in E. lia.
Qed.

Lemma item_lt_Some sel d :
  forall k, k < count sel d -> exists e, item sel k d = Some e.
Proof.
  induction d as [|s n IH|x _ n IH|t a c IHc n IHn]; intros k H; simpl in *.
  - lia.
  - eauto.
  - eauto.
  - destruct (sel t); simpl in *.
    + destruct k as [|k]; simpl; [eauto|].
      rewrite Nat.sub_0_r.
      destruct (k <? count sel c) eqn:E.
      * apply Nat.ltb_lt in E. eauto.
      * apply Nat.ltb_ge in E. apply IHn. lia.
    + rewrite Nat.sub_0_r.
      destruct (k <? count sel c) eqn:E.
      * apply Nat.ltb_lt in E. eauto.
      * apply Nat.ltb_ge in E. apply IHn. lia.
Qed.

(** Taking an element of the collection out makes the collection shorter. *)
Lemma count_unlink_lt sel d :
  forall k, k < count sel d -> count sel (modify sel unlink k d) < count sel d.
Proof.
  induction d as [|s n IH|x _ n IH|t a c IHc n IHn]; intros k H; simpl in *.
  - lia.
  - eauto.
  - eauto.
  - destruct (sel t) eqn:Es; simpl in *.
    + destruct k as [|k]; simpl; [unfold unlink; lia|].
      rewrite Nat.sub_0_r.
      destruct (k <? count sel c) eqn:E; simpl; rewrite Es.
      * apply Nat.ltb_lt in E. specialize (IHc k E). lia.
      * apply Nat.ltb_ge in E. specialize (IHn (k - count sel c)). lia.
    + rewrite Nat.sub_0_r.
      destruct (k <? count sel c) eqn:E; simpl; rewrite Es.
      * apply Nat.ltb_lt in E. specialize (IHc k E). lia.
      * apply Nat.ltb_ge in E. specialize (IHn (k - count sel c)). lia.
Qed.

Lemma item_any d : forall k, item any_tag k d = nth_error (elems d) k.
Proof.
  induction d as [|s n IH|x _ n IH|t a c IHc n IHn]; intros k; simpl.
  - destruct k; reflexivity.
  - apply IH.
  - apply IH.
  - destruct k as [|k]; simpl; [reflexivity|].
    rewrite Nat.sub_0_r, count_any.
    destruct (k <? List.length (elems c)) eqn:E.
    + apply Nat.ltb_lt in E. rewrite nth_error_app1 by exact E. apply IHc.
    + apply Nat.ltb_ge in E. rewrite nth_error_app2 by exact E. apply IHn.
Qed.

(** Dropping an attribute of the [k]-th element changes that entry only. *)
Lemma elems_without_attr name d :
  forall k, elems (modify any_tag (without_attr name) k d)
            = upd k (fun e => (fst e, remove_attr name (snd e))) (elems d).
Proof.
  induction d as [|s n IH|x _ n IH|t a c IHc n IHn]; intros k; simpl.
  - destruct k; reflexivity.
  - apply IH.
  - apply IH.
  - destruct k as [|k]; simpl; [reflexivity|].
    rewrite Nat.sub_0_r, count_any.
    destruct (k <? List.length (elems c)) eqn:E; simpl.
    + apply Nat.ltb_lt in E. rewrite upd_app1 by exact E. rewrite IHc. reflexivity.
    + apply Nat.ltb_ge in E. rewrite upd_app2 by exact E. rewrite IHn. reflexivity.
Qed.

(** Taking the [k]-th element out leaves the [k] elements before it. *)
Lemma elems_unlink d :
  forall k, k <= List.length (elems d) ->
    exists rest, elems (modify any_tag unlink k d) = firstn k (elems d) ++ rest.
Proof.
  induction d as [|s n IH|x _ n IH|t a c IHc n IHn]; intros k Hk; simpl in *.
  - exists []. destruct k; reflexivity.
  - apply IH. exact Hk.
  - apply IH. exact Hk.
  - destruct k as [|k]; simpl; [exists (elems n); reflexivity|].
    rewrite Nat.sub_0_r, count_any. rewrite length_app in Hk.
    destruct (k <? List.length (elems c)) eqn:E; simpl.
    + apply Nat.ltb_lt in E.
      destruct (IHc k) as [rest Hrest]; [lia|].
      exists (rest ++ elems n). rewrite Hrest.
      rewrite firstn_app. replace (k - List.length (elems c)) with 0 by lia.
      rewrite firstn_O, app_nil_r, <- app_assoc. reflexivity.
    + apply Nat.ltb_ge in E.
      destruct (IHn (k - List.length (elems c))) as [rest Hrest]; [lia|].
      exists rest. rewrite Hrest.
      rewrite firstn_app, (firstn_all2 (elems c)) by exact E.
      rewrite <- app_assoc. reflexivity.
Qed.

Lemma firstn_unlink d k :
  k <= List.length (elems d) ->
  firstn k (elems (modify any_tag unlink k d)) = firstn k (elems d).
Proof.
  intros Hk. destruct (elems_unlink d k Hk) as [rest ->].
  rewrite firstn_app, firstn_firstn, Nat.min_id.
  rewrite length_firstn, Nat.min_l by exact Hk.
  rewrite Nat.sub_diag, firstn_O, app_nil_r. reflexivity.
Qed.

(** What holds of all elements holds of those left after one is taken out. *)
Lemma forallb_unlink (P : string * list attribute -> bool) sel d :
  forall k, forallb P (elems d) = true ->
            forallb P (elems (modify sel unlink k d)) = true.
Proof.
  induction d as [|s n IH|x _ n IH|t a c IHc n IHn]; intros k H; simpl in *.
  - reflexivity.
  - apply IH. exact H.
  - apply IH. exact H.
  - apply andb_true_iff in H as [Hx H]. rewrite forallb_app in H.
    apply andb_true_iff in H as [Hc Hn].
    destruct (sel t && (k =? 0)); [exact Hn|].
    destruct (_ <? _); simpl; rewrite Hx, forallb_app; simpl;
      apply andb_true_iff; split; auto.
Qed.

Lemma no_script_count d :
  count (by_tag "script") d = 0 -> forallb not_script (elems d) = true.
Proof.
  induction d as [|s n IH|x _ n IH|t a c IHc n IHn]; simpl; intros H.
  - reflexivity.
  - apply IH. exact H.
  - apply IH. exact H.
  - unfold not_script at 1. unfold by_tag in H at 1. simpl fst.
    destruct (String.eqb t "script"); [simpl in H; lia|].
    simpl in *. rewrite forallb_app. apply andb_true_iff. split.
    + apply IHc. lia.
    + apply IHn. lia.
Qed.

Lemma firstn_snoc {A} (l : list A) :
  forall k x, nth_error l k = Some x -> firstn (S k) l = firstn k l ++ [x].
Proof.
  induction l as [|y r IH]; intros [|k] x H; simpl in *; try discriminate.
  - congruence.
  - rewrite (IH k x H). reflexivity.
Qed.

Lemma n_style_remove cur : n_style (remove_attr "style" cur) = n_style cur - 1.
Proof.
  unfold n_style. induction cur as [|a r IH]; simpl; [reflexivity|].
  destruct (String.eqb (fst a) "style") eqn:E; simpl.
  - lia.
  - rewrite E. exact IH.
Qed.

Lemma no_event_remove name cur :
  forallb no_event cur = true -> forallb no_event (remove_attr name cur) = true.
Proof.
  induction cur as [|a r IH]; simpl; intros H; [reflexivity|].
  apply andb_true_iff in H as [H1 H2].
  destruct (String.eqb (fst a) name); [exact H2|].
  simpl. rewrite H1. auto.
Qed.

Lemma ok_attrs_intro tag cur :
  n_style cur = 0 -> forallb no_event cur = true -> ok_attrs (tag, cur) = true.
Proof.
  unfold ok_attrs, n_style. simpl snd.
  induction cur as [|a r IH]; simpl; intros Hs He; [reflexivity|].
  apply andb_true_iff in He as [H1 H2].
  unfold ok_attr at 1. unfold no_event in H1. rewrite H1.
  destruct (String.eqb (fst a) "style"); simpl in *; [discriminate|].
  apply IH; assumption.
Qed.

Section Loops.

Variable removeElement_undefined : Js.completion unit.

Local Abbreviation removeElement := (removeElement removeElement_undefined).
Local Abbreviation remove_scripts := (remove_scripts removeElement_undefined).
Local Abbreviation attr_loop := (attr_loop removeElement_undefined).
Local Abbreviation element_loop := (element_loop removeElement_undefined).

Lemma removeElement_cases sel k d d1 :
  removeElement sel k d = Js.Normal d1 ->
  (k < count sel d /\ d1 = modify sel unlink k d) \/
  (count sel d <= k /\ d1 = d).
Proof.
  unfold Captions.removeElement. destruct (item sel k d) as [e|] eqn:E.
  - intros H. injection H as <-. left. split; [|reflexivity].
    eapply item_Some_lt. exact E.
  - intros H. right. split.
    + destruct (Nat.le_gt_cases (count sel d) k) as [L|L]; [exact L|].
      destruct (item_lt_Some sel d k L) as [e He]. congruence.
    + destruct removeElement_undefined; simpl in H; congruence.
Qed.

(** After the first loop no [script] element is left. *)
Lemma remove_scripts_none :
  forall i d d', remove_scripts i d = Js.Normal d' ->
                 count (by_tag "script") d <= i ->
                 count (by_tag "script") d' = 0.
Proof.
  induction i as [|i IH]; intros d d' H Hc; simpl in H.
  - injection H as <-. lia.
  - destruct (removeElement (by_tag "script") i d) as [d1| |] eqn:R;
      simpl in H; try discriminate.
    apply (IH d1 d' H).
    destruct (removeElement_cases _ _ _ _ R) as [[Hk ->] | [Hk ->]].
    + pose proof (count_unlink_lt (by_tag "script") d i Hk). lia.
    + exact Hk.
Qed.

(** The inner loop never adds elements, leaves the elements before
    [index] as they are, and adds no [script] element. *)
Lemma attr_loop_frame index :
  forall attributes d d1,
    attr_loop attributes index d = Js.Normal d1 ->
    index <= List.length (elems d) ->
    List.length (elems d1) <= List.length (elems d) /\
    firstn index (elems d1) = firstn index (elems d) /\
    (forallb not_script (elems d) = true ->
     forallb not_script (elems d1) = true).
Proof.
  induction attributes as [|a rest IH]; intros d d1 H Hi; simpl in H.
  - injection H as <-. auto.
  - destruct (is_event_name (fst a)).
    + destruct (removeElement any_tag index d) as [d2| |] eqn:R;
        simpl in H; try discriminate.
      destruct (removeElement_cases _ _ _ _ R) as [[Hk ->] | [Hk ->]].
      * pose proof (count_unlink_lt any_tag d index Hk) as Hlt.
        rewrite !count_any in Hlt. rewrite count_any in Hk.
        pose proof (firstn_unlink d index Hi) as Hf.
        assert (Hi2 : index <= List.length (elems (modify any_tag unlink index d))).
        { apply (f_equal (@List.length _)) in Hf.
          rewrite !length_firstn in Hf. lia. }
        destruct (IH _ _ H Hi2) as [L [F S]].
        split; [lia|]. split; [congruence|].
        intros Hs. apply S. apply forallb_unlink. exact Hs.
      * apply IH; assumption.
    + destruct (String.eqb (fst a) "style").
      * destruct (item any_tag index d) as [e|] eqn:E; [|discriminate].
        assert (Hi2 : index <= List.length (elems (modify any_tag (without_attr (fst a)) index d)))
          by (rewrite elems_without_attr, upd_length; exact Hi).
        destruct (IH _ _ H Hi2) as [L [F S]].
        rewrite elems_without_attr in L, F, S.
        rewrite upd_length in L. rewrite upd_firstn in F.
        split; [exact L|]. split; [exact F|].
        intros Hs. apply S. apply upd_forallb; [|exact Hs].
        intros x Hx. exact Hx.
      * apply IH; assumption.
Qed.

(** An attribute with an event name makes the inner loop take an element
    out. *)
Lemma attr_loop_shrinks index :
  forall attributes d d1,
    attr_loop attributes index d = Js.Normal d1 ->
    index < List.length (elems d) ->
    existsb (fun a => is_event_name (fst a)) attributes = true ->
    List.length (elems d1) < List.length (elems d).
Proof.
  induction attributes as [|a rest IH]; intros d d1 H Hi Hex; simpl in *.
  - discriminate.
  - destruct (is_event_name (fst a)).
    + destruct (removeElement any_tag index d) as [d2| |] eqn:R;
        simpl in H; try discriminate.
      destruct (removeElement_cases _ _ _ _ R) as [[Hk ->] | [Hk ->]].
      * pose proof (count_unlink_lt any_tag d index Hk) as Hlt.
        rewrite !count_any in Hlt.
        pose proof (firstn_unlink d index (Nat.lt_le_incl _ _ Hi)) as Hf.
        assert (Hi2 : index <= List.length (elems (modify any_tag unlink index d))).
        { apply (f_equal (@List.length _)) in Hf.
          rewrite !length_firstn in Hf. lia. }
        destruct (attr_loop_frame index _ _ _ H Hi2) as [L _]. lia.
      * rewrite count_any in Hk. lia.
    + simpl in Hex. destruct (String.eqb (fst a) "style").
      * destruct (item any_tag index d) as [e|] eqn:E; [|discriminate].
        assert (Hi2 : index < List.length (elems (modify any_tag (without_attr (fst a)) index d)))
          by (rewrite elems_without_attr, upd_length; exact Hi).
        specialize (IH _ _ H Hi2 Hex).
        rewrite elems_without_attr, upd_length in IH. exact IH.
      * apply IH; assumption.
Qed.

(** Without event names among the attributes, the inner loop keeps all
    elements and leaves the element at [index] without [style]. *)
Lemma attr_loop_strips index tag :
  forall attributes d cur d1,
    attr_loop attributes index d = Js.Normal d1 ->
    nth_error (elems d) index = Some (tag, cur) ->
    forallb no_event attributes = true ->
    forallb no_event cur = true ->
    n_style cur <= n_style attributes ->
    List.length (elems d1) = List.length (elems d) /\
    exists cur', nth_error (elems d1) index = Some (tag, cur') /\
                 ok_attrs (tag, cur') = true.
Proof.
  induction attributes as [|a rest IH]; intros d cur d1 H Hn Hev Hcur Hst; simpl in H.
  - injection H as <-. split; [reflexivity|]. exists cur. split; [exact Hn|].
    apply ok_attrs_intro; [|exact Hcur]. unfold n_style in *. simpl in Hst. lia.
  - simpl in Hev. apply andb_true_iff in Hev as [Ha Hev].
    unfold no_event in Ha. apply negb_true_iff in Ha. rewrite Ha in H.
    destruct (String.eqb (fst a) "style") eqn:Es.
    + rewrite item_any, Hn in H.
      apply String.eqb_eq in Es. rewrite Es in H.
      destruct (IH _ (remove_attr "style" cur) _ H) as [L [cur' [N O]]].
      * rewrite elems_without_attr.
        exact (upd_nth_error
                 (fun e : string * list attribute =>
                    (fst e, remove_attr "style" (snd e))) _ _ _ Hn).
      * exact Hev.
      * apply no_event_remove. exact Hcur.
      * rewrite n_style_remove. unfold n_style in *. simpl in Hst.
        rewrite Es in Hst. simpl in Hst. lia.
      * rewrite elems_without_attr, upd_length in L.
        split; [exact L|]. exists cur'. auto.
    + apply (IH _ cur _ H Hn Hev Hcur).
      unfold n_style in *. simpl in Hst. rewrite Es in Hst. exact Hst.
Qed.

Lemma existsb_false_forallb {A} (p : A -> bool) l :
  existsb p l = false -> forallb (fun x => negb (p x)) l = true.
Proof.
  induction l as [|x r IH]; simpl; intros H; [reflexivity|].
  apply orb_false_iff in H as [H1 H2]. rewrite H1. simpl. auto.
Qed.

Lemma forallb_both {A} (p q : A -> bool) l :
  forallb p l = true -> forallb q l = true ->
  forallb (fun x => p x && q x) l = true.
Proof.
  induction l as [|x r IH]; simpl; intros Hp Hq; [reflexivity|].
  apply andb_true_iff in Hp as [Hp1 Hp2].
  apply andb_true_iff in Hq as [Hq1 Hq2].
  rewrite Hp1, Hq1. simpl. auto.
Qed.

(** Once the collection is shorter than the bound [n] of the outer loop,
    an iteration to come finds [allElements[index]] undefined: the loop
    does not return. *)
Lemma element_loop_doomed :
  forall todo index d,
    1 <= todo -> List.length (elems d) < index + todo ->
    forall d', element_loop todo index d <> Js.Normal d'.
Proof.
  induction todo as [|t IH]; intros index d Ht Hl d' H; [lia|].
  simpl in H. rewrite item_any in H.
  destruct (nth_error (elems d) index) as [[tag attributes]|] eqn:N;
    [|discriminate].
  assert (Hi : index < List.length (elems d))
    by (apply nth_error_Some; congruence).
  destruct (attr_loop attributes index d) as [d1| |] eqn:A;
    simpl in H; try discriminate.
  destruct (attr_loop_frame index _ _ _ A (Nat.lt_le_incl _ _ Hi)) as [L _].
  destruct t as [|t]; [lia|].
  apply (IH (S index) d1) in H; [exact H|lia|lia].
Qed.

Lemma element_loop_no_script :
  forall todo index d d',
    element_loop todo index d = Js.Normal d' ->
    forallb not_script (elems d) = true ->
    forallb not_script (elems d') = true.
Proof.
  induction todo as [|t IH]; intros index d d' H Hs; simpl in H.
  - injection H as <-. exact Hs.
  - rewrite item_any in H.
    destruct (nth_error (elems d) index) as [[tag attributes]|] eqn:N;
      [|discriminate].
    assert (Hi : index < List.length (elems d))
      by (apply nth_error_Some; congruence).
    destruct (attr_loop attributes index d) as [d1| |] eqn:A;
      simpl in H; try discriminate.
    destruct (attr_loop_frame index _ _ _ A (Nat.lt_le_incl _ _ Hi)) as [_ [_ S]].
    apply (IH _ _ _ H). apply S. exact Hs.
Qed.

(** The outer loop: when it returns, every element that is left has
    been visited and carries neither an event attribute nor [style]. *)
Lemma element_loop_clean :
  forall todo index d d',
    element_loop todo index d = Js.Normal d' ->
    List.length (elems d) = index + todo ->
    forallb ok_attrs (firstn index (elems d)) = true ->
    forallb ok_attrs (elems d') = true.
Proof.
  induction todo as [|t IH]; intros index d d' H Hl Hok; simpl in H.
  - injection H as <-. rewrite firstn_all2 in Hok by lia. exact Hok.
  - rewrite item_any in H.
    destruct (nth_error (elems d) index) as [[tag attributes]|] eqn:N;
      [|discriminate].
    assert (Hi : index < List.length (elems d))
      by (apply nth_error_Some; congruence).
    destruct (attr_loop attributes index d) as [d1| |] eqn:A;
      simpl in H; try discriminate.
    destruct (attr_loop_frame index _ _ _ A (Nat.lt_le_incl _ _ Hi)) as [L [F _]].
    destruct (existsb (fun a => is_event_name (fst a)) attributes) eqn:Ev.
    + pose proof (attr_loop_shrinks index _ _ _ A Hi Ev) as Hlt.
      destruct t as [|t].
      * simpl in H. injection H as <-.
        rewrite <- (firstn_all2 (n := index) (elems d1)) by lia.
        rewrite F. exact Hok.
      * exfalso. apply (element_loop_doomed (S t) (S index) d1) in H;
          [exact H|lia|lia].
    + apply existsb_false_forallb in Ev.
      destruct (attr_loop_strips index tag _ _ attributes _ A N Ev Ev (Nat.le_refl _))
        as [Hlen [cur' [N' O']]].
      apply (IH (S index) d1 d' H); [lia|].
      rewrite (firstn_snoc _ _ _ N'), forallb_app, F, Hok. simpl.
      rewrite O'. reflexivity.
Qed.

(** Whenever the loops of [_sanitize] return, what they leave is clean. *)
Lemma sanitize_loops_clean (parsed result : dom) :
  sanitize_loops removeElement_undefined parsed = Js.Normal result ->
  clean result.
Proof.
  unfold sanitize_loops. intros H.
  destruct (remove_scripts (count (by_tag "script") parsed) parsed)
    as [d1| |] eqn:R; simpl in H; try discriminate.
  pose proof (remove_scripts_none _ _ _ R (Nat.le_refl _)) as Hnone.
  apply no_script_count in Hnone.
  unfold clean. apply forallb_both.
  - apply (element_loop_no_script _ _ _ _ H Hnone).
  - apply (element_loop_clean _ _ _ _ H).
    + rewrite count_any. lia.
    + reflexivity.
Qed.

Variable parse_html : string -> dom.
Variable innerHTML : dom -> string.

Local Abbreviation sanitize_loops := (sanitize_loops removeElement_undefined).
Local Abbreviation _sanitize :=
  (_sanitize removeElement_undefined parse_html innerHTML).

(** [_sanitize] returns exactly when its loops do, and then the markup
    of what they leave. *)
Lemma sanitize_returns html s :
  _sanitize html = Js.Normal s <->
  exists d, sanitize_loops (parse_html html) = Js.Normal d /\ s = innerHTML d.
Proof.
  unfold Captions._sanitize. split.
  - intros H.
    destruct (sanitize_loops (parse_html html)) as [d| |];
      simpl in H; try discriminate.
    injection H as <-. exists d. split; reflexivity.
  - intros (d & -> & ->). reflexivity.
Qed.

(** Whenever [_sanitize] returns, the string it returns is the markup
    that [div.innerHTML] reads from a node list in which, outside the
    contents of templates, no element is a [script] element, none has an
    attribute whose name starts with [on] or [javascript:], and none has
    a [style] attribute. *)
Theorem sanitize_serialises_clean_nodes html s :
  _sanitize html = Js.Normal s ->
  exists d, sanitize_loops (parse_html html) = Js.Normal d /\
            s = innerHTML d /\ clean d.
Proof.
  intros H. apply sanitize_returns in H as (d & Hd & ->).
  exists d. split; [exact Hd|]. split; [reflexivity|].
  exact (sanitize_loops_clean _ _ Hd).
Qed.

End Loops.

(** Witness of [sanitize_serialises_clean_nodes]: of a paragraph with a
    [style] attribute and a [script] child, followed by an element with
    a click handler, the paragraph and its text are left. *)
Lemma sanitize_serialises_clean_witness :
  exists d, sanitize_loops (Js.Normal tt) sample_paragraph = Js.Normal d /\
            sample_innerHTML sample_paragraph_left = sample_innerHTML d /\
            clean d.
Proof.
  apply (sanitize_serialises_clean_nodes (Js.Normal tt) sample_parse sample_innerHTML
           "<p style=color:red class=c>hi<script>x</script></p><b onclick=y></b>"%string).
  vm_compute. reflexivity.
Defined.

End SanitizeFacts.

Module MediaFacts.
Import Media JsFacts.

Local Open Scope string_scope.

Section Facade.

Variable predictType : string -> string.
Variable isHlsSource : Source -> bool.
Variable isDashSource : Source -> bool.
Variable isFlvSource : Source -> bool.
Variable new_backend : BackendKind -> Element -> Source -> Backend.
Variable backend_canPlayType : Backend -> string -> bool.
Variable playHLSNatively : Element -> bool.

Local Abbreviation constructor := (constructor predictType).
Local Abbreviation _invoke := (_invoke isHlsSource isDashSource isFlvSource playHLSNatively).
Local Abbreviation try_file :=
  (try_file isHlsSource isDashSource isFlvSource new_backend backend_canPlayType playHLSNatively).
Local Abbreviation some_file :=
  (some_file isHlsSource isDashSource isFlvSource new_backend backend_canPlayType playHLSNatively).
Local Abbreviation load :=
  (load isHlsSource isDashSource isFlvSource new_backend backend_canPlayType playHLSNatively).
Local Abbreviation play :=
  (play isHlsSource isDashSource isFlvSource new_backend backend_canPlayType playHLSNatively).
Local Abbreviation set_src := (set_src predictType backend_canPlayType).
Local Abbreviation run :=
  (run predictType isHlsSource isDashSource isFlvSource new_backend backend_canPlayType playHLSNatively).
Local Abbreviation run_all :=
  (run_all predictType isHlsSource isDashSource isFlvSource new_backend backend_canPlayType playHLSNatively).
Local Abbreviation files_after_set_src := (files_after_set_src predictType).
Local Abbreviation files_emptied :=
  (files_emptied predictType isHlsSource isDashSource isFlvSource new_backend backend_canPlayType playHLSNatively).

Lemma keeps_ret {A} (a : A) : keeps_files (Js.ret a).
Proof. intros st. reflexivity. Qed.

Lemma keeps_throw {A} e : keeps_files (@Js.throw State A e).
Proof. intros st. reflexivity. Qed.

Lemma keeps_get : keeps_files (@Js.get State).
Proof. intros st. reflexivity. Qed.

Lemma keeps_update f :
  (forall st, files (f st) = files st) -> keeps_files (Js.update f).
Proof. intros H st. apply H. Qed.

Lemma keeps_bind {A B} (m : Js.M State A) (k : A -> Js.M State B) :
  keeps_files m -> (forall a, keeps_files (k a)) -> keeps_files (Js.bindM m k).
Proof.
  intros Hm Hk st. unfold Js.bindM. specialize (Hm st).
  destruct (m st) as [st' [a|e|]]; simpl in *; try exact Hm.
  rewrite Hk. exact Hm.
Qed.

Lemma keeps_catch {A} (m : Js.M State A) h :
  keeps_files m -> (forall e, keeps_files (h e)) -> keeps_files (Js.catch m h).
Proof.
  intros Hm Hh st. unfold Js.catch. specialize (Hm st).
  destruct (m st) as [st' [a|e|]]; simpl in *; try exact Hm.
  rewrite Hh. exact Hm.
Qed.

Lemma keeps_when c (m : Js.M State unit) :
  keeps_files m -> keeps_files (Js.when c m).
Proof. intros H. destruct c; simpl; [exact H|apply keeps_ret]. Qed.

Lemma files_on_backend f st : files (on_backend f st) = files st.
Proof. unfold on_backend. destruct (media st); reflexivity. Qed.

Ltac keeps :=
  repeat first
    [ simple apply keeps_ret | simple apply keeps_throw | simple apply keeps_get
    | simple apply keeps_when
    | simple apply keeps_update; intros; first [apply files_on_backend | reflexivity]
    | simple apply keeps_bind; [|intros]
    | simple apply keeps_catch; [|intros] ].

Lemma keeps_invoke f : keeps_files (_invoke f).
Proof.
  unfold Media._invoke. keeps.
  destruct (custom_types (customMedia a0)).
  - repeat match goal with |- context [if ?c then _ else _] => destruct c end; keeps.
  - destruct (custom_ref _ _ _ _) as [[t|]| |]; keeps; intros st; reflexivity.
Qed.

Lemma keeps_try_file f : keeps_files (try_file f).
Proof.
  unfold Media.try_file. keeps.
  - apply keeps_invoke.
  - destruct (media a0); keeps.
Qed.

Lemma keeps_some_file fs : keeps_files (some_file fs).
Proof.
  induction fs as [|f rest IH]; simpl; keeps.
  - apply keeps_try_file.
  - destruct a; [keeps|exact IH].
Qed.

Lemma keeps_load : keeps_files load.
Proof.
  unfold Media.load. keeps.
  destruct (files a) as [|first others]; keeps.
  - destruct (media a); keeps.
  - apply keeps_some_file.
  - destruct (media a2); keeps.
Qed.

Lemma keeps_play : keeps_files play.
Proof.
  unfold Media.play. keeps.
  destruct (negb (mediaLoaded a)); keeps.
  - apply keeps_load.
  - destruct (media a); keeps.
Qed.

Lemma keeps_pause : keeps_files pause.
Proof.
  unfold pause. keeps. destruct (media a); keeps.
  destruct (promisePlay a); keeps.
Qed.

Lemma keeps_destroy : keeps_files destroy.
Proof. unfold destroy. keeps. destruct (media a); keeps. Qed.

Lemma keeps_canPlayType t : keeps_files (canPlayType backend_canPlayType t).
Proof. unfold canPlayType. keeps. destruct (media a); keeps. Qed.

Lemma keeps_some_canPlay fs : keeps_files (some_canPlay backend_canPlayType fs).
Proof.
  induction fs as [|f rest IH]; simpl; keeps.
  - apply keeps_canPlayType.
  - destruct a; [keeps|exact IH].
Qed.

Lemma files_set_src value st :
  files (fst (set_src value st)) = files_after_set_src value st.
Proof.
  unfold Media.set_src.
  match goal with
  | |- files (fst (Js.bindM (Js.update ?F) ?k st)) = _ =>
      assert (Hk : keeps_files (k tt))
  end.
  { keeps.
    - apply keeps_some_canPlay.
    - destruct (files a) as [|first rest]; keeps.
      destruct (media a3); keeps. }
  unfold Js.bindM at 1. unfold Js.update at 1.
  rewrite Hk. destruct value; reflexivity.
Qed.

Lemma app_not_nil {A} (l : list A) x : (l ++ [x])%list <> [].
Proof. destruct l; discriminate. Qed.

(** Only an operation that hands over an empty list leaves [#files] empty. *)
Lemma run_keeps_files_nonempty op st :
  hands_empty_files op st = false ->
  files st <> [] -> files (fst (run op st)) <> [].
Proof.
  intros Hop Hne.
  destruct op; simpl in *;
    try (unfold lift, Js.update, set_volume, set_muted, set_playbackRate,
           set_defaultPlaybackRate, set_currentTime, set_loaded, set_level;
         simpl; rewrite ?files_on_backend; exact Hne).
  - unfold ignore. rewrite (keeps_bind _ _ (keeps_canPlayType mimeType));
      [exact Hne|intros; apply keeps_ret].
  - rewrite keeps_load. exact Hne.
  - rewrite keeps_play. exact Hne.
  - rewrite keeps_pause. exact Hne.
  - rewrite keeps_destroy. exact Hne.
  - rewrite files_set_src. destruct value as [s|fs|f]; simpl.
    + apply app_not_nil.
    + destruct fs; [discriminate|discriminate].
    + apply app_not_nil.
  - destruct sources; [discriminate|discriminate].
  - destruct (f (files st)); [discriminate|discriminate].
Qed.

Lemma run_all_keeps_files_nonempty :
  forall ops st,
    files_emptied ops st = false ->
    files st <> [] -> files (run_all ops st) <> [].
Proof.
  induction ops as [|op rest IH]; intros st He Hne; simpl in *.
  - exact Hne.
  - apply orb_false_iff in He as [H1 H2].
    apply IH; [exact H2|].
    apply run_keeps_files_nonempty; assumption.
Qed.

Lemma constructor_files el opts auto custom :
  files (constructor el opts auto custom) <> [].
Proof.
  unfold Media.constructor, _getMediaFiles. simpl.
  destruct (_ ++ _)%list; discriminate.
Qed.

Lemma custom_ref_returns types rs source :
  forall found, custom_ref types rs source found <> Js.OutOfFuel.
Proof.
  induction rs as [|rule rest IH]; intros found; simpl; [discriminate|].
  destruct (rule source) as [t|]; [|apply IH].
  destruct (truthy t); [|apply IH].
  destruct (existsb (String.eqb t) types); [apply IH|discriminate].
Qed.

(** [_invoke] returns a class or throws. *)
Lemma invoke_ends f st : snd (_invoke f st) <> Js.OutOfFuel.
Proof.
  unfold Media._invoke, Js.bindM, Js.update, Js.get. simpl.
  destruct (custom_types (customMedia st)) as [|t ts].
  - repeat match goal with |- context [if ?c then _ else _] => destruct c end;
      discriminate.
  - pose proof (custom_ref_returns (t :: ts) (rules (customMedia st)) (src f) None).
    destruct (custom_ref _ _ _ _) as [[k|]| |]; simpl; congruence.
Qed.

(** The callback of [some] in [load] always leaves a backend in [#media]. *)
Lemma try_file_sets_backend f st :
  exists st' ok, try_file f st = (st', Js.Normal ok) /\ media st' <> None.
Proof.
  unfold Media.try_file.
  pose proof (invoke_ends f st) as Hend.
  unfold Js.bindM at 1. unfold Js.catch. unfold Js.bindM at 1.
  destruct (_invoke f st) as [st1 [k|e|]]; simpl in Hend; [| |congruence].
  - unfold Js.update, Js.bindM, Js.get. simpl.
    eexists. eexists. split; [reflexivity|]. simpl. discriminate.
  - unfold Js.update, Js.bindM, Js.get. simpl.
    eexists. eexists. split; [reflexivity|]. simpl. discriminate.
Qed.

Lemma some_file_sets_backend :
  forall fs st, fs <> [] ->
    exists st' ok, some_file fs st = (st', Js.Normal ok) /\ media st' <> None.
Proof.
  induction fs as [|f rest IH]; intros st Hne; [congruence|].
  simpl. unfold Js.bindM.
  destruct (try_file_sets_backend f st) as [st1 [ok [-> Hm]]].
  destruct ok.
  - exists st1, true. split; [reflexivity|exact Hm].
  - destruct rest as [|g rest'].
    + exists st1, false. split; [reflexivity|exact Hm].
    + apply IH. discriminate.
Qed.

(** With files at hand, [load] returns. *)
Lemma load_returns st : files st <> [] -> snd (load st) = Js.Normal tt.
Proof.
  intros Hne. unfold Media.load. unfold Js.bindM at 1. unfold Js.get at 1.
  destruct (files st) as [|first others] eqn:Ef; [congruence|].
  unfold Js.bindM at 1.
  match goal with
  | |- snd (match ?m st with _ => _ end) = _ =>
      assert (Hpre : exists st1, m st = (st1, Js.Normal tt))
  end.
  { destruct (media st) as [b|].
    - destruct (negb _); simpl; unfold Js.update, Js.ret; eauto.
    - unfold Js.ret; eauto. }
  destruct Hpre as [st1 ->].
  unfold Js.bindM at 1.
  destruct (some_file_sets_backend (first :: others) st1) as [st2 [ok [-> Hm]]];
    [discriminate|].
  unfold Js.bindM, Js.get.
  destruct (media st2); [reflexivity|congruence].
Qed.

Lemma load_without_files st :
  files st = [] -> load st = (st, Js.Throw (Js.TypeError "Media not set")).
Proof.
  intros He. unfold Media.load, Js.bindM, Js.get. rewrite He. reflexivity.
Qed.

(** C9, with every way to empty the list: [load] throws [TypeError('Media not set')] exactly
    when the list of files is empty; the list built at construction is not
    empty; and after construction [load] throws this error only if some
    operation has handed the facade an empty list of files: the setter
    [mediaFiles] or the setter [src] given an empty array, or the list
    (which the getters [src] and [mediaFiles] hand out) emptied in place. *)
Theorem media_not_set_only_without_files :
  (forall st,
      snd (load st) = Js.Throw (Js.TypeError "Media not set") <-> files st = []) /\
  (forall el opts auto custom, files (constructor el opts auto custom) <> []) /\
  (forall el opts auto custom ops,
      snd (load (run_all ops (constructor el opts auto custom)))
        = Js.Throw (Js.TypeError "Media not set") ->
      files_emptied ops (constructor el opts auto custom) = true).
Proof.
  assert (Hiff : forall st,
             snd (load st) = Js.Throw (Js.TypeError "Media not set")
             <-> files st = []).
  { intros st. split.
    - intros H. destruct (files st) as [|f fs] eqn:E; [reflexivity|].
      rewrite load_returns in H by (rewrite E; discriminate). discriminate.
    - intros H. rewrite (load_without_files st H). reflexivity. }
  split; [exact Hiff|]. split; [apply constructor_files|].
  intros el opts auto custom ops H. apply Hiff in H.
  destruct (files_emptied ops (constructor el opts auto custom)) eqn:E;
    [reflexivity|].
  exfalso. revert H.
  apply run_all_keeps_files_nonempty; [exact E|apply constructor_files].
Qed.

(** **** The promise of [play] is set only with a backend *)












End Facade.

(** Witness of [media_not_set_only_without_files]: the setter [mediaFiles]
    given an empty array, then [load]. *)
Lemma media_not_set_witness :
  Media.files_emptied (fun _ => "video/mp4") (fun _ => false) (fun _ => false)
    (fun _ => false) sample_backend (fun _ _ => true) (fun _ => false)
    [OpSetMediaFiles []] sample_media = true.
Proof.
  apply (proj2 (proj2 (media_not_set_only_without_files
                         (fun _ => "video/mp4") (fun _ => false) (fun _ => false)
                         (fun _ => false) sample_backend (fun _ _ => true)
                         (fun _ => false)))
           sample_element (mkOptions false []) false (mkCustomMedia [] [])
           [OpSetMediaFiles []]).
  reflexivity.
Defined.

(** C9 as stated fails: the setter [src] given an empty array empties the
    list as well (and throws); [load] then throws "Media not set" although
    the setter [mediaFiles] was never used. *)
Lemma media_not_set_counterexample :
  snd (Media.load (fun _ => false) (fun _ => false) (fun _ => false)
         sample_backend (fun _ _ => true) (fun _ => false)
         (Media.run_all (fun _ => "video/mp4") (fun _ => false) (fun _ => false)
            (fun _ => false) sample_backend (fun _ _ => true) (fun _ => false)
            [OpSetSrc (SrcArray [])] sample_media))
    = Js.Throw (Js.TypeError "Media not set") /\
  existsb sets_mediaFiles_empty [OpSetSrc (SrcArray [])] = false.
Proof. split; reflexivity. Qed.

(** C7.  A level is made of its three fields [height], [id] and [label];
    and on a facade without a backend the getter [levels] gives the empty
    list, the getter [level] gives -1 and the setter [level] changes
    nothing. *)
Theorem level_needs_backend (l : Level) (st : State) (v : number) :
  media st = None ->
  l = mkLevel (height l) (id l) (label l) /\
  get_levels st = [] /\
  get_level st = (-1 # 1)%Q /\
  set_level v st = st.
Proof.
  intros Hm. unfold get_levels, get_level, set_level, on_backend. rewrite Hm.
  destruct l. repeat split; reflexivity.
Qed.

(** Witness of [level_needs_backend]: the facade as it is built. *)
Lemma level_needs_backend_witness :
  get_levels sample_media = [] /\ get_level sample_media = (-1 # 1)%Q /\
  set_level 2%Q sample_media = sample_media.
Proof.
  apply (proj2 (level_needs_backend (mkLevel 720%Q 2%Q (LabelString "720p"))
                  sample_media 2%Q eq_refl)).
Defined.

End MediaFacts.

Module AdsFacts.
Import Media Ads JsFacts.

Local Open Scope string_scope.
Local Open Scope Z_scope.
Local Open Scope js_scope.

Lemma preserves_for_each {A} (I : State -> Prop) (l : list A) f :
  (forall x, preserves I (f x)) -> preserves I (for_each l f).
Proof.
  intros Hf. induction l as [|x r IH]; simpl.
  - apply preserves_ret.
  - apply preserves_bind; [apply Hf|intros; exact IH].
Qed.

Lemma preserves_swallow (I : State -> Prop) m :
  preserves I m -> preserves I (swallow m).
Proof.
  intros H. apply preserves_catch; [exact H|intros; apply preserves_ret].
Qed.

Lemma preserves_on_media {A} (I : State -> Prop) (m : M Media.State A) :
  (forall ms st, I st -> I (set_media ms st)) -> preserves I (on_media m).
Proof. intros H st Hs. unfold on_media. simpl. apply H. exact Hs. Qed.

(** Walks through a handler: sequences, conditions and the cases of the
    values it reads. *)
Ltac step_preserves :=
  first
    [ simple apply preserves_ret
    | simple apply preserves_throw
    | simple apply preserves_get
    | simple apply preserves_when
    | simple apply preserves_swallow
    | simple apply preserves_for_each; intros
    | simple apply preserves_bind; [|intros]
    | simple apply preserves_catch; [|intros]
    | match goal with
      | |- preserves _ (let _ := _ in _) => cbv zeta
      | |- preserves _ (if ?c then _ else _) => destruct c
      | |- preserves _ (match ?x with _ => _ end) => destruct x
      end ].

Section Handlers.

Variable IS_IOS : bool.
Variable IS_ANDROID : bool.
Variable IS_IPHONE : bool.
Variable isVideo : bool.
Variable isXml : string -> bool.
Variable predictType : string -> string.
Variable isHlsSource : Source -> bool.
Variable isDashSource : Source -> bool.
Variable isFlvSource : Source -> bool.
Variable new_backend : BackendKind -> Element -> Source -> Backend.
Variable backend_canPlayType : Backend -> string -> bool.
Variable playHLSNatively : Element -> bool.

Local Abbreviation media_load :=
  (media_load isHlsSource isDashSource isFlvSource new_backend
              backend_canPlayType playHLSNatively).
Local Abbreviation media_play :=
  (media_play isHlsSource isDashSource isFlvSource new_backend
              backend_canPlayType playHLSNatively).
Local Abbreviation media_set_src := (media_set_src predictType backend_canPlayType).
Local Abbreviation _requestAds := (_requestAds isXml).
Local Abbreviation _contentLoadedAction := (_contentLoadedAction isXml).
Local Abbreviation _resetAdsAfterManualBreak := (_resetAdsAfterManualBreak).
Local Abbreviation _loadedMetadataHandler := (_loadedMetadataHandler isXml).
Local Abbreviation run_listener := (run_listener isXml).
Local Abbreviation dispatch_loadedmetadata := (dispatch_loadedmetadata isXml).
Local Abbreviation dispatch_ended := (dispatch_ended isXml).
Local Abbreviation load := (load isXml).
Local Abbreviation _initNotDoneAds := (_initNotDoneAds IS_IOS IS_ANDROID isXml).
Local Abbreviation _start := (_start IS_IOS IS_ANDROID isXml).
Local Abbreviation _loaded := (_loaded IS_IOS IS_ANDROID isXml).
Local Abbreviation _error := (_error isXml).
Local Abbreviation _onContentResumeRequested :=
  (_onContentResumeRequested IS_IOS IS_ANDROID isXml predictType isHlsSource
     isDashSource isFlvSource new_backend backend_canPlayType playHLSNatively).
Local Abbreviation assign_switch :=
  (assign_switch IS_IOS IS_ANDROID IS_IPHONE isVideo isXml predictType isHlsSource
     isDashSource isFlvSource new_backend backend_canPlayType playHLSNatively).
Local Abbreviation _assign :=
  (_assign IS_IOS IS_ANDROID IS_IPHONE isVideo isXml predictType isHlsSource
     isDashSource isFlvSource new_backend backend_canPlayType playHLSNatively).
Local Abbreviation run_task :=
  (run_task isXml isHlsSource isDashSource isFlvSource new_backend
     backend_canPlayType playHLSNatively).
Local Abbreviation handle :=
  (handle IS_IOS IS_ANDROID IS_IPHONE isVideo isXml predictType isHlsSource
     isDashSource isFlvSource new_backend backend_canPlayType playHLSNatively).
Local Abbreviation step :=
  (step IS_IOS IS_ANDROID IS_IPHONE isVideo isXml predictType isHlsSource
     isDashSource isFlvSource new_backend backend_canPlayType playHLSNatively).

(** **** Handlers that never make an ad active *)

Ltac off_update :=
  simple apply preserves_update; intros ? ?; unfold ads_off in *;
  repeat match goal with
         | |- context [match ?x with _ => _ end] => destruct x
         end;
  first [assumption | reflexivity].

Ltac off :=
  unfold manager_call, loader_call, set_active_class,
    Ads.media_load, Ads.media_play, media_pause, Ads.media_set_src,
    dispatchEvent, emit;
  repeat first
    [ off_update
    | simple apply preserves_on_media; intros ? ? ?; assumption
    | step_preserves ].

Lemma off_resumeMedia : preserves ads_off _resumeMedia.
Proof. unfold _resumeMedia. off. Qed.


Lemma off_requestAds : preserves ads_off _requestAds.
Proof. unfold Ads._requestAds. off. Qed.









Lemma off_destroy : preserves ads_off destroy.
Proof. unfold destroy. off. Qed.

Lemma off_load force : preserves ads_off (load force).
Proof. unfold Ads.load. off. apply off_requestAds. Qed.



Lemma off_error error : preserves ads_off (_error error).
Proof.
  unfold Ads._error. off;
    first [apply off_destroy | apply off_load | apply off_resumeMedia].
Qed.







(** **** Handlers that leave the content held *)




















(** **** Handlers keep the facade sound *)




























(** **** The ads manager is there when it has listeners *)

Ltac known_update :=
  simple apply preserves_update; intros ? ?; unfold manager_known, has_manager in *;
  repeat match goal with
         | |- context [match ?x with _ => _ end] => destruct x
         end;
  simpl; first [assumption | left; reflexivity | right; discriminate].

Ltac known :=
  unfold manager_call, loader_call, set_active_class,
    Ads.media_load, Ads.media_play, media_pause, Ads.media_set_src,
    _setMediaVolume, dispatchEvent, emit;
  repeat first
    [ known_update
    | simple apply preserves_on_media; intros ? ? ?; assumption
    | step_preserves ].

Lemma known_resumeMedia : preserves manager_known _resumeMedia.
Proof. unfold _resumeMedia. known. Qed.

Lemma known_prepareMedia : preserves manager_known _prepareMedia.
Proof. unfold _prepareMedia. known. apply known_resumeMedia. Qed.

Lemma known_requestAds : preserves manager_known _requestAds.
Proof. unfold Ads._requestAds. known. Qed.

Lemma known_contentLoadedAction : preserves manager_known _contentLoadedAction.
Proof. unfold Ads._contentLoadedAction. known. apply known_requestAds. Qed.

Lemma known_resetAdsAfterManualBreak :
  preserves manager_known _resetAdsAfterManualBreak.
Proof. unfold Ads._resetAdsAfterManualBreak. known. Qed.

Lemma known_loadedMetadataHandler : preserves manager_known _loadedMetadataHandler.
Proof.
  unfold Ads._loadedMetadataHandler. known;
    first [apply known_requestAds | apply known_prepareMedia
          | apply known_resetAdsAfterManualBreak].
Qed.

Lemma known_contentEndedListener : preserves manager_known _contentEndedListener.
Proof. unfold _contentEndedListener. known. Qed.

Lemma known_resizeAds : preserves manager_known resizeAds.
Proof. unfold resizeAds. known. Qed.

Lemma known_run_listener l : preserves manager_known (run_listener l).
Proof.
  destruct l; simpl;
    [apply known_resizeAds | apply known_contentLoadedAction
    | apply known_loadedMetadataHandler | apply known_contentEndedListener].
Qed.

Lemma known_dispatch_loadedmetadata : preserves manager_known dispatch_loadedmetadata.
Proof. unfold Ads.dispatch_loadedmetadata. known. apply known_run_listener. Qed.

Lemma known_dispatch_ended : preserves manager_known dispatch_ended.
Proof. unfold Ads.dispatch_ended. known. apply known_run_listener. Qed.

Lemma known_destroy : preserves manager_known destroy.
Proof. unfold destroy. known. Qed.

Lemma known_load force : preserves manager_known (load force).
Proof. unfold Ads.load. known. apply known_requestAds. Qed.

Lemma known_error error : preserves manager_known (_error error).
Proof.
  unfold Ads._error. known;
    first [apply known_destroy | apply known_load | apply known_resumeMedia].
Qed.

Lemma known_onContentPauseRequested :
  preserves manager_known _onContentPauseRequested.
Proof. unfold _onContentPauseRequested. known. Qed.

Lemma known_onContentResumeRequested :
  preserves manager_known _onContentResumeRequested.
Proof.
  unfold Ads._onContentResumeRequested. known;
    first [apply known_destroy | apply known_load | apply known_prepareMedia
          | apply known_dispatch_loadedmetadata].
Qed.

Lemma known_pause : preserves manager_known pause.
Proof. unfold pause. known. Qed.

Lemma known_handleClickInContainer :
  preserves manager_known _handleClickInContainer.
Proof. unfold _handleClickInContainer. known. apply known_pause. Qed.

Lemma known_interval_tick : preserves manager_known interval_tick.
Proof. unfold interval_tick. known. Qed.

Lemma known_run_task t : preserves manager_known (run_task t).
Proof.
  destruct t; simpl.
  - known. apply known_dispatch_ended.
  - apply known_dispatch_ended.
  - apply known_loadedMetadataHandler.
Qed.

Lemma known_assign event : preserves manager_known (_assign event).
Proof.
  destruct event as [ty ad err].
  unfold Ads._assign, Ads.assign_switch, ad_isLinear. simpl.
  destruct ty; known;
    first [apply known_onContentResumeRequested | apply known_dispatch_loadedmetadata
          | apply known_resizeAds | apply known_destroy | apply known_dispatch_ended].
Qed.

(** Once the manager is given it stays, whatever [_start] does. *)
Ltac manager_update :=
  simple apply preserves_update; intros ? ?; unfold has_manager in *;
  repeat match goal with
         | |- context [match ?x with _ => _ end] => destruct x
         end;
  simpl; assumption.

Lemma manager_start manager : preserves has_manager (_start manager).
Proof.
  unfold Ads._start, Ads._initNotDoneAds, Ads._contentLoadedAction,
    Ads._requestAds, loader_call, dispatchEvent, emit.
  repeat first [manager_update | step_preserves].
Qed.

Lemma known_loaded manager : preserves manager_known (_loaded manager).
Proof.
  intros st _. right.
  change (has_manager (fst (_start manager (set_adsManager (Some manager) st)))).
  apply manager_start. unfold has_manager. simpl. discriminate.
Qed.

Lemma known_step ev st : manager_known st -> manager_known (step ev st).
Proof.
  intros Hk. unfold Ads.step.
  destruct ev; simpl;
    first [ apply known_load | apply known_assign | apply known_error
          | apply known_loaded | apply known_onContentPauseRequested
          | apply known_onContentResumeRequested
          | apply known_dispatch_loadedmetadata | apply known_dispatch_ended
          | apply known_handleClickInContainer | apply known_interval_tick
          | apply known_run_task ];
    try exact Hk.
  destruct (take_task t (pending st)); exact Hk.
Qed.

(** In every state the events lead to, the ads manager is there if it has
    listeners: [destroy] can take them off. *)
Theorem manager_known_when_listening guard m p source auto autoMuted opts evs st :
  run IS_IOS IS_ANDROID IS_IPHONE isVideo isXml predictType isHlsSource
      isDashSource isFlvSource new_backend backend_canPlayType playHLSNatively
      guard evs (constructor m p source auto autoMuted opts) = Some st ->
  manager_known st.
Proof.
  assert (H : forall evs st0 st',
             manager_known st0 ->
             run IS_IOS IS_ANDROID IS_IPHONE isVideo isXml predictType isHlsSource
                 isDashSource isFlvSource new_backend backend_canPlayType
                 playHLSNatively guard evs st0 = Some st' ->
             manager_known st').
  { clear. induction evs as [|ev rest IH]; simpl; intros st0 st' Hk Hr.
    - injection Hr as <-. exact Hk.
    - destruct (guard ev st0); [|discriminate].
      apply (IH _ _ (known_step ev st0 Hk) Hr). }
  intros Hr.
  apply (H evs (constructor m p source auto autoMuted opts) st); [|exact Hr].
  left. reflexivity.
Qed.

(** **** The events of the ads manager *)



(** **** A linear ad starts *)




(** **** An error *)



(** **** One step *)






End Handlers.


(** Witness of [manager_known_when_listening]: the manager has its
    listeners when the linear ad runs, and it is there. *)
Lemma manager_known_witness : manager_known sample_ad_running.
Proof.
  apply (manager_known_when_listening
           false false false true (fun _ => false) (fun _ => "video/mp4")
           (fun _ => false) (fun _ => false) (fun _ => false)
           sample_backend (fun _ _ => true) (fun _ => false)
           enabled playing_media None (SingleAd "https://ads.example/tag")
           false false (mkOptions true false false false)
           ad_break_begins sample_ad_running).
  vm_compute. reflexivity.
Defined.

(** The handler of the request to resume the content does not look at
    [adsActive], nor does the resumption it sets.  When the request
    comes while the ad is still active, the content plays with
    [adsActive] true. *)
Lemma content_plays_when_resumed_during_ad :
  match sample_run enabled resumed_during_ad sample_ads with
  | Some st => adsActive st && negb (Media.get_paused (media st))
  | None => false
  end = true.
Proof. vm_compute. reflexivity. Qed.

(** C5 fails in a second ad break.  After a first break the listener
    for [loadedmetadata] that [_onContentResumeRequested] added is still
    on the element ([_prepareMedia] takes off a function bound anew) and
    [mediaStarted] is false as it always is.  So when the linear ad of
    the second break is loaded, [LOADED] dispatches [loadedmetadata],
    [_loadedMetadataHandler] runs [_prepareMedia], and a resumption of
    the content is set to run 50 ms later, with no ad active yet.
    [STARTED] of that ad pauses the content and marks the ad as active,
    and leaves the resumption where it is; when it runs, the content
    plays while [adsActive] is true.  Every handler on the way returns,
    and every event can come in the state it comes in. *)
Theorem content_plays_in_second_ad_break :
  (exists st,
      sample_run enabled first_ad_break sample_ads = Some st /\
      adsActive st = false /\ Media.get_paused (media st) = false /\
      pending st = [] /\ mediaStarted st = false /\
      In OnMetadataHandler (listeners st)) /\
  (exists st,
      sample_run enabled second_ad_loaded sample_ads = Some st /\
      adsActive st = false /\ pending st = [TimerResume]) /\
  (exists st,
      sample_run enabled second_ad_started sample_ads = Some st /\
      adsActive st = true /\ Media.get_paused (media st) = true /\
      pending st = [TimerResume]) /\
  (exists st,
      sample_run enabled second_ad_resumed sample_ads = Some st /\
      adsActive st = true /\ Media.get_paused (media st) = false) /\
  Forall (fun o => o = Normal tt) (sample_outcomes second_ad_resumed sample_ads).
Proof.
  split; [eexists; split; [vm_compute; reflexivity|]; vm_compute; intuition|].
  split; [eexists; split; [vm_compute; reflexivity|]; vm_compute; intuition|].
  split; [eexists; split; [vm_compute; reflexivity|]; vm_compute; intuition|].
  split; [eexists; split; [vm_compute; reflexivity|]; vm_compute; intuition|].
  vm_compute. repeat constructor.
Qed.

(** **** The content around an ad break *)




(** **** The handler of the errors *)

Lemma set_trace_same st : set_trace (trace st) st = st.
Proof. destruct st. reflexivity. Qed.

Lemma set_trace_twice a b st : set_trace a (set_trace b st) = set_trace a st.
Proof. destruct st. reflexivity. Qed.

Lemma for_each_manager_call {A} (l : list A) name st m :
  adsManager st = Some m ->
  for_each l (fun _ => manager_call name) st
  = (set_trace (trace st ++ map (fun _ => Sdk ("adsManager." ++ name)) l)%list st,
     Normal tt).
Proof.
  revert st. induction l as [|x r IH]; intros st Hm; simpl.
  - rewrite app_nil_r, set_trace_same. reflexivity.
  - unfold bindM at 1. unfold manager_call at 1. unfold bindM, get, emit, update.
    rewrite Hm. rewrite IH by exact Hm. simpl.
    rewrite set_trace_twice, <- app_assoc. reflexivity.
Qed.

Ltac run_step := first [rewrite bindM_update | rewrite bindM_get]; cbv beta.
Ltac run_steps := repeat run_step.

Lemma destroy_keeps_manager st :
  events st = [] \/ adsManager st <> None ->
  is_array (ads st) = true ->
  (ads_length (ads st) <? currentAdsIndex st) = false ->
  destroy st
  = (set_trace (trace st
                ++ map (fun _ => Sdk "adsManager.removeEventListener") (events st)
                ++ [Sdk "removeElement(adsContainer)"])%list
       (set_events [] st), Normal tt).
Proof.
  intros Hw Ha Hd. unfold destroy. run_step.
  assert (Hf : for_each (events st) (fun _ => manager_call "removeEventListener") st
               = (set_trace (trace st
                    ++ map (fun _ => Sdk "adsManager.removeEventListener") (events st))%list
                    st, Normal tt)).
  { destruct (adsManager st) as [m|] eqn:Em.
    - apply (for_each_manager_call _ _ _ m). exact Em.
    - destruct Hw as [Hw|Hw]; [|congruence]. rewrite Hw. simpl.
      rewrite app_nil_r, set_trace_same. reflexivity. }
  rewrite (bindM_returns _ _ _ _ _ Hf). run_steps.
  rewrite Ha, Hd. simpl negb. simpl orb.
  assert (Hwhen : when match adsManager st with Some _ => false | None => false end
                    (manager_call "destroy") = ret tt)
    by (destruct (adsManager st); reflexivity).
  rewrite Hwhen. unfold ret at 1, bindM at 1, emit, update.
  f_equal. destruct st. simpl. rewrite <- app_assoc. reflexivity.
Qed.

Section ErrorHandler.

Variable isXml : string -> bool.

Local Abbreviation _error := (_error isXml).
Local Abbreviation load := (load isXml).

Lemma load_again st :
  adsDone st = false ->
  exists st',
    load true st = (st', Normal tt) /\
    trace st' = (trace st ++ [Sdk "ima.settings"; Sdk "adDisplayContainer.initialize";
                              Sdk "adsLoader.requestAds"])%list /\
    adsStarted st' = true /\
    currentAdsIndex st' = currentAdsIndex st /\
    playTriggered st' = playTriggered st /\
    events st' = events st /\
    pending st' = pending st /\ media st' = media st /\
    adsActive st' = adsActive st /\
    adsRequest st'
    = (let tag := match ads st with
                  | AdList tags => index tags (currentAdsIndex st)
                  | SingleAd t => Some t
                  end in
       Some (mkRequest tag (match tag with Some t => isXml t | None => false end)
                       (autoStart st) (autoStartMuted st))).
Proof.
  intros Hd. unfold Ads.load, Ads._requestAds, loader_call, emit.
  unfold bindM, update, Js.get, when, ret; simpl.
  rewrite andb_false_r; simpl.
  rewrite orb_true_r; simpl.
  destruct (customClick_enabled _); simpl; rewrite Hd; lazy -[app index];
    (eexists; split; [reflexivity|]); lazy -[app index];
    repeat split; try reflexivity;
    rewrite <- !app_assoc; reflexivity.
Qed.

Ltac frame_update :=
  simple apply preserves_update; intros ? (? & ? & ? & ? & ? & ?);
  unfold fallback_frame;
  repeat match goal with
         | |- context [match ?x with _ => _ end] => destruct x
         end;
  simpl; repeat split; first [assumption | reflexivity].

Ltac frame :=
  unfold manager_call, loader_call, emit;
  repeat first [frame_update | step_preserves].

Lemma frame_destroy i p m a : preserves (fallback_frame i p m a) destroy.
Proof. unfold destroy. frame. Qed.

Lemma frame_load i p m a : preserves (fallback_frame i p m a) (load true).
Proof. unfold Ads.load, Ads._requestAds. frame. Qed.

Lemma error_fallback_frame error st :
  has_next_ad st = true ->
  fallback_frame (currentAdsIndex st + 1) (pending st) (media st) (adsActive st)
                 (fst (_error error st)).
Proof.
  intros Hn. unfold Ads._error, emit. run_steps.
  replace (has_next_ad (set_trace (trace st ++ [PlayerError (errorText error)])%list st))
    with true by (symmetry; exact Hn).
  run_steps.
  assert (Hp : preserves (fallback_frame (currentAdsIndex st + 1) (pending st)
                            (media st) (adsActive st))
                 (destroy ;; load true ;;
                  update (fun st0 =>
                    set_trace (trace st0 ++ [Warn (errorText error)])%list st0))).
  { apply preserves_bind; [apply frame_destroy|intros _].
    apply preserves_bind; [apply frame_load|intros _].
    frame_update. }
  apply Hp. unfold fallback_frame. simpl. repeat split; reflexivity.
Qed.

Lemma error_falls_back error st :
  has_next_ad st = true ->
  (events st = [] \/ adsManager st <> None) ->
  exists st',
    _error error st = (st', Normal tt) /\
    currentAdsIndex st' = currentAdsIndex st + 1 /\
    playTriggered st' = true /\ adsStarted st' = true /\
    trace st' =
      (trace st ++ [PlayerError (errorText error)]
       ++ map (fun _ => Sdk "adsManager.removeEventListener") (events st)
       ++ [Sdk "removeElement(adsContainer)"; Sdk "ima.settings";
           Sdk "adDisplayContainer.initialize"; Sdk "adsLoader.requestAds";
           Warn (errorText error)])%list /\
    events st' = [] /\
    pending st' = pending st /\ media st' = media st /\
    adsActive st' = adsActive st /\
    exists tags,
      ads st = AdList tags /\
      adsRequest st'
      = Some (mkRequest (index tags (currentAdsIndex st + 1))
                (match index tags (currentAdsIndex st + 1) with
                 | Some t => isXml t
                 | None => false
                 end)
                (autoStart st) (autoStartMuted st)) /\
      (0 <= currentAdsIndex st ->
       exists t, index tags (currentAdsIndex st + 1) = Some t).
Proof.
  intros Hn Hw.
  assert (Hn' := Hn). unfold has_next_ad in Hn'.
  apply andb_prop in Hn'. destruct Hn' as [Hn' Hi].
  apply andb_prop in Hn'. destruct Hn' as [Ha _].
  apply Z.ltb_lt in Hi.
  unfold Ads._error, emit. run_steps.
  replace (has_next_ad (set_trace (trace st ++ [PlayerError (errorText error)])%list st))
    with true by (symmetry; exact Hn).
  run_steps.
  assert (Hd : (ads_length (ads st) <? currentAdsIndex st + 1) = false)
    by (apply Z.ltb_ge; lia).
  match goal with
  | |- context [bindM destroy _ ?s] => pose (s0 := s)
  end.
  rewrite (bindM_returns _ _ _ _ _ (destroy_keeps_manager s0 Hw Ha Hd)).
  cbv beta.
  match goal with
  | |- context [bindM (load true) _ ?s] => pose (s1 := s)
  end.
  destruct (load_again s1 eq_refl) as [s2 [E2 P2]].
  rewrite (bindM_returns _ _ _ _ _ E2). unfold update.
  eexists. split; [reflexivity|].
  destruct P2 as [Pt [Ps [Pi [Pp [Pe [Pq [Pm [Pa Pr]]]]]]]]. simpl.
  rewrite Pt, Ps, Pi, Pp, Pe, Pq, Pm, Pa, Pr. simpl.
  split; [reflexivity|]. split; [reflexivity|]. split; [reflexivity|].
  split.
  { repeat (rewrite <- (app_assoc (trace st)); simpl).
    repeat (rewrite <- (app_assoc (map _ (events st))); simpl).
    reflexivity. }
  split; [reflexivity|]. split; [reflexivity|]. split; [reflexivity|].
  split; [reflexivity|].
  assert (Ht : exists tags, ads st = AdList tags)
    by (revert Ha; destruct (ads st); [discriminate|eauto]).
  destruct Ht as [tags Eads]. rewrite Eads in Hi. cbn [ads_length] in Hi.
  exists tags. split; [exact Eads|]. rewrite Eads.
  split; [reflexivity|].
  intros H0. apply index_in_range. lia.
Qed.

(** C3.  [_error] with a list of more than one ad tag and the index below
    the last position goes on to the next tag: the index is one more, play
    is marked as triggered and the ads as started, no resumption of the
    content is set, and the facade and [adsActive] are as they were.  With
    the manager there if it has listeners (as it is in every state the
    events lead to, [manager_known_when_listening]) the handler returns,
    and what it asks of the SDK is [destroy] followed by [load(true)]: the
    listeners of the manager are taken off, the manager itself is not
    destroyed, and [load] initialises the display container (the ads were
    marked as not done) and requests the ads again, with a new request
    for the tag at the new index of the list (a tag that is there when
    the index was not negative), given as XML or as URL as [isXml] tells
    and with the values of [autoStart] and [autoStartMuted]; that request
    is the one the component holds when the handler returns.  In every other case
    the index is as it was, the manager is destroyed only for a fatal code,
    and [_resumeMedia] runs (after [adsActive] is set to false) exactly
    when [autoStart], [autoStartMuted] or [adsStarted] is true: the content
    is set to play 50 ms later, or [ended] is dispatched if it has
    ended. *)
Theorem error_falls_back_or_resumes error st :
  (has_next_ad st = true ->
   let st' := fst (_error error st) in
   (currentAdsIndex st' = currentAdsIndex st + 1 /\
    playTriggered st' = true /\ adsStarted st' = true /\
    pending st' = pending st /\ media st' = media st /\
    adsActive st' = adsActive st) /\
   (manager_known st ->
    snd (_error error st) = Normal tt /\
    trace st' =
      (trace st ++ [PlayerError (errorText error)]
       ++ map (fun _ => Sdk "adsManager.removeEventListener") (events st)
       ++ [Sdk "removeElement(adsContainer)"; Sdk "ima.settings";
           Sdk "adDisplayContainer.initialize"; Sdk "adsLoader.requestAds";
           Warn (errorText error)])%list /\
    events st' = [] /\
    exists tags,
      ads st = AdList tags /\
      adsRequest st'
      = Some (mkRequest (index tags (currentAdsIndex st + 1))
                (match index tags (currentAdsIndex st + 1) with
                 | Some t => isXml t
                 | None => false
                 end)
                (autoStart st) (autoStartMuted st)) /\
      (0 <= currentAdsIndex st ->
       exists t, index tags (currentAdsIndex st + 1) = Some t))) /\
  (has_next_ad st = false ->
   let st' := fst (_error error st) in
   snd (_error error st) = Normal tt /\
   currentAdsIndex st' = currentAdsIndex st /\
   trace st' = (trace st ++ [PlayerError (errorText error)]
                ++ error_effects error st)%list /\
   media st' = media st /\
   (resume_wanted st = true ->
    adsActive st' = false /\
    pending st' = (pending st ++ [if Media.get_ended (media st)
                                  then MicrotaskEnded else TimerResume])%list) /\
   (resume_wanted st = false ->
    adsActive st' = adsActive st /\ pending st' = pending st)).
Proof.
  split.
  - intros Hn. cbv zeta. split; [exact (error_fallback_frame error st Hn)|].
    intros Hw.
    destruct (error_falls_back error st Hn Hw) as [st' [E P]].
    rewrite E. cbn [fst snd].
    destruct P as (_ & _ & _ & Pt & Pe & _ & _ & _ & Pr).
    split; [reflexivity|]. split; [exact Pt|]. split; [exact Pe|exact Pr].
  - intros Hn.
    unfold Ads._error, error_effects, manager_call, emit, set_active_class,
      _resumeMedia, resume_wanted, has_next_ad in *.
    unfold bindM, update, Js.get, when, ret. simpl. rewrite Hn.
    destruct (is_fatal (getErrorCode error));
      destruct (adsManager st) eqn:Em; simpl; rewrite ?Em;
      destruct (autoStart st || autoStartMuted st || adsStarted st) eqn:Er;
      destruct (parent st) eqn:Ep; simpl; rewrite ?Ep;
      lazy -[app Media.get_ended];
      repeat split; try reflexivity; try discriminate;
      rewrite <- ?app_assoc; reflexivity.
Qed.

End ErrorHandler.

(** Witness of [error_falls_back_or_resumes]: two ad tags, the first of
    which fails; the second is requested. *)
Lemma error_falls_back_witness :
  currentAdsIndex (fst (Ads._error (fun _ => false) sample_error sample_two_tags)) = 1
  /\ snd (Ads._error (fun _ => false) sample_error sample_two_tags) = Normal tt
  /\ option_map r_ads
       (adsRequest (fst (Ads._error (fun _ => false) sample_error sample_two_tags)))
     = Some (Some "https://ads.example/second"%string).
Proof.
  destruct (proj1 (error_falls_back_or_resumes (fun _ => false) sample_error
                     sample_two_tags) ltac:(vm_compute; reflexivity))
    as [Hframe Hrun].
  split; [apply Hframe|].
  destruct Hrun as (Hret & _ & _ & tags & Htags & Hreq & _).
  { right. vm_compute. discriminate. }
  split; [exact Hret|].
  rewrite Hreq. vm_compute in Htags. injection Htags as <-. reflexivity.
Defined.

End AdsFacts.

(** ** Fullscreen *)

Module FullscreenFacts.
Import Fullscreen JsFacts.

Local Open Scope string_scope.
Local Open Scope js_scope.

(** A function object still to be made is not among the listeners. *)
Lemma remove_unmade t type f st :
  listeners_made st -> (next_fn st <= fn_id f)%nat ->
  filter (fun r => negb (same_registration t type f r)) (listeners st)
  = listeners st.
Proof.
  unfold listeners_made. intros Hm Hf.
  induction (listeners st) as [|r rest IH]; [reflexivity|].
  inversion Hm as [|r' rest' Hr Hrest]; subst. simpl.
  assert (Hne : Nat.eqb (fn_id f) (fn_id (reg_listener r)) = false)
    by (apply Nat.eqb_neq; lia).
  unfold same_registration at 1. rewrite Hne, andb_false_r. simpl.
  rewrite (IH Hrest). reflexivity.
Qed.

(** Removing a listener given as a function made for the occasion removes
    nothing. *)
Lemma remove_new_function l c t type :
  preserves (listeners_are l)
    (f <- new_function c ;; removeEventListener t type f).
Proof.
  intros st [Hl Hm].
  change (listeners_are l
            (set_listeners
               (filter (fun r => negb (same_registration t type
                                         (mkFn (next_fn st) c) r))
                       (listeners st))
               (set_next_fn (S (next_fn st)) st))).
  rewrite (remove_unmade t type (mkFn (next_fn st) c) st Hm (Nat.le_refl _)).
  split; [exact Hl|].
  unfold listeners_made in *. simpl.
  eapply Forall_impl; [|exact Hm]. simpl. intros r Hr. lia.
Qed.

Lemma remove_new_function_then {A} l c t type (k : M State A) :
  preserves (listeners_are l) k ->
  preserves (listeners_are l)
    (f <- new_function c ;; removeEventListener t type f ;; k).
Proof.
  intros Hk st Hs.
  change (listeners_are l
            (fst (bindM (f <- new_function c ;; removeEventListener t type f)
                        (fun _ => k) st))).
  revert st Hs. apply preserves_bind; [apply remove_new_function|intros _; exact Hk].
Qed.

Lemma preserves_forEach (I : State -> Prop) (l : list string) f :
  (forall x, preserves I (f x)) -> preserves I (forEach l f).
Proof.
  intros Hf. induction l as [|x r IH]; simpl.
  - apply preserves_ret.
  - apply preserves_bind; [apply Hf|intros; exact IH].
Qed.

Section Component.

Variable IS_IPHONE : bool.
Variable removeElement : bool -> bool.

(** [destroy] leaves every listener where it is. *)
Lemma destroy_keeps_listeners l :
  preserves (listeners_are l) (destroy IS_IPHONE removeElement).
Proof.
  unfold destroy.
  apply remove_new_function_then.
  apply preserves_bind; [apply preserves_get|intros st].
  destruct (fullscreenEvents st) as [events|]; [|apply preserves_throw].
  apply preserves_bind.
  { apply preserves_forEach. intros event. apply remove_new_function. }
  intros _. apply preserves_bind.
  { apply preserves_when. apply remove_new_function_then. apply remove_new_function. }
  intros _. destruct (button st); [|apply preserves_throw].
  destruct (clickEvent st); [|apply preserves_throw].
  apply remove_new_function_then.
  apply preserves_update. intros s H. exact H.
Qed.

(** C6 fails.  [create] on a new component registers six listeners (eight
    on an iPhone); [destroy] after it returns and every one of them is
    still registered: each listener it hands to [removeEventListener] is a
    function object made by [bind] or by an arrow function there and then,
    not the one that was added. *)
Theorem destroy_leaves_listeners_of_create :
  let created := fst (create IS_IPHONE constructor) in
  snd (create IS_IPHONE constructor) = Normal tt /\
  List.length (listeners created) = (if IS_IPHONE then 8 else 6)%nat /\
  snd (destroy IS_IPHONE removeElement created) = Normal tt /\
  listeners (fst (destroy IS_IPHONE removeElement created)) = listeners created.
Proof.
  destruct IS_IPHONE; vm_compute; repeat split; reflexivity.
Qed.

End Component.

(** Whatever the listeners are, [destroy] removes none of them. *)
Theorem destroy_removes_no_listener IS_IPHONE removeElement st :
  listeners_made st ->
  listeners (fst (destroy IS_IPHONE removeElement st)) = listeners st.
Proof.
  intros Hm.
  apply (destroy_keeps_listeners IS_IPHONE removeElement (listeners st) st).
  split; [reflexivity|exact Hm].
Qed.

(** Witness of [destroy_removes_no_listener]: the component after
    [create] on an iPhone. *)
Lemma destroy_removes_no_listener_witness :
  listeners (fst (destroy true (fun _ => false) (fst (create true constructor))))
  = listeners (fst (create true constructor)).
Proof.
  apply (destroy_removes_no_listener true (fun _ => false)
           (fst (create true constructor))).
  unfold listeners_made. vm_compute. repeat constructor.
Defined.

End FullscreenFacts.

(** ** More on the search of the cues *)

Module SearchMore.
Import Captions JsFacts SearchFacts.

(** Whatever the cues are and in whatever order, an index the loop
    returns is that of a cue whose interval contains the time. *)
Lemma search_loop_sound tracks t r :
  forall fuel low high,
    search_loop fuel tracks t low high = Normal r ->
    r = -1 \/ exists c, index tracks r = Some c /\ contains c t.
Proof.
  induction fuel as [|fuel IH]; intros low high H; simpl in H.
  - destruct (low <=? high); [discriminate|].
    left. congruence.
  - destruct (low <=? high); [|left; congruence].
    destruct (index tracks (sar (low + high) 1)) as [c|] eqn:Hc; [|discriminate].
    destruct (Qle_bool (startTime c) t && Qlt_bool t (endTime c)) eqn:T0.
    + right. injection H as <-. exists c. split; [exact Hc|].
      apply contains_test. exact T0.
    + destruct (Qlt_bool (startTime c) t); [exact (IH _ _ H)|].
      destruct (Qlt_bool t (startTime c)); exact (IH _ _ H).
Qed.

(** [_search] never answers with the index of a cue that does not contain
    the time: for every list of cues, sorted or not, what it returns is
    [-1] or the index of a cue with [startTime <= currentTime < endTime]. *)
Theorem search_answers_only_containing_cue fuel tracks t r :
  _search fuel tracks t = Normal r ->
  r = -1 \/ exists c, index tracks r = Some c /\ contains c t.
Proof. unfold _search. apply search_loop_sound. Qed.

(** Witness of [search_answers_only_containing_cue]: two cues out of
    order. *)
Lemma search_answers_witness :
  0 = -1 \/ exists c, index [cue 5 10; cue 0 5] 0 = Some c /\ contains c 7.
Proof.
  apply (search_answers_only_containing_cue 5 [cue 5 10; cue 0 5] 7 0).
  vm_compute. reflexivity.
Defined.

(** Every iteration at least halves the range, as long as no cue is
    empty: [n] iterations are enough for a range of fewer than [2^n]
    indices. *)
Lemma search_loop_halves tracks t :
  len tracks < 2 ^ 30 -> proper tracks ->
  forall fuel low high,
    0 <= low -> high < len tracks ->
    high - low + 1 < 2 ^ Z.of_nat fuel ->
    exists r, search_loop fuel tracks t low high = Normal r /\
              -1 <= r < len tracks.
Proof.
  intros Hlen Hproper.
  induction fuel as [|fuel IH]; intros low high Hlow Hhigh Hfuel.
  - simpl in *. destruct (low <=? high) eqn:E; [apply Z.leb_le in E; lia|].
    exists (-1). split; [reflexivity|]. pose proof (ParserFacts.len_nonneg tracks). lia.
  - simpl search_loop. destruct (low <=? high) eqn:E.
    2:{ exists (-1). split; [reflexivity|]. pose proof (ParserFacts.len_nonneg tracks). lia. }
    apply Z.leb_le in E.
    rewrite sar_1_small by lia.
    set (mid := (low + high) / 2).
    assert (Hmid : low <= mid <= high).
    { subst mid. split.
      - apply Z.div_le_lower_bound; lia.
      - apply Z.div_le_upper_bound; lia. }
    assert (Hdiv : 2 * mid <= low + high < 2 * mid + 2).
    { subst mid. pose proof (Z.div_mod (low + high) 2 ltac:(lia)).
      pose proof (Z.mod_pos_bound (low + high) 2 ltac:(lia)). lia. }
    assert (Hpow : 2 ^ Z.of_nat (S fuel) = 2 * 2 ^ Z.of_nat fuel).
    { rewrite Nat2Z.inj_succ. apply Z.pow_succ_r. lia. }
    rewrite Hpow in Hfuel.
    destruct (index_in_range tracks mid) as [c Hc]; [lia|].
    rewrite Hc.
    destruct (Qle_bool (startTime c) t && Qlt_bool t (endTime c)) eqn:T0.
    { exists mid. split; [reflexivity|lia]. }
    destruct (Qlt_bool (startTime c) t) eqn:T1.
    { apply IH; lia. }
    destruct (Qlt_bool t (startTime c)) eqn:T2.
    { apply IH; lia. }
    exfalso.
    apply Qlt_bool_false in T1. apply Qlt_bool_false in T2.
    specialize (Hproper mid c Hc).
    assert (Hin : contains c t) by (split; lra).
    apply contains_test in Hin. congruence.
Qed.

(** On fewer than [2^n] cues ([n <= 30]) that each have
    [startTime < endTime], in any order, [_search] returns within [n]
    iterations, with [-1] or an index of the list; it never reads outside
    the list.  Thirty iterations are always enough. *)
Theorem search_returns_within_log_steps (n : nat) tracks t :
  (n <= 30)%nat -> len tracks < 2 ^ Z.of_nat n -> proper tracks ->
  exists r, _search n tracks t = Normal r /\ -1 <= r < len tracks.
Proof.
  intros Hn Hlen Hproper. unfold _search.
  assert (H30 : 2 ^ Z.of_nat n <= 2 ^ 30)
    by (apply Z.pow_le_mono_r; lia).
  apply (search_loop_halves tracks t); try lia. exact Hproper.
Qed.

(** Witness of [search_returns_within_log_steps]: three cues out of
    order, two iterations. *)
Lemma search_returns_witness :
  exists r, _search 2 [cue 5 10; cue 0 5; cue 10 12] 11 = Normal r /\
            -1 <= r < len [cue 5 10; cue 0 5; cue 10 12].
Proof.
  apply (search_returns_within_log_steps 2 [cue 5 10; cue 0 5; cue 10 12] 11).
  - lia.
  - vm_compute. reflexivity.
  - intros i c Hi.
    destruct (Z.eq_dec i 0) as [->|]; [vm_compute in Hi; injection Hi as <-; vm_compute; reflexivity|].
    destruct (Z.eq_dec i 1) as [->|]; [vm_compute in Hi; injection Hi as <-; vm_compute; reflexivity|].
    destruct (Z.eq_dec i 2) as [->|]; [vm_compute in Hi; injection Hi as <-; vm_compute; reflexivity|].
    apply index_Some in Hi. unfold len in Hi. simpl in Hi. lia.
Defined.

End SearchMore.

(** ** The time code pattern *)

Module RegexpFacts.
Import Captions CaptionsVocab.
Local Open Scope string_scope.

Lemma all_chars_app P a b :
  all_chars P (a ++ b) = all_chars P a && all_chars P b.
Proof.
  induction a as [|c a IH]; simpl; [reflexivity|].
  rewrite IH, andb_assoc. reflexivity.
Qed.

Lemma append_assoc (a b c : string) : (a ++ b) ++ c = a ++ (b ++ c).
Proof. induction a as [|x a IH]; simpl; [reflexivity|]. rewrite IH. reflexivity. Qed.

Lemma takes_digits P n :
  (forall c, is_digit c = true -> P c = true) -> takes_prefix P (digits n).
Proof.
  intros HP. induction n as [|n IH]; intros s m r H; simpl in H.
  - destruct H as [H|[]]. injection H as <- <-. split; reflexivity.
  - destruct s as [|c s]; [destruct H|].
    destruct (is_digit c) eqn:Ec; [|destruct H].
    apply in_map_iff in H. destruct H as [[m' r'] [E Hin]].
    simpl in E. injection E as <- <-.
    destruct (IH _ _ _ Hin) as [-> Hall].
    split; [reflexivity|]. simpl. rewrite (HP c Ec), Hall. reflexivity.
Qed.

Lemma takes_one_of P p :
  (forall c, p c = true -> P c = true) -> takes_prefix P (one_of p).
Proof.
  intros HP s m r H. destruct s as [|c s]; simpl in H; [destruct H|].
  destruct (p c) eqn:Ec; [|destruct H].
  destruct H as [H|[]]. injection H as <- <-.
  split; [reflexivity|]. simpl. rewrite (HP c Ec). reflexivity.
Qed.

Lemma lit_inv a s m r :
  In (m, r) (lit a s) -> m = String a EmptyString /\ s = String a r.
Proof.
  destruct s as [|c s]; simpl; [intros []|].
  destruct (Ascii.eqb a c) eqn:E; [|intros []].
  apply Ascii.eqb_eq in E. subst c.
  intros [H|[]]. injection H as <- <-. split; reflexivity.
Qed.

Lemma takes_lit P a : P a = true -> takes_prefix P (lit a).
Proof.
  intros HP s m r H. apply lit_inv in H. destruct H as [-> ->].
  split; [reflexivity|]. simpl. rewrite HP. reflexivity.
Qed.

Lemma seq_inv f g s m r :
  In (m, r) (seq f g s) ->
  exists m1 r1 m2, In (m1, r1) (f s) /\ In (m2, r) (g r1) /\ m = m1 ++ m2.
Proof.
  unfold seq. intros H. apply in_flat_map in H.
  destruct H as [[m1 r1] [H1 H2]]. apply in_map_iff in H2.
  destruct H2 as [[m2 r2] [E H2]]. simpl in E. injection E as <- <-.
  exists m1, r1, m2. simpl. auto.
Qed.

Lemma takes_seq P f g :
  takes_prefix P f -> takes_prefix P g -> takes_prefix P (seq f g).
Proof.
  intros Hf Hg s m r H. apply seq_inv in H.
  destruct H as (m1 & r1 & m2 & H1 & H2 & ->).
  destruct (Hf _ _ _ H1) as [-> A1]. destruct (Hg _ _ _ H2) as [-> A2].
  split; [symmetry; apply append_assoc|].
  rewrite all_chars_app, A1, A2. reflexivity.
Qed.

Lemma takes_alt P f g :
  takes_prefix P f -> takes_prefix P g -> takes_prefix P (alt f g).
Proof.
  intros Hf Hg s m r H. unfold alt in H. apply in_app_or in H.
  destruct H as [H|H]; [apply (Hf _ _ _ H)|apply (Hg _ _ _ H)].
Qed.

Lemma takes_opt P f : takes_prefix P f -> takes_prefix P (opt f).
Proof.
  intros Hf s m r H. unfold opt in H. apply in_app_or in H.
  destruct H as [H|[H|[]]]; [apply (Hf _ _ _ H)|].
  injection H as <- <-. split; reflexivity.
Qed.

Lemma digit_timestamp c : is_digit c = true -> timestamp_char c = true.
Proof. intros H. unfold timestamp_char. rewrite H. reflexivity. Qed.

Lemma sep_timestamp c : is_frac_sep c = true -> timestamp_char c = true.
Proof. intros H. unfold timestamp_char. rewrite H. apply orb_true_r. Qed.

Lemma takes_hours : takes_prefix timestamp_char re_hours.
Proof.
  unfold re_hours. apply takes_opt. apply takes_seq.
  - apply takes_alt; apply takes_digits; apply digit_timestamp.
  - apply takes_lit. reflexivity.
Qed.

Lemma takes_mmss : takes_prefix timestamp_char re_mmss.
Proof.
  unfold re_mmss. apply takes_seq; [apply takes_digits; apply digit_timestamp|].
  apply takes_seq; [apply takes_lit; reflexivity|].
  apply takes_digits; apply digit_timestamp.
Qed.

Lemma takes_frac_1_3 : takes_prefix timestamp_char re_frac_1_3.
Proof.
  unfold re_frac_1_3. apply takes_opt. apply takes_seq.
  - apply takes_one_of. apply sep_timestamp.
  - repeat apply takes_alt; apply takes_digits; apply digit_timestamp.
Qed.

Lemma takes_frac_3 : takes_prefix timestamp_char re_frac_3.
Proof.
  unfold re_frac_3. apply takes_opt. apply takes_seq.
  - apply takes_one_of. apply sep_timestamp.
  - apply takes_digits; apply digit_timestamp.
Qed.

Lemma arrow_inv s m r :
  In (m, r) (seq (lit " ") (seq (lit "-") (seq (lit "-") (seq (lit ">") (lit " ")))) s) ->
  m = " --> " /\ s = " --> " ++ r.
Proof.
  intros H.
  apply seq_inv in H. destruct H as (m1 & r1 & m2 & H1 & H & ->).
  apply lit_inv in H1. destruct H1 as [-> ->].
  apply seq_inv in H. destruct H as (m1 & r2 & m3 & H1 & H & ->).
  apply lit_inv in H1. destruct H1 as [-> ->].
  apply seq_inv in H. destruct H as (m1 & r3 & m4 & H1 & H & ->).
  apply lit_inv in H1. destruct H1 as [-> ->].
  apply seq_inv in H. destruct H as (m1 & r4 & m5 & H1 & H & ->).
  apply lit_inv in H1. destruct H1 as [-> ->].
  apply lit_inv in H. destruct H as [-> ->].
  split; reflexivity.
Qed.

Lemma hd_error_In {A} (l : list A) x : hd_error l = Some x -> In x l.
Proof. destruct l; simpl; [discriminate|]. intros H. injection H as <-. left. reflexivity. Qed.

(** The parts of a line that matches. *)
Lemma timecode_match_parts line m :
  regexp_exec line = Some m ->
  line = group1 m ++ " --> " ++ group3 m ++ group5 m /\
  all_chars timestamp_char (group1 m) = true /\
  all_chars timestamp_char (group3 m) = true /\
  all_chars no_terminator (group5 m) = true.
Proof.
  unfold regexp_exec. intros H. apply hd_error_In in H.
  unfold timecode_ways in H.
  apply in_flat_map in H. destruct H as [[g1 r1] [H1 H]].
  apply in_flat_map in H. destruct H as [[ar r2] [H2 H]].
  apply in_flat_map in H. destruct H as [[g3 r3] [H3 H]].
  apply in_map_iff in H. destruct H as [[g5 r5] [E H5]].
  subst m. simpl in *.
  assert (T1 : takes_prefix timestamp_char (seq re_hours (seq re_mmss re_frac_1_3)))
    by (apply takes_seq; [apply takes_hours|apply takes_seq;
                          [apply takes_mmss|apply takes_frac_1_3]]).
  assert (T3 : takes_prefix timestamp_char (seq re_hours (seq re_mmss re_frac_3)))
    by (apply takes_seq; [apply takes_hours|apply takes_seq;
                          [apply takes_mmss|apply takes_frac_3]]).
  destruct (T1 _ _ _ H1) as [-> A1].
  apply arrow_inv in H2. destruct H2 as [-> ->].
  destruct (T3 _ _ _ H3) as [-> A3].
  unfold re_rest in H5.
  destruct (all_chars (fun c => negb (is_line_terminator c)) r3) eqn:A5; [|destruct H5].
  destruct H5 as [H5|[]]. injection H5 as <- <-.
  repeat split; try assumption.
Qed.

(** A line that matches the time code pattern is made of its groups: the
    first time stamp, the arrow, the second time stamp and the rest of the
    line, in this order and with nothing else.  The time stamps are made
    of digits, colons and a comma or a full stop, and the rest holds no
    line terminator. *)
Theorem timecode_match_splits_line line m :
  regexp_exec line = Some m ->
  line = group1 m ++ " --> " ++ group3 m ++ group5 m /\
  all_chars timestamp_char (group1 m) = true /\
  all_chars timestamp_char (group3 m) = true /\
  all_chars no_terminator (group5 m) = true.
Proof. exact (timecode_match_parts line m). Qed.

(** Witness of [timecode_match_splits_line]: a time code line with
    hours and a setting after the second time stamp. *)
Lemma timecode_match_witness :
  regexp_exec "1:02:03.5 --> 1:02:04.000 align:start"
  = Some (mkMatch "1:02:03.5" "1:02:04.000" " align:start") /\
  all_chars timestamp_char "1:02:03.5" = true /\
  all_chars no_terminator " align:start" = true.
Proof.
  assert (H : regexp_exec "1:02:03.5 --> 1:02:04.000 align:start"
              = Some (mkMatch "1:02:03.5" "1:02:04.000" " align:start"))
    by (vm_compute; reflexivity).
  split; [exact H|].
  destruct (timecode_match_splits_line _ _ H) as (_ & H1 & _ & H5).
  split; [exact H1|exact H5].
Defined.

End RegexpFacts.

(** ** More on the parser of the cues *)

Module ParserMore.
Import Captions CaptionsVocab JsFacts ParserFacts RegexpFacts.
Local Open Scope string_scope.

Lemma all_chars_impl (P Q : ascii -> bool) s :
  (forall c, P c = true -> Q c = true) ->
  all_chars P s = true -> all_chars Q s = true.
Proof.
  intros H. induction s as [|c s IH]; simpl; [reflexivity|].
  intros E. apply andb_true_iff in E. destruct E as [E1 E2].
  rewrite (H c E1), (IH E2). reflexivity.
Qed.

(** **** Lines *)

(** The lines of a text followed by a line feed and more text: those
    before the line feed, however the rest goes on, then those of the
    rest. *)
Lemma split_lines_at_line_feed_bounded :
  forall n s, (String.length s <= n)%nat ->
    exists pre, pre <> [] /\
      forall t, split_lines (s ++ String LF t) = (pre ++ split_lines t)%list.
Proof.
  induction n as [|n IH]; intros s Hn.
  - destruct s; [|simpl in Hn; lia].
    exists [EmptyString]. split; [discriminate|]. intros t. reflexivity.
  - destruct s as [|c s].
    { exists [EmptyString]. split; [discriminate|]. intros t. reflexivity. }
    simpl in Hn.
    destruct (Ascii.eqb c LF) eqn:Ec.
    { destruct (IH s ltac:(lia)) as [pre [Hne Hpre]].
      exists (EmptyString :: pre). split; [discriminate|]. intros t.
      simpl. rewrite Ec, Hpre. reflexivity. }
    destruct s as [|c2 s2].
    { destruct (Ascii.eqb c CR) eqn:Er.
      - exists [EmptyString]. split; [discriminate|]. intros t.
        simpl. rewrite Ec, Er. reflexivity.
      - exists [String c EmptyString]. split; [discriminate|]. intros t.
        simpl. rewrite Ec, Er. reflexivity. }
    destruct (Ascii.eqb c CR && Ascii.eqb c2 LF) eqn:Ecr.
    { simpl in Hn. destruct (IH s2 ltac:(lia)) as [pre [Hne Hpre]].
      exists (EmptyString :: pre). split; [discriminate|]. intros t.
      change (split_lines (String c (String c2 (s2 ++ String LF t)))
              = ((EmptyString :: pre) ++ split_lines t)%list).
      simpl split_lines. rewrite Ec, Ecr. rewrite Hpre. reflexivity. }
    destruct (IH (String c2 s2) ltac:(simpl in *; lia)) as [pre [Hne Hpre]].
    destruct pre as [|p ps]; [congruence|].
    exists (String c p :: ps). split; [discriminate|]. intros t.
    specialize (Hpre t).
    change (split_lines (String c (String c2 s2 ++ String LF t))
            = ((String c p :: ps) ++ split_lines t)%list).
    change (String c2 s2 ++ String LF t) with (String c2 (s2 ++ String LF t)) in *.
    remember (String c2 (s2 ++ String LF t)) as rest eqn:Hrest.
    assert (Hsplit : split_lines (String c rest)
                     = match split_lines rest with
                       | l :: ls => String c l :: ls
                       | [] => [String c EmptyString]
                       end).
    { rewrite Hrest. simpl. rewrite Ec, Ecr. reflexivity. }
    rewrite Hsplit, Hpre. reflexivity.
Qed.

Lemma split_lines_at_line_feed s :
  exists pre, pre <> [] /\
    forall t, split_lines (s ++ String LF t) = (pre ++ split_lines t)%list.
Proof. apply (split_lines_at_line_feed_bounded (String.length s)). lia. Qed.

(** A text without a line feed is one line. *)
Lemma split_lines_one_line s :
  all_chars not_lf s = true -> split_lines s = [s].
Proof.
  induction s as [|c s IH]; [reflexivity|].
  simpl. unfold not_lf at 1. intros H. apply andb_true_iff in H.
  destruct H as [Hc Hs]. apply negb_true_iff in Hc. rewrite Hc.
  destruct s as [|c2 s2]; [reflexivity|].
  assert (Hc2 : Ascii.eqb c2 LF = false).
  { simpl in Hs. apply andb_true_iff in Hs. destruct Hs as [Hs _].
    apply negb_true_iff in Hs. exact Hs. }
  rewrite Hc2, andb_false_r. rewrite (IH Hs). reflexivity.
Qed.

(** The characters of the lines are characters of the text. *)
Lemma split_lines_chars_bounded P :
  forall n s, (String.length s <= n)%nat ->
    all_chars P s = true -> Forall (fun l => all_chars P l = true) (split_lines s).
Proof.
  induction n as [|n IH]; intros s Hn Hs.
  - destruct s; [|simpl in Hn; lia]. repeat constructor.
  - destruct s as [|c s]; [repeat constructor|].
    simpl in Hn. simpl in Hs. apply andb_true_iff in Hs. destruct Hs as [Hc Hs].
    simpl split_lines.
    destruct (Ascii.eqb c LF).
    { constructor; [reflexivity|]. apply IH; [lia|exact Hs]. }
    destruct s as [|c2 s2].
    { constructor; [simpl; rewrite Hc; reflexivity|constructor]. }
    destruct (Ascii.eqb c CR && Ascii.eqb c2 LF).
    { constructor; [reflexivity|]. apply IH; [simpl in Hn; lia|].
      simpl in Hs. apply andb_true_iff in Hs. apply Hs. }
    pose proof (IH (String c2 s2) ltac:(simpl in *; lia) Hs) as Hall.
    destruct (split_lines (String c2 s2)) as [|l ls].
    + constructor; [simpl; rewrite Hc; reflexivity|constructor].
    + inversion Hall as [|? ? Hl Hls]; subst.
      constructor; [simpl; rewrite Hc, Hl; reflexivity|exact Hls].
Qed.

Lemma split_lines_chars P s :
  all_chars P s = true -> Forall (fun l => all_chars P l = true) (split_lines s).
Proof. apply (split_lines_chars_bounded P (String.length s)). lia. Qed.

(** **** Lines that match *)

(** A line without [>] does not match the time code pattern. *)
Lemma no_arrow_no_match line :
  all_chars not_gt line = true -> regexp_exec line = None.
Proof.
  intros H. destruct (regexp_exec line) as [m|] eqn:E; [|reflexivity].
  apply timecode_match_parts in E. destruct E as [E _].
  assert (A : forall x, all_chars not_gt (" --> " ++ x) = false) by reflexivity.
  rewrite E, all_chars_app, A, andb_false_r in H. discriminate.
Qed.

(** A line that matches holds no line feed. *)
Lemma match_one_line line :
  regexp_exec line <> None -> all_chars not_lf line = true.
Proof.
  intros H. destruct (regexp_exec line) as [m|] eqn:E; [|congruence].
  apply timecode_match_parts in E.
  destruct E as (E & A1 & A3 & A5).
  rewrite E, !all_chars_app.
  assert (T : forall c, timestamp_char c = true -> not_lf c = true).
  { intros c. unfold timestamp_char, not_lf, is_digit, in_range, is_frac_sep, code.
    destruct (Ascii.eqb c LF) eqn:El; [|reflexivity].
    apply Ascii.eqb_eq in El. subst c. vm_compute. discriminate. }
  assert (N : forall c, no_terminator c = true -> not_lf c = true).
  { intros c. unfold no_terminator, is_line_terminator, not_lf.
    destruct (Ascii.eqb c LF); simpl; [discriminate|reflexivity]. }
  rewrite (all_chars_impl _ _ _ T A1), (all_chars_impl _ _ _ T A3),
    (all_chars_impl _ _ _ N A5).
  reflexivity.
Qed.

Section Scanner.

Variable timeToSeconds : string -> Q.
Variable isJson : string -> bool.

Local Abbreviation scan_line := (scan_line timeToSeconds isJson).
Local Abbreviation scan_end := (scan_end timeToSeconds isJson).
Local Abbreviation _getCuesFromText := (_getCuesFromText timeToSeconds isJson).

(** The parser is the scanner run over the lines. *)
Lemma parser_scans text :
  _getCuesFromText text
  = scan_end (fold_left scan_line (split_lines text) (Scanning None, [])).
Proof.
  unfold Captions._getCuesFromText. cbv zeta.
  apply (lines_loop_scan timeToSeconds isJson (S (List.length (split_lines text)))
                         (split_lines text) [] []).
  lia.
Qed.

(** After an empty line no time code is waiting for its text. *)
Lemma scan_empty_line st :
  match fst (scan_line st EmptyString) with
  | AfterTimecode _ _ => False
  | _ => True
  end.
Proof.
  destruct st as [[prev|m ident|m ident txt] entries];
    unfold Captions.scan_line; simpl; exact I.
Qed.

(** After two empty lines the scanner is between cues. *)
Lemma scan_two_empty_lines st :
  exists entries,
    scan_line (scan_line st EmptyString) EmptyString
    = (Scanning (Some EmptyString), entries).
Proof.
  destruct st as [[prev|m ident|m ident txt] entries];
    unfold Captions.scan_line; simpl; eexists; reflexivity.
Qed.

(** A text that ends with a line feed is parsed to the end: the parser
    returns its cues and does not throw. *)
Theorem parser_returns_on_final_line_feed text :
  exists cues, _getCuesFromText (text ++ String LF EmptyString) = Normal cues.
Proof.
  rewrite parser_scans.
  destruct (split_lines_at_line_feed text) as [pre [_ Hpre]].
  rewrite (Hpre EmptyString). simpl split_lines.
  rewrite fold_left_app. simpl fold_left.
  pose proof (scan_empty_line (fold_left scan_line pre (Scanning None, []))) as H.
  unfold Captions.scan_end.
  destruct (fst (scan_line (fold_left scan_line pre (Scanning None, [])) EmptyString));
    [eexists; reflexivity|destruct H|eexists; reflexivity].
Qed.

(** A time code line at the very end of the text, after two empty
    lines, makes the parser throw: the line that should start the text
    of the cue is [undefined], and [trim] is read from it. *)
Theorem parser_throws_on_final_timecode text line :
  regexp_exec line <> None ->
  _getCuesFromText (text ++ String LF (String LF (String LF line)))
  = Throw (TypeError "Cannot read properties of undefined (reading 'trim')").
Proof.
  intros Hm. rewrite parser_scans.
  destruct (split_lines_at_line_feed text) as [pre [_ Hpre]].
  rewrite (Hpre (String LF (String LF line))).
  assert (Hl : split_lines (String LF (String LF line))
               = [EmptyString; EmptyString; line]).
  { simpl. rewrite (split_lines_one_line line (match_one_line line Hm)).
    reflexivity. }
  rewrite Hl, fold_left_app. simpl fold_left.
  destruct (scan_two_empty_lines (fold_left scan_line pre (Scanning None, [])))
    as [entries He].
  rewrite He. unfold Captions.scan_line at 1. simpl fst.
  destruct (regexp_exec line) as [m|]; [reflexivity|congruence].
Qed.

(** Lines without [>] leave the scanner where it is, with no cue. *)
Lemma scan_without_arrow lines :
  Forall (fun l => all_chars not_gt l = true) lines ->
  forall prev, exists prev',
    fold_left scan_line lines (Scanning prev, []) = (Scanning prev', []).
Proof.
  induction 1 as [|l ls Hl _ IH]; intros prev; simpl.
  - exists prev. reflexivity.
  - unfold Captions.scan_line at 2. simpl fst.
    rewrite (no_arrow_no_match l Hl). apply IH.
Qed.

(** A text without the character [>] has no cue: the parser returns the
    empty list, whatever else the text holds. *)
Theorem parser_finds_no_cue_without_arrow text :
  all_chars not_gt text = true -> _getCuesFromText text = Normal [].
Proof.
  intros H. rewrite parser_scans.
  destruct (scan_without_arrow (split_lines text) (split_lines_chars _ _ H) None)
    as [prev' E].
  rewrite E. reflexivity.
Qed.

End Scanner.

Lemma parser_throws_witness :
  Captions._getCuesFromText (fun _ => 0%Q) (fun _ => false)
    ("WEBVTT" ++ String LF (String LF (String LF "00:01.000 --> 00:02.000")))
  = Throw (TypeError "Cannot read properties of undefined (reading 'trim')").
Proof.
  apply (parser_throws_on_final_timecode (fun _ => 0%Q) (fun _ => false)
           "WEBVTT" "00:01.000 --> 00:02.000").
  vm_compute. discriminate.
Defined.

Lemma parser_no_cue_witness :
  Captions._getCuesFromText (fun _ => 0%Q) (fun _ => false)
    ("WEBVTT" ++ String LF (String LF "no cue here"))
  = Normal [].
Proof.
  apply (parser_finds_no_cue_without_arrow (fun _ => 0%Q) (fun _ => false)).
  vm_compute. reflexivity.
Defined.

End ParserMore.

(** ** More on the Media facade *)

Module MediaMore.
Import Media MediaVocab JsFacts MediaFacts.
Local Open Scope string_scope.

Section Facade.

Variable predictType : string -> string.
Variable isHlsSource : Source -> bool.
Variable isDashSource : Source -> bool.
Variable isFlvSource : Source -> bool.
Variable new_backend : BackendKind -> Element -> Source -> Backend.
Variable backend_canPlayType : Backend -> string -> bool.
Variable playHLSNatively : Element -> bool.

Local Abbreviation _invoke := (_invoke isHlsSource isDashSource isFlvSource playHLSNatively).
Local Abbreviation try_file :=
  (try_file isHlsSource isDashSource isFlvSource new_backend backend_canPlayType playHLSNatively).
Local Abbreviation some_file :=
  (some_file isHlsSource isDashSource isFlvSource new_backend backend_canPlayType playHLSNatively).
Local Abbreviation load :=
  (load isHlsSource isDashSource isFlvSource new_backend backend_canPlayType playHLSNatively).
Local Abbreviation play :=
  (play isHlsSource isDashSource isFlvSource new_backend backend_canPlayType playHLSNatively).
Local Abbreviation set_src := (set_src predictType backend_canPlayType).
Local Abbreviation kind_for := (kind_for isHlsSource isDashSource isFlvSource playHLSNatively).
Local Abbreviation backend_for :=
  (backend_for isHlsSource isDashSource isFlvSource new_backend playHLSNatively).
Local Abbreviation can_play :=
  (can_play isHlsSource isDashSource isFlvSource new_backend backend_canPlayType playHLSNatively).
Local Abbreviation files_after_set_src := (files_after_set_src predictType).

(** **** The file [load] settles on *)

Ltac conjuncts :=
  repeat (split; [solve [reflexivity | assumption | congruence]|]);
  solve [reflexivity | assumption | congruence].

Lemma first_or_last_ext (t1 t2 : Source -> bool) l :
  (forall x, t1 x = t2 x) -> first_or_last t1 l = first_or_last t2 l.
Proof.
  intros H. induction l as [|x l IH]; [reflexivity|].
  simpl. rewrite H. destruct (t2 x); [reflexivity|].
  destruct l; [reflexivity|exact IH].
Qed.

Lemma same_setup_refl s : same_setup s s.
Proof. repeat split. Qed.

Lemma same_setup_trans s1 s2 s3 :
  same_setup s1 s2 -> same_setup s2 s3 -> same_setup s1 s3.
Proof. unfold same_setup. intuition congruence. Qed.

Lemma invoke_state f s : fst (_invoke f s) = set_currentSrc (Some f) s.
Proof.
  unfold Media._invoke, bindM, update, get. simpl.
  destruct (custom_types (customMedia s)).
  - repeat match goal with |- context [if ?c then _ else _] => destruct c end;
      reflexivity.
  - destruct (custom_ref _ _ _ _) as [[k|]| |]; reflexivity.
Qed.

Lemma invoke_same_setup f s s' :
  same_setup s s' -> snd (_invoke f s) = snd (_invoke f s').
Proof.
  intros (He & Ho & Hc).
  unfold Media._invoke, bindM, update, get. simpl. rewrite He, Ho, Hc.
  destruct (custom_types (customMedia s')).
  - repeat match goal with |- context [if ?c then _ else _] => destruct c end;
      reflexivity.
  - destruct (custom_ref _ _ _ _) as [[k|]| |]; reflexivity.
Qed.

Lemma backend_for_same_setup f s s' :
  same_setup s s' -> backend_for s f = backend_for s' f.
Proof.
  intros H. unfold MediaVocab.backend_for, MediaVocab.kind_for.
  rewrite (invoke_same_setup f s s' H). destruct H as (-> & _). reflexivity.
Qed.

(** The callback of [some]: the backend made for the file is held, and
    the answer is whether it can play the file. *)
Lemma try_file_runs f s :
  try_file f s
  = (set_media (Some (backend_for s f)) (set_currentSrc (Some f) s),
     Normal (can_play s f)).
Proof.
  unfold MediaVocab.can_play, MediaVocab.backend_for, MediaVocab.kind_for.
  pose proof (invoke_state f s) as Hst.
  pose proof (invoke_ends isHlsSource isDashSource isFlvSource playHLSNatively f s) as Hend.
  unfold Media.try_file, bindM, catch.
  destruct (_invoke f s) as [s1 [k|e|]]; simpl in *; [| |congruence]; subst s1;
    unfold update, bindM, get; simpl; reflexivity.
Qed.

(** The callback of [some]: the backend made for the file is held, and
    the answer is whether it can play the file. *)
Lemma try_file_result f s :
  snd (try_file f s) = Normal (can_play s f) /\
  media (fst (try_file f s)) = Some (backend_for s f) /\
  same_setup s (fst (try_file f s)) /\
  files (fst (try_file f s)) = files s /\
  mediaLoaded (fst (try_file f s)) = mediaLoaded s /\
  promisePlay (fst (try_file f s)) = promisePlay s /\
  currentSrc (fst (try_file f s)) = Some f.
Proof. rewrite try_file_runs. simpl. repeat split; reflexivity. Qed.

Lemma some_file_result :
  forall fs s, fs <> [] ->
    exists f, first_or_last (can_play s) fs = Some f /\
      snd (some_file fs s) = Normal (can_play s f) /\
      media (fst (some_file fs s)) = Some (backend_for s f) /\
      same_setup s (fst (some_file fs s)) /\
      files (fst (some_file fs s)) = files s /\
      mediaLoaded (fst (some_file fs s)) = mediaLoaded s /\
      promisePlay (fst (some_file fs s)) = promisePlay s /\
      currentSrc (fst (some_file fs s)) = Some f.
Proof.
  induction fs as [|f rest IH]; intros s Hne; [congruence|].
  destruct (try_file_result f s) as (Hr & Hm & Hs & Hf & Hl & Hp & Hc).
  simpl some_file. unfold bindM.
  destruct (try_file f s) as [s1 c] eqn:Et. simpl in *. subst c.
  simpl first_or_last.
  destruct (can_play s f) eqn:Ec.
  - exists f. simpl. rewrite Ec. conjuncts.
  - destruct rest as [|g rest'].
    + exists f. simpl. rewrite Ec. conjuncts.
    + destruct (IH s1 ltac:(discriminate)) as (f' & Hpick & Hr' & Hm' & Hs' & Hf' & Hl' & Hp' & Hc').
      exists f'.
      assert (Hcan : forall x, can_play s1 x = can_play s x).
      { intros x. unfold MediaVocab.can_play.
        rewrite (backend_for_same_setup x s s1 Hs). reflexivity. }
      assert (Hpick' : first_or_last (can_play s) (g :: rest') = Some f').
      { rewrite <- Hpick. apply first_or_last_ext. intros x. symmetry. apply Hcan. }
      rewrite Hpick'. rewrite Hr', Hm', Hcan.
      rewrite (backend_for_same_setup f' s s1 Hs).
      pose proof (same_setup_trans _ _ _ Hs Hs').
      conjuncts.
Qed.

Lemma load_runs st :
  files st <> [] ->
  exists f st',
    first_or_last (can_play st) (files st) = Some f /\
    load st = (st', Normal tt) /\
    media st' = Some (b_call CallLoad (backend_for st f)) /\
    files st' = files st /\
    element st' = element st /\
    mediaLoaded st' = mediaLoaded st /\
    promisePlay st' = promisePlay st /\
    currentSrc st' = Some f.
Proof.
  intros Hne. unfold Media.load. unfold bindM at 1. unfold get at 1.
  destruct (files st) as [|first others] eqn:Ef; [congruence|].
  unfold bindM at 1.
  match goal with
  | |- exists f st', _ /\ match ?m st with _ => _ end = _ /\ _  =>
      assert (Hpre : exists st1, m st = (st1, Normal tt) /\ same_setup st st1 /\
                                 files st1 = files st /\
                                 mediaLoaded st1 = mediaLoaded st /\
                                 promisePlay st1 = promisePlay st)
  end.
  { destruct (media st) as [b|] eqn:Eb.
    - destruct (negb _); simpl; unfold update, ret, on_backend; rewrite ?Eb;
        eexists; (split; [reflexivity|]); repeat split; reflexivity.
    - unfold ret. exists st. repeat split; reflexivity. }
  destruct Hpre as (st1 & -> & Hs1 & Hf1 & Hl1 & Hp1).
  unfold bindM at 1.
  destruct (some_file_result (first :: others) st1 ltac:(discriminate))
    as (f & Hpick & Hr & Hm & Hs & Hf & Hl & Hp & Hc).
  assert (Hcan : forall x, can_play st1 x = can_play st x).
  { intros x. unfold MediaVocab.can_play.
    rewrite (backend_for_same_setup x st st1 Hs1). reflexivity. }
  rewrite (first_or_last_ext _ _ (first :: others) Hcan) in Hpick.
  destruct (some_file (first :: others) st1) as [st2 c] eqn:Es.
  cbn [fst snd] in Hr, Hm, Hs, Hf, Hl, Hp, Hc. subst c.
  exists f.
  unfold bindM, get, update, on_backend. rewrite Hm. cbv beta. rewrite Hm.
  eexists. split; [exact Hpick|]. split; [reflexivity|].
  rewrite <- (backend_for_same_setup f st st1 Hs1).
  destruct Hs as (He & _). destruct Hs1 as (He1 & _).
  simpl. repeat split; congruence.
Qed.

(** [load] with files at hand returns, whether or not a file can be
    played: the backend it holds afterwards, and has asked to load, is the
    one made for the first file whose backend says it can play it, and
    the one made for the last file when none does.  The files, the
    element and the flags are as they were. *)
Theorem load_settles_on_first_playable_or_last st :
  files st <> [] ->
  exists f,
    first_or_last (can_play st) (files st) = Some f /\
    snd (load st) = Normal tt /\
    media (fst (load st)) = Some (b_call CallLoad (backend_for st f)) /\
    files (fst (load st)) = files st /\
    element (fst (load st)) = element st /\
    mediaLoaded (fst (load st)) = mediaLoaded st /\
    currentSrc (fst (load st)) = Some f.
Proof.
  intros Hne.
  destruct (load_runs st Hne) as (f & st' & Hp & -> & Hm & Hf & He & Hl & _ & Hc).
  exists f. cbn [fst snd]. repeat split; assumption.
Qed.

(** **** The setter [src] *)

Lemma set_src_without_backend value st :
  media st = None ->
  exists msg,
    set_src value st =
    (set_files (files_after_set_src value st) st, Throw (TypeError msg)).
Proof.
  intros Hm. unfold Media.set_src. unfold bindM at 1. unfold update at 1.
  match goal with
  | |- exists msg, bindM get _ ?s = _ =>
      replace s with (set_files (files_after_set_src value st) st)
        by (destruct value; reflexivity)
  end.
  remember (set_files _ st) as s1 eqn:Es1.
  assert (Hm1 : media s1 = None) by (subst s1; exact Hm).
  unfold bindM at 1. unfold get at 1.
  destruct (files s1) as [|f fs] eqn:Ef.
  - eexists. reflexivity.
  - assert (Hc : canPlayType backend_canPlayType (type f) s1
                 = (s1, Throw (undefined_error "reading 'canPlayType'")))
      by (unfold canPlayType, bindM, get; rewrite Hm1; reflexivity).
    simpl some_canPlay. unfold bindM. rewrite Hc.
    eexists. reflexivity.
Qed.

(** Without a backend the setter [src] throws a [TypeError] whatever it is
    given; by then it has changed the list of files, and nothing else: the
    element keeps its [src] and the current source is as it was. *)
Theorem src_setter_throws_without_backend value st :
  media st = None ->
  (exists msg, snd (set_src value st) = Throw (TypeError msg)) /\
  files (fst (set_src value st)) = files_after_set_src value st /\
  element (fst (set_src value st)) = element st /\
  currentSrc (fst (set_src value st)) = currentSrc st /\
  media (fst (set_src value st)) = None.
Proof.
  intros Hm. destruct (set_src_without_backend value st Hm) as (msg & ->).
  cbn [fst snd]. split; [exists msg; reflexivity|]. repeat split. exact Hm.
Qed.

Lemma set_src_with_backend value st b first rest :
  media st = Some b ->
  files_after_set_src value st = first :: rest ->
  exists st',
    set_src value st = (st', Normal tt) /\
    files st' = first :: rest /\
    e_src (element st') = src first /\
    media st' = Some (b_set_src first b) /\
    currentSrc st' = Some first.
Proof.
  intros Hm Hfiles. unfold Media.set_src. unfold bindM at 1. unfold update at 1.
  match goal with
  | |- exists st', bindM get _ ?s = _ /\ _ =>
      replace s with (set_files (files_after_set_src value st) st)
        by (destruct value; reflexivity)
  end.
  rewrite Hfiles.
  remember (set_files (first :: rest) st) as s1 eqn:Es1.
  assert (Hm1 : media s1 = Some b) by (subst s1; exact Hm).
  assert (Hf1 : files s1 = first :: rest) by (subst s1; reflexivity).
  assert (Hsome : exists ok, some_canPlay backend_canPlayType (first :: rest) s1
                             = (s1, Normal ok)).
  { clear Hf1 Hfiles. generalize (first :: rest). intros l.
    induction l as [|x l IH]; [exists false; reflexivity|].
    assert (Hc : canPlayType backend_canPlayType (type x) s1
                 = (s1, Normal (backend_canPlayType b (type x))))
      by (unfold canPlayType, bindM, get; rewrite Hm1; reflexivity).
    simpl. unfold bindM. rewrite Hc.
    destruct (backend_canPlayType b (type x)); [exists true; reflexivity|exact IH]. }
  destruct Hsome as (ok & Hsome).
  unfold bindM at 1. unfold get at 1. rewrite Hf1.
  unfold bindM at 1. rewrite Hsome.
  unfold bindM, when, update, get, ret, on_backend.
  destruct (truthy (e_src (element s1))); cbv beta; simpl; rewrite Hm1; simpl;
    rewrite Hm1; eexists; (split; [reflexivity|]); simpl; repeat split; exact Hf1.
Qed.

(** With a backend the setter [src] returns when the list it leaves has
    a file, and it is the first file of that list that becomes the source
    of the element, of the backend and the current one: a string or an
    object given to a facade that has files already is put last and does
    not become the source. *)
Theorem src_setter_takes_first_file value st b first rest :
  media st = Some b ->
  files_after_set_src value st = first :: rest ->
  snd (set_src value st) = Normal tt /\
  files (fst (set_src value st)) = first :: rest /\
  e_src (element (fst (set_src value st))) = src first /\
  media (fst (set_src value st)) = Some (b_set_src first b) /\
  currentSrc (fst (set_src value st)) = Some first.
Proof.
  intros Hm Hfiles.
  destruct (set_src_with_backend value st b first rest Hm Hfiles)
    as (st' & -> & H).
  cbn [fst snd]. split; [reflexivity|exact H].
Qed.

(** **** [play] *)

Lemma play_runs_load st :
  mediaLoaded st = false ->
  play st =
  (let (s1, c) := load (set_mediaLoaded true st) in
   match c with
   | Normal _ => (on_backend (b_call CallPlay) (set_mediaLoaded true s1), Normal tt)
   | Throw e => (s1, Throw e)
   | OutOfFuel => (s1, OutOfFuel)
   end).
Proof.
  intros Hl. unfold Media.play. unfold bindM at 1. unfold get at 1.
  rewrite Hl. cbn [negb]. unfold bindM at 1. unfold update at 1.
  unfold bindM at 1. destruct (load (set_mediaLoaded true st)) as [s1 [[]|e|]];
    reflexivity.
Qed.

(** The first [play] of a facade with files loads and then plays: it
    returns, the facade counts as loaded, and the backend it holds is the
    one made for the first file whose backend says it can play it (for
    the last file when none does), asked to load and then to play. *)
Theorem play_loads_then_plays st :
  mediaLoaded st = false ->
  files st <> [] ->
  exists f,
    first_or_last (can_play st) (files st) = Some f /\
    snd (play st) = Normal tt /\
    media (fst (play st))
    = Some (b_call CallPlay (b_call CallLoad (backend_for st f))) /\
    mediaLoaded (fst (play st)) = true /\
    files (fst (play st)) = files st /\
    promisePlay (fst (play st)) = promisePlay st.
Proof.
  intros Hl Hne. rewrite (play_runs_load st Hl).
  set (s0 := set_mediaLoaded true st).
  assert (Hs0 : same_setup st s0) by (repeat split).
  destruct (load_runs s0 Hne) as (f & st' & Hpick & -> & Hm & Hf & He & Hl' & Hp & _).
  change (files s0) with (files st) in *. change (promisePlay s0) with (promisePlay st) in *.
  exists f.
  assert (Hcan : forall x, can_play s0 x = can_play st x).
  { intros x. unfold MediaVocab.can_play.
    rewrite (backend_for_same_setup x st s0 Hs0). reflexivity. }
  rewrite (first_or_last_ext _ _ _ Hcan) in Hpick.
  rewrite <- (backend_for_same_setup f st s0 Hs0) in Hm.
  split; [exact Hpick|]. cbn [fst snd]. unfold on_backend.
  simpl. rewrite Hm. simpl. repeat split; assumption.
Qed.

(** A [play] without files throws [Media not set] and leaves the facade
    counted as loaded: on a facade without a backend, a [play] after
    files have been given does not load them, it throws a [TypeError]
    of its own. *)
Theorem play_after_failed_play_does_not_load st fs :
  mediaLoaded st = false ->
  files st = [] ->
  media st = None ->
  snd (play st) = Throw (TypeError "Media not set") /\
  mediaLoaded (fst (play st)) = true /\
  snd (play (set_mediaFiles fs (fst (play st))))
  = Throw (undefined_error "reading 'promise'") /\
  media (fst (play (set_mediaFiles fs (fst (play st))))) = None.
Proof.
  intros Hl Hf Hm. rewrite (play_runs_load st Hl).
  assert (E : load (set_mediaLoaded true st)
              = (set_mediaLoaded true st, Throw (TypeError "Media not set"))).
  { unfold Media.load, bindM, get. simpl. rewrite Hf. reflexivity. }
  rewrite E. cbn [fst snd]. split; [reflexivity|]. split; [reflexivity|].
  unfold Media.play, bindM, get. simpl. rewrite Hm. split; [reflexivity|exact Hm].
Qed.

End Facade.

Lemma load_settles_witness :
  exists f,
    first_or_last (can_play (fun _ => false) (fun _ => false) (fun _ => false)
                     sample_backend (fun _ _ => true) (fun _ => false) sample_media)
                  (files sample_media) = Some f /\
    snd (load (fun _ => false) (fun _ => false) (fun _ => false)
              sample_backend (fun _ _ => true) (fun _ => false) sample_media)
    = Normal tt /\
    media (fst (load (fun _ => false) (fun _ => false) (fun _ => false)
                  sample_backend (fun _ _ => true) (fun _ => false) sample_media))
    = Some (b_call CallLoad
              (backend_for (fun _ => false) (fun _ => false) (fun _ => false)
                 sample_backend (fun _ => false) sample_media f)) /\
    files (fst (load (fun _ => false) (fun _ => false) (fun _ => false)
                  sample_backend (fun _ _ => true) (fun _ => false) sample_media))
    = files sample_media /\
    element (fst (load (fun _ => false) (fun _ => false) (fun _ => false)
                  sample_backend (fun _ _ => true) (fun _ => false) sample_media))
    = element sample_media /\
    mediaLoaded (fst (load (fun _ => false) (fun _ => false) (fun _ => false)
                  sample_backend (fun _ _ => true) (fun _ => false) sample_media))
    = mediaLoaded sample_media /\
    currentSrc (fst (load (fun _ => false) (fun _ => false) (fun _ => false)
                  sample_backend (fun _ _ => true) (fun _ => false) sample_media))
    = Some f.
Proof.
  apply (load_settles_on_first_playable_or_last
           (fun _ => false) (fun _ => false) (fun _ => false)
           sample_backend (fun _ _ => true) (fun _ => false) sample_media).
  vm_compute. discriminate.
Defined.

Lemma src_setter_throws_witness :
  files (fst (set_src (fun _ => "video/mp4") (fun _ _ => true)
                (SrcString "other.mp4") sample_media))
  = files_after_set_src (fun _ => "video/mp4") (SrcString "other.mp4") sample_media.
Proof.
  apply (src_setter_throws_without_backend
           (fun _ => "video/mp4") (fun _ _ => true)
           (SrcString "other.mp4") sample_media).
  reflexivity.
Defined.

Lemma src_setter_first_file_witness :
  e_src (element (fst (set_src (fun _ => "video/mp4") (fun _ _ => true)
                         (SrcString "other.mp4") playing_media)))
  = "movie.mp4".
Proof.
  refine (proj1 (proj2 (proj2
            (src_setter_takes_first_file
               (fun _ => "video/mp4") (fun _ _ => true)
               (SrcString "other.mp4") playing_media _
               (mkSource "movie.mp4" "video/mp4")
               [mkSource "other.mp4" "video/mp4"] _ _)))); reflexivity.
Defined.

Lemma play_loads_witness :
  mediaLoaded (fst (play (fun _ => false) (fun _ => false) (fun _ => false)
                      sample_backend (fun _ _ => true) (fun _ => false) sample_media))
  = true.
Proof.
  destruct (play_loads_then_plays
              (fun _ => false) (fun _ => false) (fun _ => false)
              sample_backend (fun _ _ => true) (fun _ => false) sample_media)
    as (f & _ & _ & _ & H & _).
  - reflexivity.
  - vm_compute. discriminate.
  - exact H.
Defined.

Lemma play_after_failed_play_witness :
  snd (play (fun _ => false) (fun _ => false) (fun _ => false)
         sample_backend (fun _ _ => true) (fun _ => false)
         (set_mediaFiles [mkSource "movie.mp4" "video/mp4"]
            (fst (play (fun _ => false) (fun _ => false) (fun _ => false)
                    sample_backend (fun _ _ => true) (fun _ => false)
                    (set_mediaFiles [] sample_media)))))
  = Throw (undefined_error "reading 'promise'").
Proof.
  apply (play_after_failed_play_does_not_load
           (fun _ => false) (fun _ => false) (fun _ => false)
           sample_backend (fun _ _ => true) (fun _ => false)
           (set_mediaFiles [] sample_media) [mkSource "movie.mp4" "video/mp4"]);
    reflexivity.
Defined.

End MediaMore.

(** ** More on the sanitizer *)

Module SanitizeMore.
Import Captions SanitizeFacts.

Local Open Scope nat_scope.

Lemma upd_nth_error_other {A} (f : A -> A) l :
  forall k i, i <> k -> nth_error (upd k f l) i = nth_error l i.
Proof.
  induction l as [|x r IH]; intros [|k] [|i] H; simpl; try reflexivity;
    try congruence.
  apply IH. congruence.
Qed.

Lemma count_no_script d :
  forallb not_script (elems d) = true -> count (by_tag "script") d = 0.
Proof.
  induction d as [|s n IH|x _ n IH|t a c IHc n IHn]; simpl; intros H.
  - reflexivity.
  - apply IH. exact H.
  - apply IH. exact H.
  - apply andb_true_iff in H as [Ht H]. rewrite forallb_app in H.
    apply andb_true_iff in H as [Hc Hn].
    unfold not_script in Ht. simpl in Ht. apply negb_true_iff in Ht.
    unfold by_tag at 1. rewrite Ht, (IHc Hc), (IHn Hn). reflexivity.
Qed.

Lemma forallb_split {A} (p q : A -> bool) l :
  forallb (fun x => p x && q x) l = true ->
  forallb p l = true /\ forallb q l = true.
Proof.
  induction l as [|x r IH]; simpl; intros H; [auto|].
  apply andb_true_iff in H as [H1 H2]. apply andb_true_iff in H1 as [Hp Hq].
  destruct (IH H2) as [IHp IHq]. rewrite Hp, Hq, IHp, IHq. auto.
Qed.

Section Loops.

Variable removeElement_undefined : Js.completion unit.
Variable parse_html : string -> dom.
Variable innerHTML : dom -> string.

Local Abbreviation attr_loop := (attr_loop removeElement_undefined).
Local Abbreviation element_loop := (element_loop removeElement_undefined).
Local Abbreviation sanitize_loops := (sanitize_loops removeElement_undefined).
Local Abbreviation _sanitize :=
  (_sanitize removeElement_undefined parse_html innerHTML).

(** **** Markup that is clean already *)

Lemma attr_loop_benign index d :
  forall attributes,
    forallb ok_attr attributes = true ->
    attr_loop attributes index d = Js.Normal d.
Proof.
  induction attributes as [|a rest IH]; simpl; intros H; [reflexivity|].
  apply andb_true_iff in H as [Ha H]. unfold ok_attr in Ha.
  apply andb_true_iff in Ha as [He Hs].
  apply negb_true_iff in He. apply negb_true_iff in Hs.
  rewrite He, Hs. apply IH. exact H.
Qed.

Lemma element_loop_benign d :
  forallb ok_attrs (elems d) = true ->
  forall todo index,
    List.length (elems d) = index + todo ->
    element_loop todo index d = Js.Normal d.
Proof.
  intros Hok. induction todo as [|t IH]; intros index Hl; simpl; [reflexivity|].
  rewrite item_any.
  destruct (nth_error (elems d) index) as [[tag attributes]|] eqn:N.
  - assert (Ha : ok_attrs (tag, attributes) = true).
    { apply nth_error_In in N. rewrite forallb_forall in Hok. exact (Hok _ N). }
    unfold ok_attrs in Ha. simpl in Ha.
    rewrite (attr_loop_benign index d attributes Ha). simpl.
    apply IH. lia.
  - apply nth_error_None in N. lia.
Qed.

Lemma sanitize_loops_benign d : clean d -> sanitize_loops d = Js.Normal d.
Proof.
  unfold clean. intros H. apply forallb_split in H as [Hs Ha].
  unfold Captions.sanitize_loops. rewrite (count_no_script d Hs). simpl.
  apply (element_loop_benign d Ha). rewrite count_any. lia.
Qed.

(** Markup that the parser reads as nodes which, outside the contents
    of templates, hold no [script] element, no attribute whose name
    starts with [on] or [javascript:] and no [style] attribute passes
    the loops of [_sanitize] as it was parsed: what is returned is the
    markup that [div.innerHTML] reads from the parsed nodes, which need
    not be the string given. *)
Theorem sanitize_keeps_clean_markup html :
  clean (parse_html html) ->
  _sanitize html = Js.Normal (innerHTML (parse_html html)).
Proof.
  intros H. unfold Captions._sanitize.
  rewrite (sanitize_loops_benign _ H). reflexivity.
Qed.

(** Where the parser reads the markup that [_sanitize] has returned as
    the nodes it was read from, [_sanitize] returns that markup again as
    it is. *)
Theorem sanitize_twice_is_once_on_round_trip html d :
  sanitize_loops (parse_html html) = Js.Normal d ->
  parse_html (innerHTML d) = d ->
  _sanitize html = Js.Normal (innerHTML d) /\
  _sanitize (innerHTML d) = Js.Normal (innerHTML d).
Proof.
  intros H Hr. unfold Captions._sanitize. rewrite H, Hr.
  rewrite (sanitize_loops_benign d (sanitize_loops_clean removeElement_undefined _ _ H)).
  split; reflexivity.
Qed.

(** **** Event attributes before the last element *)

(** Without event names among the attributes, the inner loop leaves the
    other elements as they are. *)
Lemma attr_loop_others index :
  forall attributes d d1,
    attr_loop attributes index d = Js.Normal d1 ->
    forallb no_event attributes = true ->
    forall i, i <> index -> nth_error (elems d1) i = nth_error (elems d) i.
Proof.
  induction attributes as [|a rest IH]; intros d d1 H Hev i Hi; simpl in H.
  - injection H as <-. reflexivity.
  - simpl in Hev. apply andb_true_iff in Hev as [Ha Hev].
    unfold no_event in Ha. apply negb_true_iff in Ha. rewrite Ha in H.
    destruct (String.eqb (fst a) "style").
    + destruct (item any_tag index d) as [e|]; [|discriminate].
      rewrite (IH _ _ H Hev i Hi), elems_without_attr.
      apply upd_nth_error_other. exact Hi.
    + exact (IH _ _ H Hev i Hi).
Qed.

(** When the outer loop returns, no element still to be visited, other
    than the last one, has an attribute with an event name. *)
Lemma element_loop_inner_event :
  forall todo index d d',
    element_loop todo index d = Js.Normal d' ->
    List.length (elems d) = index + todo ->
    forall i tag attrs,
      index <= i -> S i < List.length (elems d) ->
      nth_error (elems d) i = Some (tag, attrs) ->
      existsb (fun a => is_event_name (fst a)) attrs = false.
Proof.
  induction todo as [|t IH]; intros index d d' H Hl i tag attrs Hi Hlast Hn; [lia|].
  simpl in H. rewrite item_any in H.
  destruct (nth_error (elems d) index) as [[tag0 attributes]|] eqn:N;
    [|discriminate].
  assert (Hlt : index < List.length (elems d))
    by (apply nth_error_Some; congruence).
  destruct (attr_loop attributes index d) as [d1| |] eqn:A;
    simpl in H; try discriminate.
  destruct (existsb (fun a => is_event_name (fst a)) attributes) eqn:Ev.
  - exfalso.
    pose proof (attr_loop_shrinks removeElement_undefined index _ _ _ A Hlt Ev) as Hs.
    apply (element_loop_doomed removeElement_undefined t (S index) d1) in H;
      [exact H|lia|lia].
  - destruct (Nat.eq_dec i index) as [->|Hne].
    + rewrite N in Hn. injection Hn as _ <-. exact Ev.
    + pose proof (existsb_false_forallb _ _ Ev) as Hno.
      destruct (attr_loop_strips removeElement_undefined index tag0 _ _ attributes _
                  A N Hno Hno (Nat.le_refl _)) as [Hlen _].
      apply (IH (S index) d1 d' H) with (i := i) (tag := tag); try lia.
      rewrite (attr_loop_others index _ _ _ A Hno i Hne). exact Hn.
Qed.

(** On markup that the parser reads without [script] elements outside
    the contents of templates, [_sanitize] does not return when an
    element of [getElementsByTagName('*')] other than the last one (in
    tree order) has an attribute whose name starts with [on] or
    [javascript:]: the element is taken out of the live collection, and
    the loop, whose bound was read before, runs past its end. *)
Theorem sanitize_fails_on_inner_event_attribute html i tag attrs result :
  count (by_tag "script") (parse_html html) = 0 ->
  nth_error (elems (parse_html html)) i = Some (tag, attrs) ->
  existsb (fun a => is_event_name (fst a)) attrs = true ->
  S i < List.length (elems (parse_html html)) ->
  _sanitize html <> Js.Normal result.
Proof.
  intros Hs Hn Hev Hlast H.
  apply sanitize_returns in H as (d & H & _).
  unfold Captions.sanitize_loops in H.
  rewrite Hs in H. simpl in H.
  rewrite (element_loop_inner_event _ _ _ _ H) with (i := i) (tag := tag) in Hev;
    [discriminate|rewrite count_any; lia|lia|exact Hlast|exact Hn].
Qed.

End Loops.

(** Witness of [sanitize_keeps_clean_markup]: an element whose end tag
    is missing comes back with it. *)
Lemma sanitize_keeps_clean_witness :
  Captions._sanitize (Js.Normal tt) sample_parse sample_innerHTML "<b>x"%string
  = Js.Normal "<b>x</b>"%string.
Proof.
  apply (sanitize_keeps_clean_markup (Js.Normal tt) sample_parse sample_innerHTML
           "<b>x"%string).
  vm_compute. reflexivity.
Defined.

(** Witness of [sanitize_twice_is_once_on_round_trip]: the paragraph
    that is left of the sample. *)
Lemma sanitize_twice_witness :
  Captions._sanitize (Js.Normal tt) sample_parse sample_innerHTML
    "<p style=color:red class=c>hi<script>x</script></p><b onclick=y></b>"%string
  = Js.Normal (sample_innerHTML sample_paragraph_left) /\
  Captions._sanitize (Js.Normal tt) sample_parse sample_innerHTML
    (sample_innerHTML sample_paragraph_left)
  = Js.Normal (sample_innerHTML sample_paragraph_left).
Proof.
  apply (sanitize_twice_is_once_on_round_trip
           (Js.Normal tt) sample_parse sample_innerHTML
           "<p style=color:red class=c>hi<script>x</script></p><b onclick=y></b>"%string
           sample_paragraph_left);
    vm_compute; reflexivity.
Defined.

(** Witness of [sanitize_fails_on_inner_event_attribute]: a click
    handler on the first of two elements. *)
Lemma sanitize_fails_witness :
  Captions._sanitize (Js.Normal tt) sample_parse sample_innerHTML
    "<b onclick=x></b><i></i>"%string
  <> Js.Normal "<i></i>"%string.
Proof.
  apply (sanitize_fails_on_inner_event_attribute
           (Js.Normal tt) sample_parse sample_innerHTML
           "<b onclick=x></b><i></i>"%string
           0 "b"%string [("onclick", "x")]%string).
  - reflexivity.
  - reflexivity.
  - reflexivity.
  - vm_compute. lia.
Defined.

End SanitizeMore.

(** ** The captions shown *)

Module ViewFacts.
Import Js Captions JsFacts SearchFacts SearchMore.

Local Open Scope Z_scope.

Section Handler.

Variable removeElement_undefined : completion unit.
Variable parse_html : string -> dom.
Variable innerHTML : dom -> string.

Local Abbreviation timeupdate :=
  (timeupdate removeElement_undefined parse_html innerHTML).
Local Abbreviation _sanitize :=
  (_sanitize removeElement_undefined parse_html innerHTML).

(** When the [timeupdate] handler returns for a player on media that has
    a current track with cues, the captions are either hidden, with
    nothing in the container, or they show what [_sanitize] returned
    for the text of a cue whose interval contains the current time, as
    the parser reads it into the container: a caption is never shown
    outside its interval, whatever the cues and their order. *)
Theorem timeupdate_shows_only_containing_cue
        fuel language tracks cues t v v' :
  tracks_get tracks language = Some cues ->
  timeupdate fuel true (Some language) tracks t v = (v', Normal tt) ->
  (captions_on v' = false /\ container v' = NoNode) \/
  (exists i c s, index cues i = Some c /\ contains c t /\
                 button_on v = true /\ captions_on v' = true /\
                 _sanitize (text c) = Normal s /\
                 container v' = parse_html s).
Proof.
  intros Ht H. unfold Captions.timeupdate in H. rewrite Ht in H.
  destruct (_search fuel cues t) as [i| |] eqn:S; try discriminate.
  destruct (i >? -1) eqn:Hi; simpl in H.
  - destruct (button_on v) eqn:Hb.
    + destruct (index cues i) as [c|] eqn:Hc; [|discriminate].
      destruct (_sanitize (text c)) as [s| |] eqn:Hd;
        try discriminate.
      injection H as <-. right. exists i, c, s.
      destruct (search_loop_sound _ _ _ _ _ _ S) as [->|(c' & Hc' & Hin)];
        [discriminate|].
      rewrite Hc in Hc'. injection Hc' as <-.
      split; [exact Hc|]. split; [exact Hin|].
      split; [reflexivity|]. split; [reflexivity|].
      split; [exact Hd|reflexivity].
    + injection H as <-. left. split; reflexivity.
  - injection H as <-. left. unfold _hide. simpl. split; reflexivity.
Qed.

Lemma timeupdate_on_containing_cue fuel language tracks cues t v k c :
  len cues < 2 ^ 30 ->
  sorted_by_start cues -> non_overlapping cues -> proper cues ->
  (List.length cues <= fuel)%nat ->
  tracks_get tracks language = Some cues ->
  button_on v = true ->
  index cues k = Some c -> contains c t ->
  timeupdate fuel true (Some language) tracks t v
  = match _sanitize (text c) with
    | Normal s =>
        (mkView true true (active_captions v) (parse_html s), Normal tt)
    | Throw e => (mkView true true (active_captions v) NoNode, Throw e)
    | OutOfFuel => (mkView true true (active_captions v) NoNode, OutOfFuel)
    end.
Proof.
  intros Hlen Hs Hd Hp Hfuel Ht Hb Hk Hin.
  destruct (search_loop_correct cues t Hlen Hs Hd Hp fuel 0 (len cues - 1))
    as (r & Hr & Ha).
  - lia.
  - lia.
  - unfold len in *. lia.
  - intros j cj Hj _. apply index_Some in Hj. lia.
  - assert (Hrk : r = k).
    { destruct Ha as [(c' & Hc' & Hin') | [_ Hnone]];
        [|exfalso; exact (Hnone k c Hk Hin)].
      destruct Hin as [Hin1 Hin2]. destruct Hin' as [Hin1' Hin2'].
      destruct (Z.lt_trichotomy r k) as [L|[E|L]]; [|exact E|].
      - exfalso. pose proof (Hd r k c' c L Hc' Hk) as Hq.
        apply (Qlt_irrefl t).
        eapply Qlt_le_trans; [exact Hin2'|].
        eapply Qle_trans; [exact Hq|exact Hin1].
      - exfalso. pose proof (Hd k r c c' L Hk Hc') as Hq.
        apply (Qlt_irrefl t).
        eapply Qlt_le_trans; [exact Hin2|].
        eapply Qle_trans; [exact Hq|exact Hin1']. }
    subst r. unfold Captions.timeupdate. rewrite Ht.
    unfold _search. rewrite Hr.
    assert (Hpos : (k >? -1) = true).
    { apply index_Some in Hk. apply Z.gtb_lt. lia. }
    rewrite Hpos, Hb, Hk. simpl.
    destruct (_sanitize (text c)); reflexivity.
Qed.

(** On fewer than 2^30 cues that are sorted by start time, do not
    overlap and are not empty, with the captions button on: when a cue
    contains the current time, the handler (with fuel for one iteration
    of the search per cue) ends as [_sanitize] does on the text of that
    cue, and when that returns, the captions are on and the container
    holds what the parser reads from the string returned. *)
Theorem timeupdate_shows_containing_cue
        fuel language tracks cues t v k c :
  len cues < 2 ^ 30 ->
  sorted_by_start cues -> non_overlapping cues -> proper cues ->
  (List.length cues <= fuel)%nat ->
  tracks_get tracks language = Some cues ->
  button_on v = true ->
  index cues k = Some c -> contains c t ->
  timeupdate fuel true (Some language) tracks t v
  = match _sanitize (text c) with
    | Normal s =>
        (mkView true true (active_captions v) (parse_html s), Normal tt)
    | Throw e => (mkView true true (active_captions v) NoNode, Throw e)
    | OutOfFuel => (mkView true true (active_captions v) NoNode, OutOfFuel)
    end.
Proof. exact (timeupdate_on_containing_cue fuel language tracks cues t v k c). Qed.

(** C10: the contents of a template pass [_sanitize] as they are.  When
    the parser reads the markup as a [template] element without
    attributes, which keeps what is written between its tags as its
    contents, neither collection of [_sanitize] reaches the contents:
    whatever they hold, [script] elements included, [_sanitize] returns
    the markup that [div.innerHTML] reads from the parsed nodes, and the
    [timeupdate] handler gives that markup to the captions container
    when the cue with that text contains the current time. *)
Theorem sanitize_keeps_template_contents html content :
  let kept := Elem "template" [] (Contents content NoNode) NoNode in
  parse_html html = kept ->
  _sanitize html = Normal (innerHTML kept) /\
  (forall fuel language tracks cues t v k c,
      len cues < 2 ^ 30 ->
      sorted_by_start cues -> non_overlapping cues -> proper cues ->
      (List.length cues <= fuel)%nat ->
      tracks_get tracks language = Some cues ->
      button_on v = true ->
      index cues k = Some c -> contains c t ->
      text c = html ->
      timeupdate fuel true (Some language) tracks t v
      = (mkView true true (active_captions v) (parse_html (innerHTML kept)),
         Normal tt)).
Proof.
  intros kept Hp.
  assert (Hs : _sanitize html = Normal (innerHTML kept)).
  { unfold Captions._sanitize. rewrite Hp. reflexivity. }
  split; [exact Hs|].
  intros fuel language tracks cues t v k c Hlen Hso Hd Hpr Hfuel Ht Hb Hk Hin Htext.
  rewrite (timeupdate_on_containing_cue fuel language tracks cues t v k c
             Hlen Hso Hd Hpr Hfuel Ht Hb Hk Hin).
  rewrite Htext, Hs. reflexivity.
Qed.

End Handler.

(** Witness of [timeupdate_shows_only_containing_cue]: one cue of plain
    text that contains the current time. *)
Lemma timeupdate_shows_only_witness :
  (captions_on (mkView true true "en" (TextNode "hi" NoNode)) = false /\
   container (mkView true true "en" (TextNode "hi" NoNode)) = NoNode) \/
  (exists i c s, index [mkCue 2 None None 0 "hi"] i = Some c /\ contains c 1 /\
                 button_on (mkView false true "en" NoNode) = true /\
                 captions_on (mkView true true "en" (TextNode "hi" NoNode)) = true /\
                 Captions._sanitize (Normal tt) sample_parse sample_innerHTML (text c)
                 = Normal s /\
                 container (mkView true true "en" (TextNode "hi" NoNode))
                 = sample_parse s).
Proof.
  apply (timeupdate_shows_only_containing_cue
           (Normal tt) sample_parse sample_innerHTML 5 "en"
           [("en"%string, [mkCue 2 None None 0 "hi"])] [mkCue 2 None None 0 "hi"] 1
           (mkView false true "en" NoNode)
           (mkView true true "en" (TextNode "hi" NoNode)));
    vm_compute; reflexivity.
Defined.

(** Witness of [timeupdate_shows_containing_cue]: the same cue. *)
Lemma timeupdate_shows_witness :
  Captions.timeupdate (Normal tt) sample_parse sample_innerHTML 5 true
    (Some "en"%string)
    [("en"%string, [mkCue 2 None None 0 "hi"])] 1 (mkView false true "en" NoNode)
  = match Captions._sanitize (Normal tt) sample_parse sample_innerHTML "hi" with
    | Normal s => (mkView true true "en" (sample_parse s), Normal tt)
    | Throw e => (mkView true true "en" NoNode, Throw e)
    | OutOfFuel => (mkView true true "en" NoNode, OutOfFuel)
    end.
Proof.
  apply (timeupdate_shows_containing_cue
           (Normal tt) sample_parse sample_innerHTML 5 "en"
           [("en"%string, [mkCue 2 None None 0 "hi"])] [mkCue 2 None None 0 "hi"] 1
           (mkView false true "en" NoNode) 0 (mkCue 2 None None 0 "hi")).
  - vm_compute. reflexivity.
  - apply sorted_singleton.
  - apply non_overlapping_singleton.
  - intros i c Hi. apply index_singleton in Hi as [_ ->]. simpl. lra.
  - simpl. lia.
  - reflexivity.
  - reflexivity.
  - reflexivity.
  - split; simpl; lra.
Defined.

(** Witness of [sanitize_keeps_template_contents]: a cue whose text is
    a template around a [script] element.  [_sanitize] returns the text
    as it is, and the container is left with the template and, in its
    contents, the [script] element. *)
Lemma sanitize_keeps_template_witness :
  Captions._sanitize (Normal tt) sample_parse sample_innerHTML
    "<template><script>x</script></template>"
  = Normal "<template><script>x</script></template>"%string /\
  Captions.timeupdate (Normal tt) sample_parse sample_innerHTML 5 true
    (Some "en"%string)
    [("en"%string,
      [mkCue 2 None None 0 "<template><script>x</script></template>"])]
    1 (mkView false true "en" NoNode)
  = (mkView true true "en" sample_template, Normal tt) /\
  shows_script sample_template = true.
Proof.
  pose (c := mkCue 2 None None 0 "<template><script>x</script></template>").
  destruct (sanitize_keeps_template_contents
              (Normal tt) sample_parse sample_innerHTML
              "<template><script>x</script></template>"%string
              (Elem "script" [] (TextNode "x" NoNode) NoNode) eq_refl)
    as [Hs Ht].
  split; [exact Hs|]. split; [|reflexivity].
  apply (Ht 5%nat "en"%string [("en"%string, [c])] [c] 1%Q
            (mkView false true "en" NoNode) 0%Z c).
  - vm_compute. reflexivity.
  - apply sorted_singleton.
  - apply non_overlapping_singleton.
  - intros i c' Hi. apply index_singleton in Hi as [_ ->]. simpl. lra.
  - simpl. lia.
  - reflexivity.
  - reflexivity.
  - reflexivity.
  - split; simpl; lra.
  - reflexivity.
Defined.

End ViewFacts.

(** ** The captions offered in the Settings menu *)

Module MenuFacts.
Import CaptionsMenu.

Local Open Scope string_scope.

Section Labels.

Variable labels_off : string.
Variable labels_captions : string.
Variable labels_lang : string -> option string.

Local Abbreviation label_of := (label_of labels_lang).
Local Abbreviation push_track := (push_track labels_lang).
Local Abbreviation items_loop := (items_loop labels_lang).
Local Abbreviation _formatMenuItems := (_formatMenuItems labels_off labels_lang).
Local Abbreviation addSettings := (addSettings labels_off labels_captions labels_lang).

Lemma keys_filter k (items : list SettingsSubItem) :
  map sub_key (filter (fun el => negb (String.eqb (sub_key el) k)) items)
  = filter (fun x => negb (String.eqb x k)) (map sub_key items).
Proof.
  induction items as [|x r IH]; simpl; [reflexivity|].
  destruct (String.eqb (sub_key x) k); simpl; rewrite IH; reflexivity.
Qed.

Lemma keys_push items track :
  map sub_key (push_track items track)
  = (filter (fun x => negb (String.eqb x (language track))) (map sub_key items)
       ++ [language track])%list.
Proof.
  unfold CaptionsMenu.push_track. rewrite map_app, keys_filter. reflexivity.
Qed.

Lemma in_keys_push items track k :
  In k (map sub_key (push_track items track))
  <-> In k (map sub_key items) \/ k = language track.
Proof.
  rewrite keys_push, in_app_iff, filter_In. simpl.
  destruct (String.eqb_spec k (language track)) as [E|E].
  - subst k. intuition.
  - simpl. intuition congruence.
Qed.

Lemma nodup_keys_push items track :
  NoDup (map sub_key items) -> NoDup (map sub_key (push_track items track)).
Proof.
  intros H. rewrite keys_push.
  apply NoDup_app.
  - apply NoDup_filter. exact H.
  - constructor; [intros []|constructor].
  - intros x Hx [<-|[]]. apply filter_In in Hx as [_ Hx].
    rewrite String.eqb_refl in Hx. discriminate.
Qed.

Lemma in_push items track it :
  In it (push_track items track) ->
  In it items \/ it = mkSubItem (language track) (label_of track).
Proof.
  unfold CaptionsMenu.push_track. rewrite in_app_iff, filter_In. simpl.
  intuition.
Qed.

Lemma items_loop_entries :
  forall tracks items,
    NoDup (map sub_key items) ->
    NoDup (map sub_key (items_loop tracks items)) /\
    (forall k, In k (map sub_key (items_loop tracks items))
               <-> In k (map sub_key items) \/ In k (map language tracks)) /\
    (forall it, In it (items_loop tracks items) ->
                In it items \/
                exists track, In track tracks /\
                              it = mkSubItem (language track) (label_of track)).
Proof.
  induction tracks as [|track rest IH]; intros items Hn; simpl.
  - split; [exact Hn|]. split; [intros k; intuition|]. intros it H. left. exact H.
  - destruct (IH (push_track items track) (nodup_keys_push items track Hn))
      as (Hd & Hk & Hi).
    split; [exact Hd|]. split.
    + intros k. rewrite Hk, in_keys_push. intuition.
    + intros it H. destruct (Hi it H) as [Hp|(t & Ht & ->)].
      * destruct (in_push _ _ _ Hp) as [Ho| ->]; [left; exact Ho|].
        right. exists track. split; [left; reflexivity|reflexivity].
      * right. exists t. split; [right; exact Ht|reflexivity].
Qed.

(** The entries that [_formatMenuItems] returns have distinct keys; the
    keys are [off] and the languages of the tracks; and every entry is
    the one for [off] or the one made for a track of the list, with the
    label of the language or, failing that, of the track. *)
Theorem formatMenuItems_entries trackList :
  NoDup (map sub_key (_formatMenuItems trackList)) /\
  (forall k, In k (map sub_key (_formatMenuItems trackList))
             <-> k = "off" \/ In k (map language trackList)) /\
  (forall it, In it (_formatMenuItems trackList) ->
              it = mkSubItem "off" labels_off \/
              exists track, In track trackList /\
                            it = mkSubItem (language track) (label_of track)).
Proof.
  unfold CaptionsMenu._formatMenuItems.
  destruct (items_loop_entries trackList [mkSubItem "off" labels_off])
    as (Hd & Hk & Hi).
  { simpl. constructor; [intros []|constructor]. }
  split; [exact Hd|]. split.
  - intros k. rewrite Hk. simpl. intuition.
  - intros it H. destruct (Hi it H) as [[<-|[]]|Ht]; [left; reflexivity|right; exact Ht].
Qed.

Lemma formatMenuItems_length trackList :
  List.length (_formatMenuItems trackList) = List.length (menu_keys trackList).
Proof.
  unfold CaptionsMenu._formatMenuItems.
  destruct (items_loop_entries trackList [mkSubItem "off" labels_off])
    as (Hd & Hk & _).
  { simpl. constructor; [intros []|constructor]. }
  rewrite <- (length_map sub_key).
  apply Permutation_length. apply NoDup_Permutation.
  - exact Hd.
  - apply NoDup_nodup.
  - intros k. unfold menu_keys. rewrite nodup_In, Hk. simpl. intuition.
Qed.

Lemma menu_keys_bound trackList :
  (List.length (menu_keys trackList) <= 1 + List.length trackList)%nat.
Proof.
  unfold menu_keys.
  remember ("off" :: map language trackList) as l eqn:El.
  assert (Hlen : List.length l = S (List.length trackList))
    by (subst l; simpl; rewrite length_map; reflexivity).
  rewrite Nat.add_1_l, <- Hlen.
  apply NoDup_incl_length; [apply NoDup_nodup|].
  intros k Hk. apply nodup_In in Hk. exact Hk.
Qed.

(** [addSettings] hands the Settings menu an entry for the captions
    exactly when the menus are not detached and [off] and the languages
    of the tracks are more than two keys; the number of tracks decides
    nothing beyond that.  The entry lists what [_formatMenuItems]
    returns. *)
Theorem addSettings_offers_three_keys detachMenu default_language trackList :
  (addSettings detachMenu default_language trackList <> None
   <-> detachMenu = false /\ (2 < List.length (menu_keys trackList))%nat) /\
  (forall item, addSettings detachMenu default_language trackList = Some item ->
                subitems item = _formatMenuItems trackList /\
                key item = "captions").
Proof.
  unfold CaptionsMenu.addSettings.
  pose proof (formatMenuItems_length trackList) as Hl.
  pose proof (menu_keys_bound trackList) as Hb.
  split.
  - destruct detachMenu; simpl.
    + split; [congruence|intros [H _]; discriminate].
    + destruct (Nat.leb_spec (List.length trackList) 1) as [L|L].
      * split; [congruence|intros [_ H]; lia].
      * rewrite Hl.
        destruct (Nat.ltb_spec 2 (List.length (menu_keys trackList))) as [G|G].
        -- split; [auto|discriminate].
        -- split; [congruence|intros [_ H]; lia].
  - intros item H.
    destruct (detachMenu || (List.length trackList <=? 1)%nat); [discriminate|].
    destruct (2 <? List.length (_formatMenuItems trackList))%nat; [|discriminate].
    injection H as <-. split; reflexivity.
Qed.

End Labels.

End MenuFacts.

(** ** Entering and leaving fullscreen *)

Module ScreenFacts.
Import Js Fullscreen Screen JsFacts.

Local Open Scope string_scope.
Local Open Scope Z_scope.
Local Open Scope js_scope.

(** [_setFullscreenData] on a component that has its button. *)
Lemma setFullscreenData_runs state c :
  button c = true ->
  _setFullscreenData state c
  = (set_button_out_class state (set_data_fullscreen (Some state) c), Normal tt).
Proof.
  intros Hb. unfold _setFullscreenData, bindM, update, get. simpl.
  rewrite Hb. reflexivity.
Qed.

Lemma fullscreenChange_runs st :
  button (component st) = true ->
  _fullscreenChange st = (changed st, Normal tt).
Proof.
  intros Hb. unfold _fullscreenChange, changed.
  unfold bindM at 1. unfold get at 1.
  unfold bindM at 1. unfold on_component.
  rewrite (setFullscreenData_runs _ _ Hb). cbn [fst snd].
  destruct (isAd st); reflexivity.
Qed.

Lemma changed_in_step st : in_step (changed st).
Proof. unfold in_step, changed. destruct (isAd st); repeat split. Qed.

Section Browser.

Variable document_has : ExitApi -> bool.
Variable video_has : RequestApi -> bool.
Variable screen_width : Z.
Variable screen_height : Z.

Local Abbreviation toggleFullscreen :=
  (toggleFullscreen document_has video_has screen_width screen_height).
Local Abbreviation _keydownEvent :=
  (_keydownEvent document_has video_has screen_width screen_height).
Local Abbreviation dispatchEvent :=
  (dispatchEvent document_has video_has screen_width screen_height).
Local Abbreviation toggled := (toggled screen_width screen_height).
Local Abbreviation asked := (asked screen_width screen_height).

(** What [toggleFullscreen] leaves when the browser lacks the functions
    for the direction it is to go. *)
Lemma toggle_falls_back st :
  (if isFullscreen st then forall api, document_has api = false
   else forall api, video_has api = false) ->
  button (component st) = true ->
  toggleFullscreen st = (toggled st, Normal tt).
Proof.
  intros H Hb. unfold Screen.toggleFullscreen, Screen.toggled.
  unfold bindM at 1. unfold get at 1.
  destruct (isFullscreen st) eqn:Hf.
  - rewrite !H. unfold bindM. rewrite (fullscreenChange_runs st Hb).
    unfold update. f_equal.
    unfold changed. rewrite Hf. destruct (isAd st); reflexivity.
  - rewrite !H. unfold bindM at 1. unfold update at 1.
    unfold bindM at 1. unfold update at 1.
    unfold bindM.
    rewrite (fullscreenChange_runs
               (set_fullscreenHeight (Some screen_height)
                  (set_fullscreenWidth (Some screen_width) st)) Hb).
    unfold update. f_equal.
    unfold changed. simpl. rewrite Hf. destruct (isAd st); reflexivity.
Qed.

(** In a browser without any of the fullscreen functions,
    [toggleFullscreen] on a control that has its button returns and
    turns [isFullscreen] over; afterwards the class of the body, the
    attribute [data-fullscreen] and the class of the button agree with
    it, whatever they were before.  Leaving fullscreen clears the four
    styles; entering sets each to [100%] if the screen has that
    dimension. *)
Theorem toggle_without_native_api st :
  no_native_api document_has video_has ->
  button (component st) = true ->
  let st' := fst (toggleFullscreen st) in
  snd (toggleFullscreen st) = Normal tt /\
  isFullscreen st' = negb (isFullscreen st) /\
  in_step st' /\
  wrapper_width st' = video_width st' /\
  wrapper_height st' = video_height st' /\
  video_width st'
  = (if isFullscreen st then None else full_or_null (Some screen_width)) /\
  video_height st'
  = (if isFullscreen st then None else full_or_null (Some screen_height)) /\
  listeners (component st') = listeners (component st).
Proof.
  intros [Hd Hv] Hb. rewrite (toggle_falls_back st); [|destruct (isFullscreen st); assumption|exact Hb].
  cbn [fst snd].
  split; [reflexivity|]. unfold Screen.toggled.
  destruct (isFullscreen st) eqn:Hf.
  - split; [unfold changed; rewrite Hf; destruct (isAd st); reflexivity|].
    split; [apply changed_in_step|].
    unfold changed. rewrite Hf. destruct (isAd st); repeat split.
  - split; [unfold changed; simpl; rewrite Hf; destruct (isAd st); reflexivity|].
    split; [apply changed_in_step|].
    unfold changed. simpl. rewrite Hf. destruct (isAd st); repeat split.
Qed.

Lemma toggle_asks st :
  (if isFullscreen st then exists api, document_has api = true
   else exists api, video_has api = true) ->
  exists c,
    toggleFullscreen st = (asked c st, Normal tt) /\
    (if isFullscreen st
     then exists api, document_has api = true /\ c = Exit api
     else exists api, video_has api = true /\ c = Request api).
Proof.
  intros H. unfold Screen.toggleFullscreen, Screen.asked.
  unfold bindM at 1. unfold get at 1.
  destruct (isFullscreen st) eqn:Hf.
  - assert (Hsome : document_has ExitFullscreen = true \/
                    document_has MozCancelFullScreen = true \/
                    document_has WebkitCancelFullScreen = true \/
                    document_has MsExitFullscreen = true).
    { destruct H as [[] H]; auto. }
    destruct (document_has ExitFullscreen) eqn:E1;
      [|destruct (document_has MozCancelFullScreen) eqn:E2;
        [|destruct (document_has WebkitCancelFullScreen) eqn:E3;
          [|destruct (document_has MsExitFullscreen) eqn:E4;
            [|exfalso; intuition discriminate]]]];
      eexists; (split; [reflexivity|]); eexists; (split; [eassumption|reflexivity]).
  - assert (Hsome : video_has RequestFullscreen = true \/
                    video_has MozRequestFullScreen = true \/
                    video_has WebkitRequestFullScreen = true \/
                    video_has MsRequestFullscreen = true \/
                    video_has WebkitEnterFullscreen = true).
    { destruct H as [[] H]; auto. }
    destruct (video_has RequestFullscreen) eqn:E1;
      [|destruct (video_has MozRequestFullScreen) eqn:E2;
        [|destruct (video_has WebkitRequestFullScreen) eqn:E3;
          [|destruct (video_has MsRequestFullscreen) eqn:E4;
            [|destruct (video_has WebkitEnterFullscreen) eqn:E5;
              [|exfalso; intuition discriminate]]]]];
      eexists; (split; [reflexivity|]); eexists; (split; [eassumption|reflexivity]).
Qed.

(** With one of the functions at hand, [toggleFullscreen] calls exactly
    one of them and leaves [isFullscreen], the attribute of the
    container and the class of the button as they are: only the class of
    the body changes, so that the body and the field disagree until the
    browser reports the change. *)
Theorem toggle_with_native_api st :
  (if isFullscreen st then exists api, document_has api = true
   else exists api, video_has api = true) ->
  let st' := fst (toggleFullscreen st) in
  snd (toggleFullscreen st) = Normal tt /\
  isFullscreen st' = isFullscreen st /\
  component st' = component st /\
  body_fullscreen_on st' = negb (isFullscreen st) /\
  (if isFullscreen st
   then exists api, document_has api = true /\ calls st' = (calls st ++ [Exit api])%list
   else exists api, video_has api = true /\ calls st' = (calls st ++ [Request api])%list).
Proof.
  intros H. destruct (toggle_asks st H) as (c & -> & Hc). cbn [fst snd].
  unfold Screen.asked.
  destruct (isFullscreen st) eqn:Hf; destruct Hc as (api & Ha & ->);
    repeat (split; [try reflexivity; exact Hf|]); exists api; split; auto.
Qed.

(** **** The key F *)

Lemma exit_api_cases :
  (exists api, document_has api = true) \/ (forall api, document_has api = false).
Proof.
  destruct (document_has ExitFullscreen) eqn:E1; [left; eauto|].
  destruct (document_has MozCancelFullScreen) eqn:E2; [left; eauto|].
  destruct (document_has WebkitCancelFullScreen) eqn:E3; [left; eauto|].
  destruct (document_has MsExitFullscreen) eqn:E4; [left; eauto|].
  right. intros []; assumption.
Qed.

Lemma request_api_cases :
  (exists api, video_has api = true) \/ (forall api, video_has api = false).
Proof.
  destruct (video_has RequestFullscreen) eqn:E1; [left; eauto|].
  destruct (video_has MozRequestFullScreen) eqn:E2; [left; eauto|].
  destruct (video_has WebkitRequestFullScreen) eqn:E3; [left; eauto|].
  destruct (video_has MsRequestFullscreen) eqn:E4; [left; eauto|].
  destruct (video_has WebkitEnterFullscreen) eqn:E5; [left; eauto|].
  right. intros []; assumption.
Qed.

Lemma toggle_returns st :
  button (component st) = true ->
  exists st', toggleFullscreen st = (st', Normal tt).
Proof.
  intros Hb. destruct (isFullscreen st) eqn:Hf.
  - destruct exit_api_cases as [H|H].
    + destruct (toggle_asks st) as (c & Hc & _); [rewrite Hf; exact H|].
      eexists. exact Hc.
    + eexists. apply toggle_falls_back; [rewrite Hf; exact H|exact Hb].
  - destruct request_api_cases as [H|H].
    + destruct (toggle_asks st) as (c & Hc & _); [rewrite Hf; exact H|].
      eexists. exact Hc.
    + eexists. apply toggle_falls_back; [rewrite Hf; exact H|exact Hb].
Qed.

Lemma keydown_F_runs st st' :
  toggleFullscreen st = (st', Normal tt) ->
  _keydownEvent key_F st
  = (set_calls (calls st' ++ [PreventDefault])%list st', Normal tt).
Proof.
  intros H. unfold Screen._keydownEvent. simpl. unfold bindM. rewrite H.
  reflexivity.
Qed.

(** Listeners registered elsewhere or for another type do not run. *)
Lemma run_listeners_skip t type e :
  forall rs st,
    Forall (fun r => target_eqb t (reg_target r) && String.eqb type (reg_type r)
                     = false) rs ->
    run_listeners document_has video_has screen_width screen_height rs t type e st
    = (st, Normal tt).
Proof.
  induction rs as [|r rest IH]; intros st H; [reflexivity|].
  inversion H as [|r' rest' Hr Hrest]; subst.
  cbn [run_listeners]. rewrite Hr. unfold when, bindM, ret. apply IH. exact Hrest.
Qed.

Section Component.

Variable IS_IPHONE : bool.
Variable removeElement : bool -> bool.

(** After [create] and [destroy] the key F on the container of the
    player is still handled, whatever [fullScreenEnabled] says: [destroy]
    returns, and a [keydown] event for F then does what
    [toggleFullscreen] does and prevents the default action. *)
Theorem key_F_toggles_after_destroy body_on enabled ad :
  let created :=
    fst (on_component (create IS_IPHONE) (constructor body_on enabled ad)) in
  let destroyed :=
    fst (on_component (destroy IS_IPHONE removeElement) created) in
  snd (on_component (destroy IS_IPHONE removeElement) created) = Normal tt /\
  snd (dispatchEvent Container "keydown" key_F destroyed) = Normal tt /\
  fst (dispatchEvent Container "keydown" key_F destroyed)
  = set_calls (calls (fst (toggleFullscreen destroyed)) ++ [PreventDefault])%list
              (fst (toggleFullscreen destroyed)).
Proof.
  intros created destroyed.
  assert (Hd : snd (on_component (destroy IS_IPHONE removeElement) created)
               = Normal tt)
    by (subst created; destruct IS_IPHONE; vm_compute; reflexivity).
  split; [exact Hd|]. clear Hd.
  assert (Hb : button (component destroyed) = true)
    by (subst destroyed created; destruct IS_IPHONE; vm_compute; reflexivity).
  assert (Hl : exists rest,
             listeners (component destroyed)
             = mkRegistration Container "keydown" (mkFn 1 KeydownEvent) :: rest /\
             Forall (fun r => target_eqb Container (reg_target r)
                              && String.eqb "keydown" (reg_type r) = false) rest).
  { subst destroyed created. destruct IS_IPHONE; eexists;
      (split; [vm_compute; reflexivity|repeat constructor]). }
  clearbody destroyed. clear created.
  destruct Hl as (rest & Hl & Hrest).
  destruct (toggle_returns destroyed Hb) as (st' & Ht).
  pose proof (keydown_F_runs destroyed st' Ht) as Hk.
  rewrite Ht. cbn [fst].
  assert (Hrun : dispatchEvent Container "keydown" key_F destroyed
                 = (set_calls (calls st' ++ [PreventDefault])%list st', Normal tt)).
  { unfold Screen.dispatchEvent. unfold bindM at 1. unfold get at 1.
    rewrite Hl. cbn [run_listeners reg_target reg_type reg_listener fn_code
                     target_eqb run_code].
    rewrite String.eqb_refl. cbn [andb when].
    unfold bindM, catch. rewrite Hk.
    apply run_listeners_skip. exact Hrest. }
  rewrite Hrun. split; reflexivity.
Qed.

End Component.

End Browser.

(** Witness of [toggle_without_native_api]: the control after [create],
    in a browser without the functions, on a screen of 1920 by 1080. *)
Lemma toggle_without_native_api_witness :
  isFullscreen
    (fst (toggleFullscreen (fun _ => false) (fun _ => false) 1920 1080
            (fst (on_component (create false) (constructor false true false)))))
  = true.
Proof.
  destruct (toggle_without_native_api (fun _ => false) (fun _ => false) 1920 1080
              (fst (on_component (create false) (constructor false true false))))
    as (_ & H & _).
  - split; reflexivity.
  - reflexivity.
  - exact H.
Defined.

(** Witness of [toggle_with_native_api]: the same control in a browser
    that has all the functions. *)
Lemma toggle_with_native_api_witness :
  body_fullscreen_on
    (fst (toggleFullscreen (fun _ => true) (fun _ => true) 1920 1080
            (fst (on_component (create false) (constructor false true false)))))
  = true.
Proof.
  destruct (toggle_with_native_api (fun _ => true) (fun _ => true) 1920 1080
              (fst (on_component (create false) (constructor false true false))))
    as (_ & _ & _ & H & _).
  - exists RequestFullscreen. reflexivity.
  - exact H.
Defined.

End ScreenFacts.

(** ** The sound of the ads *)

Module AdsSoundFacts.
Import Js Ads AdsSound JsFacts.

Local Open Scope string_scope.
Local Open Scope js_scope.

Lemma manager_call_runs name st m :
  adsManager st = Some m ->
  manager_call name st
  = (set_trace (trace st ++ [Sdk ("adsManager." ++ name)])%list st, Normal tt).
Proof.
  intros H. unfold manager_call, bindM, get, emit, update. rewrite H. reflexivity.
Qed.

Lemma set_volume_runs value st m :
  adsManager st = Some m ->
  set_volume value st
  = (set_adsMuted (Qeq_bool value 0)
       (set_media (Media.set_muted (Qeq_bool value 0)
                     (Media.set_volume value (media st)))
          (set_trace (trace st ++ [Sdk "adsManager.setVolume"])%list
             (set_adsVolume value st))), Normal tt).
Proof.
  intros H. unfold set_volume. rewrite bindM_get, H, bindM_update. cbv beta.
  rewrite (bindM_returns _ _ _ _ _
             (manager_call_runs "setVolume" (set_adsVolume value st) m H)).
  reflexivity.
Qed.

Lemma set_muted_runs value st m :
  adsManager st = Some m ->
  set_muted value st
  = (let v := if value then 0%Q else adsVolume st in
     set_media (Media.set_muted (Qeq_bool v 0) (Media.set_volume v (media st)))
       (set_adsMuted value
          (set_trace (trace st ++ [Sdk "adsManager.setVolume"])%list st)),
     Normal tt).
Proof.
  intros H. unfold set_muted. rewrite bindM_get, H.
  destruct value;
    rewrite (bindM_returns _ _ _ _ _ (manager_call_runs "setVolume" st m H));
    reflexivity.
Qed.

(** What [_setMediaVolume] leaves of the facade when it has a backend. *)
Lemma media_sound v mu ms b :
  Media.media ms = Some b ->
  Media.get_volume (Media.set_muted mu (Media.set_volume v ms)) = v /\
  Media.get_muted (Media.set_muted mu (Media.set_volume v ms)) = mu /\
  exists b', Media.media (Media.set_muted mu (Media.set_volume v ms)) = Some b'.
Proof.
  intros Hb. destruct ms as [e md f p o a l c cs]. simpl in Hb. subst md.
  repeat split. eexists. reflexivity.
Qed.

(** With an ads manager and a backend under the facade: after the volume
    was set to [v], muting and unmuting brings the sound back as the
    setter [volume] left it: the volume kept for the ads and that of the
    media are [v], and the media is muted exactly when [v] is zero.  The
    component itself says it is not muted then, also for [v = 0], where
    the setter [volume] had said it was. *)
Theorem unmute_restores_volume v st m b :
  adsManager st = Some m ->
  Media.media (media st) = Some b ->
  let st' := fst ((set_volume v ;; set_muted true ;; set_muted false) st) in
  snd ((set_volume v ;; set_muted true ;; set_muted false) st) = Normal tt /\
  adsVolume st' = v /\
  get_muted st' = false /\
  get_muted (fst (set_volume v st)) = Qeq_bool v 0 /\
  Media.get_volume (media st') = v /\
  Media.get_muted (media st') = Qeq_bool v 0.
Proof.
  intros Hm Hb.
  pose proof (set_volume_runs v st m Hm) as H1.
  rewrite (bindM_returns _ _ _ _ _ H1). rewrite H1. cbn [fst].
  match type of H1 with _ = (?s, _) => set (s1 := s) in * end.
  assert (Hm1 : adsManager s1 = Some m) by exact Hm.
  destruct (media_sound v (Qeq_bool v 0) (media st) b Hb) as (_ & _ & b1 & Hb1).
  pose proof (set_muted_runs true s1 m Hm1) as H2.
  rewrite (bindM_returns _ _ _ _ _ H2).
  match type of H2 with _ = (?s, _) => set (s2 := s) in * end.
  assert (Hm2 : adsManager s2 = Some m) by exact Hm.
  assert (Hb2 : exists b2, Media.media (media s2) = Some b2).
  { destruct (media_sound 0%Q (Qeq_bool 0 0) (media s1) b1 Hb1) as (_ & _ & Hx).
    exact Hx. }
  destruct Hb2 as (b2 & Hb2).
  rewrite (set_muted_runs false s2 m Hm2). cbn [fst snd].
  change (adsVolume s2) with v.
  destruct (media_sound v (Qeq_bool v 0) (media s2) b2 Hb2) as (Hv & Hmu & _).
  split; [reflexivity|]. split; [reflexivity|]. split; [reflexivity|].
  split; [reflexivity|]. split; [exact Hv|exact Hmu].
Qed.

(** Witness of [unmute_restores_volume]: the volume set to zero while
    an ad runs. *)
Lemma unmute_restores_volume_witness :
  get_muted (fst ((set_volume 0%Q ;; set_muted true ;; set_muted false) sample_ad_running))
  = false /\
  Media.get_muted
    (media (fst ((set_volume 0%Q ;; set_muted true ;; set_muted false) sample_ad_running)))
  = true.
Proof.
  refine ((fun H => conj (proj1 (proj2 (proj2 H)))
                         (proj2 (proj2 (proj2 (proj2 (proj2 H))))))
            (unmute_restores_volume 0%Q sample_ad_running _ _ _ _));
    vm_compute; reflexivity.
Defined.

End AdsSoundFacts.

(** ** Ad events without an ad *)

Module AdsEventFacts.
Import Js Media Ads AdsEvents JsFacts.

Local Open Scope string_scope.
Local Open Scope js_scope.

Section Handlers.

Variable IS_IOS : bool.
Variable IS_ANDROID : bool.
Variable IS_IPHONE : bool.
Variable isVideo : bool.
Variable isXml : string -> bool.
Variable predictType : string -> string.
Variable isHlsSource : Source -> bool.
Variable isDashSource : Source -> bool.
Variable isFlvSource : Source -> bool.
Variable new_backend : BackendKind -> Element -> Source -> Backend.
Variable backend_canPlayType : Backend -> string -> bool.
Variable playHLSNatively : Element -> bool.

Local Abbreviation _assign :=
  (_assign IS_IOS IS_ANDROID IS_IPHONE isVideo isXml predictType isHlsSource
     isDashSource isFlvSource new_backend backend_canPlayType playHLSNatively).

(** An event whose [getAd()] is [null]: for the types that make
    [_assign] ask the ad whether it is linear, [_assign] throws a
    [TypeError] before it has dispatched anything, and the flags of the
    component are as they were, so that the event is not announced on
    the element; for every other type [_assign] returns. *)
Theorem assign_without_ad event st :
  getAd event = None ->
  if reads_ad (ev_type event) then
    snd (_assign event st)
    = Throw (TypeError "Cannot read properties of null (reading 'isLinear')") /\
    trace (fst (_assign event st)) = trace st /\
    adsActive (fst (_assign event st)) = adsActive st /\
    adsEnded (fst (_assign event st)) = adsEnded st /\
    adsStarted (fst (_assign event st)) = adsStarted st /\
    events (fst (_assign event st)) = events st
  else snd (_assign event st) = Normal tt.
Proof.
  intros Hn. unfold Ads._assign, Ads.assign_switch, ad_isLinear.
  destruct (ev_type event) eqn:E; cbn [reads_ad]; rewrite ?Hn;
    try (destruct (adError event));
    repeat split; reflexivity.
Qed.

End Handlers.

(** Witness of [assign_without_ad]: all ads are completed, and the event
    carries no ad. *)
Lemma assign_without_ad_witness :
  snd (Ads._assign false false false true (fun _ => false) (fun _ => "video/mp4")
         (fun _ => false) (fun _ => false) (fun _ => false)
         sample_backend (fun _ _ => true) (fun _ => false)
         (mkAdEvent ALL_ADS_COMPLETED None None) sample_ad_running)
  = Throw (TypeError "Cannot read properties of null (reading 'isLinear')").
Proof.
  apply (assign_without_ad false false false true (fun _ => false)
           (fun _ => "video/mp4") (fun _ => false) (fun _ => false) (fun _ => false)
           sample_backend (fun _ _ => true) (fun _ => false)
           (mkAdEvent ALL_ADS_COMPLETED None None) sample_ad_running).
  reflexivity.
Defined.

End AdsEventFacts.
